(** * Evaluation and calibration engine of gpu-ml-framework

    A shallow embedding of [src/eval/metrics.py] (multiclass Brier score,
    expected calibration error, [evaluate]) and of [src/train/run_cv.py]
    ([bootstrap_ci] and the stratified fold loop of [main]) and of
    [load_logs] of [src/data/logs_loader.py], together with the parts of
    numpy, pandas and scikit-learn those functions call.

    Numbers.  The Python code computes on IEEE doubles.  A double is a
    rational, so every float is a [Q] here, compared with [==], and the
    comparisons of the code are exact.  Where the last bit of a number
    decides what happens to a sample, in the bin edges of
    [np.linspace], the rounding is modelled ([Fl.round]).  Sums, means and
    quotients are computed exactly: a value the theorems give is the
    value of the code up to the rounding of those operations.

    Failures.  A Python exception, or a [nan] handed back in place of a
    number, is a [Raise] in the [outcome] type. *)

From Stdlib Require Import String.
From Stdlib Require Import List Bool Arith ZArith QArith Qabs Qminmax Qround Qpower.
From Stdlib Require Import Lia Lqa Sorted.
Import ListNotations.

(** ** Outcomes of a call *)

Inductive fault : Type :=
| IndexError   (* an index past the end of an axis, or a mask of the wrong length *)
| ValueError   (* numpy / scikit-learn input validation *)
| AttributeError   (* an accessor the object does not have *)
| NaNResult.   (* the call returned [nan] (numpy warns and goes on) *)

Inductive outcome (A : Type) : Type :=
| Ok (a : A)
| Raise (e : fault).

Arguments Ok {A} a.
Arguments Raise {A} e.

Definition bind {A B : Type} (c : outcome A) (k : A -> outcome B) : outcome B :=
  match c with
  | Ok a => k a
  | Raise e => Raise e
  end.

Notation "x <- c ;; k" := (bind c (fun x => k))
  (at level 61, c at next level, right associativity).

Definition failed {A : Type} (c : outcome A) : Prop := exists e, c = Raise e.

Fixpoint sequence {A : Type} (cs : list (outcome A)) : outcome (list A) :=
  match cs with
  | [] => Ok []
  | c :: rest => x <- c ;; xs <- sequence rest ;; Ok (x :: xs)
  end.

(** ** Rounding to a double

    Where the place of a sample depends on the last bit of a number
    (the bin edges that [np.linspace] computes) the double is modelled
    itself: the rational that IEEE 754 binary64 arithmetic yields, every
    operation rounded to the nearest number of 53 significant bits, a tie
    going to the even significand.  The exponent range is left out: no
    quantity rounded here gets near the smallest or the largest double. *)

Module Fl.

Local Open Scope Q_scope.

(** Nearest integer, a tie going to the even neighbour. *)
Definition nearest_even (x : Q) : Z :=
  let f := Qfloor x in
  match Qcompare (x - inject_Z f) (1 # 2) with
  | Lt => f
  | Gt => (f + 1)%Z
  | Eq => if Z.even f then f else (f + 1)%Z
  end.

(** The binade of a positive [x]: [2 ^ binade x <= x < 2 ^ (binade x + 1)]. *)
Definition binade (x : Q) : Z :=
  let k := (Z.log2 (Qnum x) - Z.log2 (Zpos (Qden x)))%Z in
  if Qle_bool (2 ^ k) x then k else (k - 1)%Z.

(** A positive [x] rounded to 53 significant bits. *)
Definition round_pos (x : Q) : Q :=
  let e := (binade x - 52)%Z in
  inject_Z (nearest_even (x / 2 ^ e)) * 2 ^ e.

Definition round (x : Q) : Q :=
  match Qnum x with
  | Z0 => 0
  | Zpos _ => round_pos x
  | Zneg _ => - round_pos (- x)
  end.

(** The product and the quotient of two doubles. *)
Definition mul (a b : Q) : Q := round (a * b).

Definition div (a b : Q) : Q := round (a / b).

(** Half the gap between 1 and the next double: [2 ^ -53]. *)
Definition unit_roundoff : Q := 1 # 9007199254740992.

End Fl.

(** ** The numpy operations the sources use *)

Module Np.

Local Open Scope Q_scope.

Definition Qltb (a b : Q) : bool := negb (Qle_bool b a).

Definition of_nat (n : nat) : Q := inject_Z (Z.of_nat n).

Definition sum (xs : list Q) : Q := fold_right Qplus 0 xs.

(** [np.mean] of a one-dimensional array; the mean of an empty array is
    [nan]. *)
Definition mean (xs : list Q) : outcome Q :=
  match xs with
  | [] => Raise NaNResult
  | _ :: _ => Ok (sum xs / of_nat (length xs))
  end.

(** [.astype(int)] and the mean of a boolean array. *)
Definition int_of_bool (b : bool) : Z := if b then 1%Z else 0%Z.

Definition count_true (bs : list bool) : nat := length (filter (fun b => b) bs).

Definition mean_bool (bs : list bool) : outcome Q :=
  mean (map (fun b => inject_Z (int_of_bool b)) bs).

Definition any (bs : list bool) : bool := existsb (fun b => b) bs.

(** A two-dimensional float array: its column count is part of the shape
    even when there is no row. *)
Record ndarray2 : Type := { ncols : nat; rows : list (list Q) }.

Definition nrows (m : ndarray2) : nat := length (rows m).

Definition well_shaped (m : ndarray2) : Prop :=
  Forall (fun r => length r = ncols m) (rows m).

(** [m[:, i]] *)
Definition column (m : ndarray2) (i : nat) : outcome (list Q) :=
  if (i <? ncols m)%nat
  then Ok (map (fun r => nth i r 0) (rows m))
  else Raise IndexError.

(** Running maximum and the index where it was first reached: a later
    entry replaces the current one only when strictly larger. *)
Fixpoint max_from (best : Q) (xs : list Q) : Q :=
  match xs with
  | [] => best
  | x :: rest => max_from (if Qltb best x then x else best) rest
  end.

Fixpoint argmax_from (best : Q) (best_i i : nat) (xs : list Q) : nat :=
  match xs with
  | [] => best_i
  | x :: rest =>
      if Qltb best x
      then argmax_from x i (S i) rest
      else argmax_from best best_i (S i) rest
  end.

Definition row_max (r : list Q) : Q :=
  match r with
  | [] => 0
  | x :: rest => max_from x rest
  end.

Definition row_argmax (r : list Q) : nat :=
  match r with
  | [] => O
  | x :: rest => argmax_from x 0 1 rest
  end.

(** [m.max(axis=1)] and [m.argmax(axis=1)]: reducing an axis of length 0
    raises, whatever the number of rows. *)
Definition max_axis1 (m : ndarray2) : outcome (list Q) :=
  if (ncols m =? 0)%nat then Raise ValueError
  else Ok (map row_max (rows m)).

Definition argmax_axis1 (m : ndarray2) : outcome (list nat) :=
  if (ncols m =? 0)%nat then Raise ValueError
  else Ok (map row_argmax (rows m)).

(** [np.array(classes)[idx]] with an integer index array. *)
Definition take (classes : list string) (idx : list nat) : outcome (list string) :=
  sequence (map (fun i => match nth_error classes i with
                          | Some c => Ok c
                          | None => Raise IndexError
                          end) idx).

(** [a == b] on two one-dimensional string arrays, with numpy's
    broadcasting of a length-1 operand. *)
Definition eq_arrays (a b : list string) : outcome (list bool) :=
  if (length a =? length b)%nat
  then Ok (map (fun ab => String.eqb (fst ab) (snd ab)) (combine a b))
  else if (length b =? 1)%nat
  then Ok (map (fun x => String.eqb x (hd EmptyString b)) a)
  else if (length a =? 1)%nat
  then Ok (map (fun y => String.eqb (hd EmptyString a) y) b)
  else Raise ValueError.

(** [(y == c)] against one scalar label. *)
Definition eq_scalar (y : list string) (c : string) : list bool :=
  map (fun l => String.eqb l c) y.

(** [xs[mask]] with a boolean mask. *)
Fixpoint select {A : Type} (mask : list bool) (xs : list A) : list A :=
  match mask, xs with
  | b :: mask', x :: xs' => if b then x :: select mask' xs' else select mask' xs'
  | _, _ => []
  end.

Definition compress {A : Type} (mask : list bool) (xs : list A) : outcome (list A) :=
  if (length mask =? length xs)%nat then Ok (select mask xs)
  else Raise IndexError.

(** [np.linspace(0.0, 1.0, bins + 1)[i]], as numpy computes it: the step
    is the double [1.0 / bins], entry [i] the double [i * step], and the
    last entry is set to the end point itself.  With no bin the array is
    [[0.]]. *)
Definition linspace01 (bins i : nat) : Q :=
  match bins with
  | O => 0
  | S _ => if (i =? bins)%nat then 1 else Fl.mul (of_nat i) (Fl.div 1 (of_nat bins))
  end.

End Np.

(** ** The scikit-learn metrics the sources use

    Modelled from scikit-learn's documented behaviour (current releases):
    the library is not part of the repository. *)

Module Sk.

Local Open Scope Q_scope.

(** Input validation shared by the label metrics: both arrays have one
    length.  An empty target array is rendered as a failure too: current
    releases do not get through it, in ways that vary, and nothing below
    depends on that case. *)
Definition check_targets (y_true y_pred : list string) : outcome unit :=
  if negb (length y_true =? length y_pred)%nat then Raise ValueError
  else if (length y_true =? 0)%nat then Raise ValueError
  else Ok tt.

(** [brier_score_loss(y_bin, y_prob)]: mean of [(y_bin - y_prob)^2], after
    checking that the two arrays have one length, that there is a sample
    and that every probability lies in [0, 1]. *)
Definition brier_score_loss (y_bin : list Z) (y_prob : list Q) : outcome Q :=
  if negb (length y_bin =? length y_prob)%nat then Raise ValueError
  else if (length y_prob =? 0)%nat then Raise ValueError
  else if existsb (fun p => Np.Qltb 1 p || Np.Qltb p 0) y_prob then Raise ValueError
  else Np.mean (map (fun yp => (inject_Z (fst yp) - snd yp) * (inject_Z (fst yp) - snd yp))
                    (combine y_bin y_prob)).

(** One row of the classification report. *)
Record report_row : Type :=
  { precision : Q; recall : Q; f1_score : Q; support : nat }.

Record report : Type :=
  { per_label : list (string * report_row);
    accuracy : Q;
    macro_avg : report_row;
    weighted_avg : report_row }.

Fixpoint insert_label (s : string) (l : list string) : list string :=
  match l with
  | [] => [s]
  | x :: rest => if String.leb s x then s :: l else x :: insert_label s rest
  end.

Definition sort_labels (l : list string) : list string :=
  fold_right insert_label [] l.

(** [unique_labels(y_true, y_pred)]: the labels that occur, sorted. *)
Definition unique_labels (y_true y_pred : list string) : list string :=
  sort_labels (nodup string_dec (y_true ++ y_pred)).

Definition count_label (c : string) (ys : list string) : nat :=
  count_occ string_dec ys c.

(** Samples whose true and predicted labels are [t] and [p]. *)
Definition count_pair (t p : string) (y_true y_pred : list string) : nat :=
  length (filter (fun tp => String.eqb (fst tp) t && String.eqb (snd tp) p)
                 (combine y_true y_pred)).

(** A ratio whose denominator may be 0: [zero_division] is left at its
    default, which warns and yields 0. *)
Definition ratio (num den : nat) : Q :=
  if (den =? 0)%nat then 0 else Np.of_nat num / Np.of_nat den.

Definition harmonic (p r : Q) : Q :=
  if Qeq_bool (p + r) 0 then 0 else 2 * p * r / (p + r).

Definition row_of (c : string) (y_true y_pred : list string) : report_row :=
  let tp := count_pair c c y_true y_pred in
  let p := ratio tp (count_label c y_pred) in
  let r := ratio tp (count_label c y_true) in
  {| precision := p; recall := r; f1_score := harmonic p r;
     support := count_label c y_true |}.

Definition average (f : report_row -> Q) (rs : list report_row) : Q :=
  Np.sum (map f rs) / Np.of_nat (length rs).

Definition weighted (f : report_row -> Q) (rs : list report_row) : Q :=
  Np.sum (map (fun r => Np.of_nat (support r) * f r) rs)
  / Np.of_nat (list_sum (map support rs)).

(** [classification_report(y_true, y_pred, output_dict=True)], no [labels]
    argument: the rows are those of [unique_labels]. *)
Definition classification_report (y_true y_pred : list string) : outcome report :=
  _ <- check_targets y_true y_pred ;;
  let labels := unique_labels y_true y_pred in
  let rs := map (fun c => row_of c y_true y_pred) labels in
  let total := list_sum (map support rs) in
  Ok {| per_label := combine labels rs;
        accuracy := ratio (length (filter (fun tp => String.eqb (fst tp) (snd tp))
                                          (combine y_true y_pred)))
                          (length y_true);
        macro_avg := {| precision := average precision rs;
                        recall := average recall rs;
                        f1_score := average f1_score rs;
                        support := total |};
        weighted_avg := {| precision := weighted precision rs;
                           recall := weighted recall rs;
                           f1_score := weighted f1_score rs;
                           support := total |} |}.

(** [label_to_ind = {y: x for x, y in enumerate(labels)}]: the position
    of a label in [labels], counted from [i]; of a repeated label, the
    last one. *)
Fixpoint label_to_ind (labels : list string) (i : nat) (l : string) : option nat :=
  match labels with
  | [] => None
  | x :: rest =>
      match label_to_ind rest (S i) l with
      | Some k => Some k
      | None => if String.eqb x l then Some i else None
      end
  end.

(** Samples whose true label is mapped to [i] and predicted label to [j];
    a sample one of whose labels is not in [labels] is left out. *)
Definition count_cell (labels : list string) (i j : nat) (y_true y_pred : list string)
  : nat :=
  length (filter (fun tp => match label_to_ind labels 0 (fst tp),
                                  label_to_ind labels 0 (snd tp) with
                            | Some a, Some b => (a =? i)%nat && (b =? j)%nat
                            | _, _ => false
                            end)
                 (combine y_true y_pred)).

(** [confusion_matrix(y_true, y_pred, labels=labels)]: one row and one
    column per entry of [labels]; a label list that is empty, or none of
    whose labels occurs in [y_true], is rejected. *)
Definition confusion_matrix (y_true y_pred labels : list string)
  : outcome (list (list nat)) :=
  _ <- check_targets y_true y_pred ;;
  if (length labels =? 0)%nat then Raise ValueError
  else if negb (existsb (fun l => existsb (String.eqb l) y_true) labels)
  then Raise ValueError
  else Ok (map (fun i => map (fun j => count_cell labels i j y_true y_pred)
                             (seq 0 (length labels)))
               (seq 0 (length labels))).

(** Row of a class in the dict that [classification_report] returns. *)
Fixpoint lookup (c : string) (rows : list (string * report_row)) : option report_row :=
  match rows with
  | [] => None
  | (k, r) :: rest => if String.eqb k c then Some r else lookup c rest
  end.

End Sk.

(** ** src/eval/metrics.py *)

Module Metrics.

Local Open Scope Q_scope.

Record EvalResult : Type :=
  { report : Sk.report;
    confusion : list (list nat);
    ece : Q;
    brier : Q }.

(** The loop of [multiclass_brier]: [i] is the index that [enumerate]
    pairs with the head of [classes]. *)
Fixpoint brier_scores (y_true : list string) (probas : Np.ndarray2)
         (i : nat) (classes : list string) : outcome (list Q) :=
  match classes with
  | [] => Ok []
  | c :: rest =>
      let y_bin := map Np.int_of_bool (Np.eq_scalar y_true c) in
      col <- Np.column probas i ;;
      s <- Sk.brier_score_loss y_bin col ;;
      scores <- brier_scores y_true probas (S i) rest ;;
      Ok (s :: scores)
  end.

Definition multiclass_brier (y_true : list string) (probas : Np.ndarray2)
           (classes : list string) : outcome Q :=
  scores <- brier_scores y_true probas 0 classes ;;
  Np.mean scores.

(** [(confidences > lo) & (confidences <= hi)] *)
Definition bin_mask (lo hi : Q) (confidences : list Q) : list bool :=
  map (fun c => Np.Qltb lo c && Qle_bool c hi) confidences.

(** One iteration of the loop over the bins. *)
Definition ece_step (confidences : list Q) (correct : list bool) (bins : nat)
           (ece : Q) (i : nat) : outcome Q :=
  let lo := Np.linspace01 bins i in
  let hi := Np.linspace01 bins (S i) in
  let mask := bin_mask lo hi confidences in
  if negb (Np.any mask) then Ok ece
  else
    hits <- Np.compress mask correct ;;
    acc <- Np.mean_bool hits ;;
    cs <- Np.compress mask confidences ;;
    conf <- Np.mean cs ;;
    w <- Np.mean_bool mask ;;
    Ok (ece + w * Qabs (acc - conf)).

Fixpoint ece_loop (confidences : list Q) (correct : list bool) (bins : nat)
         (range : list nat) (ece : Q) : outcome Q :=
  match range with
  | [] => Ok ece
  | i :: rest =>
      ece' <- ece_step confidences correct bins ece i ;;
      ece_loop confidences correct bins rest ece'
  end.

(** [bins] is a count: a negative [bins] (where [np.linspace] raises) is
    outside the model. *)
Definition expected_calibration_error (y_true : list string) (probas : Np.ndarray2)
           (classes : list string) (bins : nat) : outcome Q :=
  confidences <- Np.max_axis1 probas ;;
  predictions <- Np.argmax_axis1 probas ;;
  picked <- Np.take classes predictions ;;
  correct <- Np.eq_arrays picked y_true ;;
  ece_loop confidences correct bins (seq 0 bins) 0.

Definition default_bins : nat := 15.

Definition evaluate (y_true : list string) (probas : Np.ndarray2)
           (classes : list string) : outcome EvalResult :=
  idx <- Np.argmax_axis1 probas ;;
  preds <- Np.take classes idx ;;
  rpt <- Sk.classification_report y_true preds ;;
  cm <- Sk.confusion_matrix y_true preds classes ;;
  b <- multiclass_brier y_true probas classes ;;
  e <- expected_calibration_error y_true probas classes default_bins ;;
  Ok {| report := rpt; confusion := cm; ece := e; brier := b |}.

End Metrics.

(** ** src/train/run_cv.py *)

Module RunCV.

Local Open Scope Q_scope.

(** *** The random source

    [np.random.default_rng] builds a generator whose whole state comes from
    the seed it is given; without a seed it asks the operating system for
    entropy.  The bit generator itself (PCG64) is a parameter: a state, the
    state a seed expands to, and a draw below a bound. *)

Record BitGenerator : Type :=
  { gen_state : Type;
    seed_state : Z -> gen_state;
    integers : gen_state -> nat -> nat * gen_state;
    integers_bound : forall s n, (0 < n)%nat -> (fst (integers s n) < n)%nat }.

(** What lies outside the arguments of a call: the entropy the operating
    system would hand out, and how much of it has been consumed. *)
Record World : Type := { os_entropy : nat -> Z; consumed : nat }.

Definition default_rng (G : BitGenerator) (seed : option Z) (w : World)
  : outcome (gen_state G) * World :=
  match seed with
  | Some s =>
      if (s <? 0)%Z then (Raise ValueError, w) else (Ok (seed_state G s), w)
  | None =>
      (Ok (seed_state G (Z.abs (os_entropy w (consumed w)))),
       {| os_entropy := os_entropy w; consumed := S (consumed w) |})
  end.

(** [size] draws below [bound], one after the other. *)
Fixpoint draw (G : BitGenerator) (s : gen_state G) (bound size : nat)
  : list nat * gen_state G :=
  match size with
  | O => ([], s)
  | S size' =>
      let (i, s1) := integers G s bound in
      let (rest, s2) := draw G s1 bound size' in
      (i :: rest, s2)
  end.

(** [rng.choice(values, size=size, replace=True)]; the call in
    [bootstrap_ci] asks for [len(values)] draws, so an empty population
    means no draw and an empty sample. *)
Definition choice (G : BitGenerator) (s : gen_state G) (values : list Q) (size : nat)
  : list Q * gen_state G :=
  let (idx, s') := draw G s (length values) size in
  (map (fun i => nth i values 0) idx, s').

(** *** np.percentile, linear interpolation *)

Fixpoint insert_sorted (x : Q) (l : list Q) : list Q :=
  match l with
  | [] => [x]
  | y :: rest => if Qle_bool x y then x :: l else y :: insert_sorted x rest
  end.

Definition sort (l : list Q) : list Q := fold_right insert_sorted [] l.

(** Value at the virtual index [h = (n - 1) * q / 100] of the sorted
    data: the entry below, plus the fractional part of [h] times the step
    to the entry above. *)
Definition interpolate (sorted : list Q) (q : Q) : Q :=
  let n := length sorted in
  let h := Np.of_nat (n - 1) * q / 100 in
  let j := Z.to_nat (Qfloor h) in
  let g := h - inject_Z (Qfloor h) in
  let below := nth j sorted 0 in
  let above := nth (Nat.min (S j) (n - 1)) sorted 0 in
  below + (above - below) * g.

(** [np.percentile(a, q)]: [q] outside [0, 100] is rejected before the
    data is looked at; with no data the lookup of the entries to blend
    raises an [IndexError]; a [nan] among the data gives [nan]. *)
Definition percentile (a : list (outcome Q)) (q : Q) : outcome Q :=
  if Np.Qltb q 0 || Np.Qltb 100 q then Raise ValueError
  else
    match a with
    | [] => Raise IndexError
    | _ :: _ => xs <- sequence a ;; Ok (interpolate (sort xs) q)
    end.

(** *** bootstrap_ci *)

(** The loop [for _ in range(n_boot)]: each turn draws a resample and
    appends its mean. *)
Fixpoint resample_means (G : BitGenerator) (rng : gen_state G) (values : list Q)
         (n_boot : nat) : list (outcome Q) :=
  match n_boot with
  | O => []
  | S n' =>
      let (sample, rng') := choice G rng values (length values) in
      Np.mean sample :: resample_means G rng' values n'
  end.

Definition bootstrap_ci (G : BitGenerator) (values : list Q) (n_boot : nat)
           (alpha : Q) (seed : Z) (w : World) : outcome (Q * Q) * World :=
  let (r, w') := default_rng G (Some seed) w in
  (rng <- r ;;
   let boots := resample_means G rng values n_boot in
   lo <- percentile boots (100 * (alpha / 2)) ;;
   hi <- percentile boots (100 * (1 - alpha / 2)) ;;
   Ok (lo, hi),
   w').

(** *** The fold splitter used by [main]

    [StratifiedKFold(n_splits=k, shuffle=True, random_state=42).split(X, y)],
    from scikit-learn: the checks it makes before any fold is produced, and
    the number of samples of each class it gives to each test fold.  Which
    samples those are depends on the shuffle and is not modelled. *)

(** Labels in order of first appearance. *)
Fixpoint seen (y : list string) : list string :=
  match y with
  | [] => []
  | l :: rest => l :: filter (fun z => negb (String.eqb z l)) (seen rest)
  end.

Definition y_counts (y : list string) : list nat :=
  map (fun c => count_occ string_dec y c) (seen y).

Inductive validation : Type :=
| Silent    (* every class has at least [n_splits] members *)
| Warned.   (* "The least populated class in y has only ... members" *)

Definition check_split (y : list string) (n_splits : nat) : outcome validation :=
  if (n_splits <=? 1)%nat then Raise ValueError
  else if (length y <? n_splits)%nat then Raise ValueError
  else if forallb (fun c => (c <? n_splits)%nat) (y_counts y) then Raise ValueError
  else if existsb (fun c => (c <? n_splits)%nat) (y_counts y) then Ok Warned
  else Ok Silent.

(** [y_order = np.sort(y_encoded)]: the class indices, each repeated as
    often as the class occurs. *)
Definition y_order (y : list string) : list nat :=
  flat_map (fun ic => repeat (fst ic) (snd ic))
           (combine (seq 0 (length (y_counts y))) (y_counts y)).

(** [l[i::k]] *)
Definition stride (k i : nat) (l : list nat) : list nat :=
  map snd (filter (fun p => (fst p mod k =? i)%nat) (combine (seq 0 (length l)) l)).

(** [allocation[i][c]]: members of class [c] in test fold [i]. *)
Definition allocation (y : list string) (n_splits : nat) : list (list nat) :=
  map (fun i => map (fun c => count_occ Nat.eq_dec (stride n_splits i (y_order y)) c)
                    (seq 0 (length (y_counts y))))
      (seq 0 n_splits).

Definition split_plan (y : list string) (n_splits : nat)
  : outcome (validation * list (list nat)) :=
  v <- check_split y n_splits ;;
  Ok (v, allocation y n_splits).

End RunCV.

(** ** Notions the specification uses *)

Module Spec.

Local Open Scope Q_scope.

(** [i] is the position of the first maximum of [r]: nothing in [r] is
    larger, and everything before [i] is strictly smaller. *)
Definition first_argmax (r : list Q) (i : nat) : Prop :=
  (i < length r)%nat /\
  (forall j, (j < length r)%nat -> nth j r 0 <= nth i r 0) /\
  (forall j, (j < i)%nat -> nth j r 0 < nth i r 0).

(** [preds] holds, for every row of [probas], the class found in
    [classes] at the position of the first maximum of the row. *)
Definition predicted_by_argmax (probas : Np.ndarray2) (classes preds : list string) : Prop :=
  length preds = Np.nrows probas /\
  forall j, (j < Np.nrows probas)%nat ->
    exists i, first_argmax (nth j (Np.rows probas) []) i /\
              nth_error classes i = Some (nth j preds EmptyString).

(** Entry of row [j], column [i]. *)
Definition entry (probas : Np.ndarray2) (j i : nat) : Q :=
  nth i (nth j (Np.rows probas) []) 0.

(** The binary indicator of class [c] on sample [j]. *)
Definition indicator (y_true : list string) (j : nat) (c : string) : Q :=
  if String.eqb (nth j y_true EmptyString) c then 1 else 0.

(** Mean squared error between the indicator of class [c] and column [i]. *)
Definition class_mse (y_true : list string) (probas : Np.ndarray2) (i : nat) (c : string) : Q :=
  Np.sum (map (fun j => (indicator y_true j c - entry probas j i)
                        * (indicator y_true j c - entry probas j i))
              (seq 0 (Np.nrows probas)))
  / Np.of_nat (Np.nrows probas).

(** Mean over the classes of the per-class scores. *)
Definition brier_formula (y_true : list string) (probas : Np.ndarray2)
           (classes : list string) : Q :=
  Np.sum (map (fun i => class_mse y_true probas i (nth i classes EmptyString))
              (seq 0 (length classes)))
  / Np.of_nat (length classes).

(** Every row is a point of the probability simplex. *)
Definition simplex (probas : Np.ndarray2) : Prop :=
  Forall (fun r => Forall (fun p => 0 <= p) r /\ Np.sum r == 1) (Np.rows probas).

(** [r] is 1 at position [i] and 0 elsewhere. *)
Definition one_hot_at (r : list Q) (i : nat) : Prop :=
  nth i r 0 == 1 /\
  forall k, (k < length r)%nat -> k <> i -> nth k r 0 == 0.

(** Every row is one-hot, its 1 in the column of the sample's true label. *)
Definition one_hot_on_truth (y_true : list string) (probas : Np.ndarray2)
           (classes : list string) : Prop :=
  forall j, (j < Np.nrows probas)%nat ->
    exists i, nth_error classes i = Some (nth j y_true EmptyString) /\
              one_hot_at (nth j (Np.rows probas) []) i.

(** Membership of a confidence in bin [i] of [bins]: the half-open
    interval from edge [i], excluded, to edge [i + 1], included, the edges
    being those of [np.linspace(0.0, 1.0, bins + 1)]. *)
Definition in_bin (bins i : nat) (c : Q) : bool :=
  Np.Qltb (Np.linspace01 bins i) c && Qle_bool c (Np.linspace01 bins (S i)).

(** Where the edges would be were the bins of exactly one width. *)
Definition even_edge (bins i : nat) : Q := Np.of_nat i / Np.of_nat bins.

(** Membership in bin [i] of the partition into bins of exactly one
    width. *)
Definition in_even_bin (bins i : nat) (c : Q) : bool :=
  Np.Qltb (even_edge bins i) c && Qle_bool c (even_edge bins (S i)).


(** The samples, as (confidence, correctness) pairs, that fall in bin [i]. *)
Definition bin_members (bins i : nat) (confidences : list Q) (correct : list bool)
  : list (Q * bool) :=
  filter (fun s => in_bin bins i (fst s)) (combine confidences correct).

(** What bin [i] adds to the calibration error: nothing when it is empty,
    otherwise the gap between mean correctness and mean confidence,
    weighted by the share of the samples the bin holds. *)
Definition bin_term (bins i : nat) (confidences : list Q) (correct : list bool) : Q :=
  let members := bin_members bins i confidences correct in
  let pop := length members in
  if (pop =? 0)%nat then 0
  else Np.of_nat pop / Np.of_nat (length confidences)
       * Qabs (Np.of_nat (Np.count_true (map snd members)) / Np.of_nat pop
               - Np.sum (map fst members) / Np.of_nat pop).

Definition ece_formula (bins : nat) (confidences : list Q) (correct : list bool) : Q :=
  Np.sum (map (fun i => bin_term bins i confidences correct) (seq 0 bins)).

(** The binned sum over the partition into bins of exactly one width. *)
Definition even_bin_members (bins i : nat) (confidences : list Q) (correct : list bool)
  : list (Q * bool) :=
  filter (fun s => in_even_bin bins i (fst s)) (combine confidences correct).

Definition even_bin_term (bins i : nat) (confidences : list Q) (correct : list bool) : Q :=
  let members := even_bin_members bins i confidences correct in
  let pop := length members in
  if (pop =? 0)%nat then 0
  else Np.of_nat pop / Np.of_nat (length confidences)
       * Qabs (Np.of_nat (Np.count_true (map snd members)) / Np.of_nat pop
               - Np.sum (map fst members) / Np.of_nat pop).

Definition even_formula (bins : nat) (confidences : list Q) (correct : list bool) : Q :=
  Np.sum (map (fun i => even_bin_term bins i confidences correct) (seq 0 bins)).


(** The double nearest to 0.8. *)
Definition double_0_8 : Q := 3602879701896397 # 4503599627370496.

(** Two samples whose confidences are the doubles nearest to 0.8 and
    0.85. *)
Definition edge_probas : Np.ndarray2 :=
  {| Np.ncols := 2;
     Np.rows := [[double_0_8; 3602879701896397 # 18014398509481984];
                 [7656119366529843 # 9007199254740992;
                  5404319552844595 # 36028797018963968]] |}.

(** Confidences in one of the first [m] bins: above 0, at most edge [m]. *)
Definition in_first_bins (bins m : nat) (c : Q) : bool :=
  Np.Qltb 0 c && Qle_bool c (Np.linspace01 bins m).

(** Weight of bin [i]: the share of the samples it holds. *)
Definition bin_weight (bins i : nat) (confidences : list Q) : Q :=
  Np.of_nat (length (filter (in_bin bins i) confidences))
  / Np.of_nat (length confidences).

(** The bins that hold at least one sample. *)
Definition nonempty_bins (bins : nat) (confidences : list Q) : list nat :=
  filter (fun i => negb (length (filter (in_bin bins i) confidences) =? 0)%nat)
         (seq 0 bins).

(** Per-sample confidence and correctness, as the specification words
    them. *)
Definition confidences_of (probas : Np.ndarray2) : list Q :=
  map Np.row_max (Np.rows probas).

Definition correct_of (y_true : list string) (probas : Np.ndarray2)
           (classes : list string) : list bool :=
  map (fun ry => String.eqb (nth (Np.row_argmax (fst ry)) classes EmptyString) (snd ry))
      (combine (Np.rows probas) y_true).

(** Sample inputs used to run the definitions. *)
Definition A : string := "A"%string.
Definition B : string := "B"%string.
Definition C : string := "C"%string.

(** Two samples over the classes [A; B]; the first row is a tie. *)
Definition tied_probas : Np.ndarray2 :=
  {| Np.ncols := 2; Np.rows := [[1 # 2; 1 # 2]; [1 # 4; 3 # 4]] |}.

(** The failures numpy and scikit-learn raise on badly shaped input. *)
Definition shape_fault (e : fault) : Prop := e = IndexError \/ e = ValueError.

(** One sample, one class, but two columns. *)
Definition wide_probas : Np.ndarray2 :=
  {| Np.ncols := 2; Np.rows := [[1; 0]] |}.

(** Two samples, labelled A and B, predicted with certainty, over the
    class list [A; B; C]: class C neither occurs nor is predicted. *)
Definition certain_probas : Np.ndarray2 :=
  {| Np.ncols := 3; Np.rows := [[1; 0; 0]; [0; 1; 0]] |}.

(** The second scenario of the specification. *)
Definition scenario_probas : Np.ndarray2 :=
  {| Np.ncols := 2;
     Np.rows := [[9 # 10; 1 # 10]; [8 # 10; 2 # 10]; [2 # 10; 8 # 10]; [1 # 10; 9 # 10]] |}.

(** A small bit generator to run [bootstrap_ci] with: a 64-bit linear
    congruential step, reduced to the bound.  It stands in for PCG64 in
    the examples only; the theorems hold for every generator. *)
Definition lcg_step (s : Z) : Z :=
  ((6364136223846793005 * s + 1442695040888963407) mod 2 ^ 64)%Z.

Definition lcg : RunCV.BitGenerator :=
  {| RunCV.gen_state := Z;
     RunCV.seed_state := fun seed => seed;
     RunCV.integers := fun s n =>
       ((Z.to_nat ((lcg_step s / 2 ^ 33) mod 1024) mod n)%nat, lcg_step s);
     RunCV.integers_bound := fun s n (H : (0 < n)%nat) =>
       Nat.mod_upper_bound (Z.to_nat ((lcg_step s / 2 ^ 33) mod 1024)) n
                           (fun E : n = O => Nat.lt_irrefl O (eq_ind n (fun k => (0 < k)%nat) H O E)) |}.

Definition quiet_world : RunCV.World :=
  {| RunCV.os_entropy := fun _ => 0%Z; RunCV.consumed := 0 |}.

(** [l] is in non-decreasing order. *)
Definition ascending (l : list Q) : Prop :=
  forall i k, (i <= k)%nat -> (k < length l)%nat -> nth i l 0 <= nth k l 0.

(** Five samples of class A and two of class B. *)
Definition imbalanced_labels : list string := [A; A; A; A; A; B; B].

End Spec.

(** ** src/train/run_cv.py: the fold loop and the summary of main

    The part of [main] between the loading of the data and the writing of
    the summary.  What the repository does not hold is a parameter: the
    classifier (its [fit], [predict_proba] and [classes_]) and the way
    scikit-learn's splitter assigns the samples to the folds, once its
    checks ([RunCV.check_split]) have passed. *)

Module CvMain.

Local Open Scope Q_scope.

Record Classifier (F : Type) : Type :=
  { fitted : Type;
    fit : list F -> list string -> outcome fitted;
    predict_proba : fitted -> list F -> outcome Np.ndarray2;
    classes_ : fitted -> list string }.

Arguments fitted {F} _.
Arguments fit {F} _ _ _.
Arguments predict_proba {F} _ _ _.
Arguments classes_ {F} _ _.

(** [a[idx]] with an integer index array. *)
Definition index {A : Type} (a : list A) (idx : list nat) : outcome (list A) :=
  sequence (map (fun i => match nth_error a i with
                          | Some x => Ok x
                          | None => Raise IndexError
                          end) idx).

(** One turn of the loop over the folds: a fresh model is fitted on the
    train part and evaluated on the test part. *)
Definition fold_turn {F : Type} (build : Classifier F) (X : list F) (y : list string)
           (fold : list nat * list nat) : outcome Metrics.EvalResult :=
  let (tr, te) := fold in
  X_tr <- index X tr ;;
  y_tr <- index y tr ;;
  model <- fit build X_tr y_tr ;;
  X_te <- index X te ;;
  probas <- predict_proba build model X_te ;;
  let classes := classes_ build model in
  y_te <- index y te ;;
  Metrics.evaluate y_te probas classes.

(** The loop: the macro-averaged F1 and the report of every fold, in the
    order of the folds. *)
Fixpoint fold_loop {F : Type} (build : Classifier F) (X : list F) (y : list string)
         (folds : list (list nat * list nat)) : outcome (list Q * list Sk.report) :=
  match folds with
  | [] => Ok ([], [])
  | fold :: rest =>
      res <- fold_turn build X y fold ;;
      let macro_f1 := Sk.f1_score (Sk.macro_avg (Metrics.report res)) in
      acc <- fold_loop build X y rest ;;
      Ok (macro_f1 :: fst acc, Metrics.report res :: snd acc)
  end.

Record Summary : Type :=
  { model : string;
    folds : nat;
    macro_f1_mean : Q;
    macro_f1_ci : Q * Q;
    fold_reports : list Sk.report }.

(** From the split to the summary.  [assign] stands for the index arrays
    that [skf.split(X, y)] yields. *)
Definition run {F : Type} (G : RunCV.BitGenerator) (build : Classifier F)
           (assign : list string -> nat -> list (list nat * list nat))
           (name : string) (X : list F) (y : list string) (n_folds : nat)
           (w : RunCV.World) : outcome Summary * RunCV.World :=
  match RunCV.check_split y n_folds with
  | Raise e => (Raise e, w)
  | Ok _ =>
      match fold_loop build X y (assign y n_folds) with
      | Raise e => (Raise e, w)
      | Ok (macro_f1_scores, all_reports) =>
          let (ci, w') := RunCV.bootstrap_ci G macro_f1_scores 2000 (1 # 20) 42 w in
          (lo_hi <- ci ;;
           mean <- Np.mean macro_f1_scores ;;
           Ok {| model := name;
                 folds := n_folds;
                 macro_f1_mean := mean;
                 macro_f1_ci := lo_hi;
                 fold_reports := all_reports |},
           w')
      end
  end.

End CvMain.

(** ** src/data/logs_loader.py: load_logs

    The file is taken as [pd.read_csv] sees it: rows with the columns
    [timestamp], [host], [message] and [category], the timestamp cell
    already run through the date parser ([parse_dates]).  A file that
    does not exist or lacks one of the columns, and missing values, are
    outside the model. *)

Module LogsLoader.

(** A timestamp cell: an instant, or text the date parser could not make
    a date of the column's kind (no date at all, or a date with another
    UTC offset than the rest). *)
Inductive cell : Type :=
| Instant (t : Z)        (* wall-clock time of the stamp, in nanoseconds *)
| Text (s : string).

Record row : Type :=
  { timestamp : cell;
    host : string;
    message : string;
    category : string }.

(** The file: the UTC offset its timestamps are written with ([None] when
    they carry none) and its rows in order. *)
Record csv : Type := { offset : option string; lines : list row }.

(** The type of the timestamp column: datetime, with the time zone of the
    stamps ([None] when they are naive), or plain objects. *)
Inductive dtype : Type :=
| Datetime (tz : option string)
| Object.

(** The table: the type of its timestamp column and its rows in index
    order. *)
Record frame : Type := { stamps : dtype; records : list row }.

Definition is_instant (c : cell) : bool :=
  match c with
  | Instant _ => true
  | Text _ => false
  end.

(** [pd.read_csv(csv_path, parse_dates=["timestamp"])]: the column becomes
    a datetime column when every cell is a date; when one is not, or when
    there is no row, it is returned as it was read, of type object. *)
Definition read_csv (file : csv) : frame :=
  {| stamps := match lines file with
               | [] => Object
               | _ :: _ =>
                   if forallb (fun r => is_instant (timestamp r)) (lines file)
                   then Datetime (offset file)
                   else Object
               end;
     records := lines file |}.

Definition cell_eqb (a b : cell) : bool :=
  match a, b with
  | Instant t, Instant u => (t =? u)%Z
  | Text s, Text v => String.eqb s v
  | _, _ => false
  end.

(** [subset=["timestamp", "host", "message"]] *)
Definition same_key (a b : row) : bool :=
  cell_eqb (timestamp a) (timestamp b) && String.eqb (host a) (host b)
  && String.eqb (message a) (message b).

(** [df.duplicated(subset=...)], [keep="first"]: a row is marked when an
    earlier row has its key. *)
Fixpoint duplicated_from (earlier : list row) (rows : list row) : list bool :=
  match rows with
  | [] => []
  | r :: rest => existsb (same_key r) earlier :: duplicated_from (r :: earlier) rest
  end.

Definition duplicated (rows : list row) : list bool := duplicated_from [] rows.

(** [df.drop_duplicates(subset=...).reset_index(drop=True)]: the rows not
    marked, renumbered from 0 (their position in the list). *)
Definition drop_duplicates (rows : list row) : list row :=
  Np.select (map negb (duplicated rows)) rows.

Definition tz_localize (zone : string) (f : frame) : frame :=
  {| stamps := Datetime (Some zone); records := records f |}.

(** The cleaning of [load_logs], lines 21 to 24: [.dt] exists on a
    datetime column only. *)
Definition clean (df : frame) : outcome frame :=
  match stamps df with
  | Object => Raise AttributeError
  | Datetime tz =>
      let df1 := match tz with
                 | None => tz_localize "UTC" df
                 | Some _ => df
                 end in
      Ok {| stamps := stamps df1; records := drop_duplicates (records df1) |}
  end.

Definition load_logs (file : csv) : outcome frame := clean (read_csv file).

End LogsLoader.

(** ** Notions used by the further properties *)

Module Notions.

Local Open Scope Q_scope.

(** A report row whose three ratios lie in [0, 1]. *)
Definition unit_row (r : Sk.report_row) : Prop :=
  0 <= Sk.precision r <= 1 /\ 0 <= Sk.recall r <= 1 /\ 0 <= Sk.f1_score r <= 1.

(** The key of a log row: the three columns that make a duplicate. *)
Definition key (r : LogsLoader.row) : LogsLoader.cell * string * string :=
  (LogsLoader.timestamp r, LogsLoader.host r, LogsLoader.message r).

(** [l1] is [l2] with some elements left out, the order kept. *)
Inductive sublist {X : Type} : list X -> list X -> Prop :=
| sublist_nil : sublist [] []
| sublist_keep (x : X) (l1 l2 : list X) : sublist l1 l2 -> sublist (x :: l1) (x :: l2)
| sublist_skip (x : X) (l1 l2 : list X) : sublist l1 l2 -> sublist l1 (x :: l2).

(** A small log table: the second row repeats the key of the first with
    another label, the third is a different message. *)
Definition sample_log : LogsLoader.csv :=
  {| LogsLoader.offset := None;
     LogsLoader.lines :=
       [ {| LogsLoader.timestamp := LogsLoader.Instant 0; LogsLoader.host := "h1";
            LogsLoader.message := "disk full"; LogsLoader.category := "Storage" |};
         {| LogsLoader.timestamp := LogsLoader.Instant 0; LogsLoader.host := "h1";
            LogsLoader.message := "disk full"; LogsLoader.category := "Other" |};
         {| LogsLoader.timestamp := LogsLoader.Instant 5; LogsLoader.host := "h1";
            LogsLoader.message := "login failed"; LogsLoader.category := "Security" |} ] |}.

(** A classifier to run the fold loop with: it learns the sorted labels
    of its training part and predicts the first of them with certainty. *)
Definition first_class_classifier : CvMain.Classifier nat :=
  {| CvMain.fitted := list string;
     CvMain.fit := fun _ y_tr => Ok (Sk.unique_labels y_tr []);
     CvMain.predict_proba := fun classes X_te =>
       Ok {| Np.ncols := length classes;
             Np.rows := map (fun _ => match classes with
                                      | [] => []
                                      | _ :: rest => 1 :: map (fun _ => 0) rest
                                      end) X_te |};
     CvMain.classes_ := fun classes => classes |}.

(** Two folds over four samples. *)
Definition two_folds (y : list string) (n_folds : nat) : list (list nat * list nat) :=
  [([1; 3], [0; 2]); ([0; 2], [1; 3])]%nat.

End Notions.

(** * Properties *)

(** ** Outcomes *)

Lemma bind_ok {A B : Type} (c : outcome A) (k : A -> outcome B) (b : B) :
  (x <- c ;; k x) = Ok b -> exists a, c = Ok a /\ k a = Ok b.
Proof.
  destruct c as [a|e]; simpl; intros H; [exists a; split; auto | discriminate].
Qed.

Lemma sequence_ok_length {A : Type} (cs : list (outcome A)) (xs : list A) :
  sequence cs = Ok xs -> length xs = length cs.
Proof.
  revert xs; induction cs as [|c cs IH]; simpl; intros xs H.
  - injection H as <-; reflexivity.
  - apply bind_ok in H as (x & _ & H).
    apply bind_ok in H as (xs' & Hs & H).
    injection H as <-; simpl; f_equal; auto.
Qed.

Lemma sequence_ok_nth {A : Type} (cs : list (outcome A)) (xs : list A) (d : A) (j : nat) :
  sequence cs = Ok xs -> (j < length cs)%nat ->
  nth_error cs j = Some (Ok (nth j xs d)).
Proof.
  revert xs j; induction cs as [|c cs IH]; simpl; intros xs j H Hj; [lia|].
  apply bind_ok in H as (x & Hc & H).
  apply bind_ok in H as (xs' & Hs & H).
  injection H as <-; subst c.
  destruct j as [|j]; simpl; [reflexivity|].
  apply IH; [assumption | lia].
Qed.

Lemma sequence_map_ok {A B : Type} (f : A -> outcome B) (g : A -> B) (l : list A) :
  (forall a, In a l -> f a = Ok (g a)) -> sequence (map f l) = Ok (map g l).
Proof.
  induction l as [|a l IH]; simpl; intros H; [reflexivity|].
  rewrite (H a (or_introl eq_refl)); simpl.
  rewrite IH by (intros; apply H; right; assumption).
  reflexivity.
Qed.

(** ** Comparisons and sums of rationals *)

Section Rationals.

Local Open Scope Q_scope.

Lemma Qltb_lt (a b : Q) : Np.Qltb a b = true <-> a < b.
Proof.
  unfold Np.Qltb; rewrite negb_true_iff.
  split; intros H.
  - apply Qnot_le_lt; intros Hle; apply Qle_bool_iff in Hle; congruence.
  - destruct (Qle_bool b a) eqn:E; [|reflexivity].
    apply Qle_bool_iff in E; exfalso; apply (Qlt_not_le _ _ H E).
Qed.

Lemma Qltb_ge (a b : Q) : Np.Qltb a b = false <-> b <= a.
Proof.
  unfold Np.Qltb; rewrite negb_false_iff; apply Qle_bool_iff.
Qed.

Lemma of_nat_nonneg (n : nat) : 0 <= Np.of_nat n.
Proof.
  unfold Np.of_nat, Qle; simpl; lia.
Qed.

Lemma of_nat_pos (n : nat) : (0 < n)%nat -> 0 < Np.of_nat n.
Proof.
  unfold Np.of_nat, Qlt; simpl; lia.
Qed.

Lemma of_nat_le (n m : nat) : (n <= m)%nat -> Np.of_nat n <= Np.of_nat m.
Proof.
  unfold Np.of_nat, Qle; simpl; lia.
Qed.

Lemma of_nat_S (n : nat) : Np.of_nat (S n) == Np.of_nat n + 1.
Proof.
  unfold Np.of_nat; rewrite Nat2Z.inj_succ, <- Z.add_1_r, inject_Z_plus; reflexivity.
Qed.

Lemma of_nat_plus (n m : nat) : Np.of_nat (n + m) == Np.of_nat n + Np.of_nat m.
Proof.
  unfold Np.of_nat; rewrite Nat2Z.inj_add, inject_Z_plus; reflexivity.
Qed.

Lemma sum_bounds (lo hi : Q) (xs : list Q) :
  Forall (fun x => lo <= x <= hi) xs ->
  Np.of_nat (length xs) * lo <= Np.sum xs <= Np.of_nat (length xs) * hi.
Proof.
  induction 1 as [|x xs [Hl Hh] _ [IHl IHh]].
  - change (Np.of_nat (length (@nil Q))) with 0; change (Np.sum []) with 0; lra.
  - change (Np.sum (x :: xs)) with (x + Np.sum xs).
    cbn [length]; rewrite of_nat_S; lra.
Qed.

Lemma sum_nonneg (xs : list Q) : Forall (fun x => 0 <= x) xs -> 0 <= Np.sum xs.
Proof.
  induction 1 as [|x xs Hx _ IH]; simpl; [lra|].
  fold (Np.sum xs); lra.
Qed.

Lemma sum_zero_iff (xs : list Q) :
  Forall (fun x => 0 <= x) xs ->
  (Np.sum xs == 0 <-> Forall (fun x => x == 0) xs).
Proof.
  induction 1 as [|x xs Hx Hxs IH]; simpl.
  - split; [constructor | reflexivity].
  - fold (Np.sum xs). pose proof (sum_nonneg _ Hxs) as Hs.
    split; intros H.
    + constructor; [lra | apply IH; lra].
    + inversion H as [|? ? H1 H2]; subst. apply IH in H2. lra.
Qed.

Lemma sum_map_ext {A : Type} (f g : A -> Q) (l : list A) :
  (forall a, In a l -> f a == g a) -> Np.sum (map f l) == Np.sum (map g l).
Proof.
  induction l as [|a l IH]; simpl; intros H; [reflexivity|].
  rewrite (H a (or_introl eq_refl)), IH; [reflexivity|].
  intros; apply H; right; assumption.
Qed.

End Rationals.

(** ** Argmax: the first maximum of a row *)

Section Argmax.

Local Open Scope Q_scope.

Lemma argmax_from_inv (xs pre : list Q) (best : Q) (bi : nat) :
  (bi < length pre)%nat ->
  best = nth bi pre 0 ->
  (forall j, (j < length pre)%nat -> nth j pre 0 <= best) ->
  (forall j, (j < bi)%nat -> nth j pre 0 < best) ->
  Spec.first_argmax (pre ++ xs) (Np.argmax_from best bi (length pre) xs) /\
  Np.max_from best xs = nth (Np.argmax_from best bi (length pre) xs) (pre ++ xs) 0.
Proof.
  revert pre best bi; induction xs as [|x rest IH]; intros pre best bi Hbi Hbest Hle Hlt.
  - simpl; rewrite app_nil_r; repeat split; auto.
    intros j Hj; rewrite <- Hbest; auto.
    intros j Hj; rewrite <- Hbest; auto.
  - assert (Hlen : length (pre ++ [x]) = S (length pre))
      by (rewrite length_app; simpl; lia).
    assert (Hnth : forall j, (j < length pre)%nat -> nth j (pre ++ [x]) 0 = nth j pre 0)
      by (intros; apply app_nth1; assumption).
    assert (Hx : nth (length pre) (pre ++ [x]) 0 = x)
      by (rewrite app_nth2, Nat.sub_diag by lia; reflexivity).
    replace (pre ++ x :: rest) with ((pre ++ [x]) ++ rest)
      by (rewrite <- app_assoc; reflexivity).
    simpl; destruct (Np.Qltb best x) eqn:E; rewrite <- Hlen.
    + apply Qltb_lt in E.
      apply IH.
      * lia.
      * symmetry; exact Hx.
      * intros j Hj. rewrite Hlen in Hj.
        destruct (Nat.eq_dec j (length pre)) as [->|Hne].
        -- rewrite Hx; apply Qle_refl.
        -- rewrite Hnth by lia. apply Qlt_le_weak, Qle_lt_trans with best; auto.
           apply Hle; lia.
      * intros j Hj. rewrite Hnth by lia.
        apply Qle_lt_trans with best; auto.
    + apply Qltb_ge in E.
      apply IH.
      * lia.
      * rewrite Hnth; assumption.
      * intros j Hj. rewrite Hlen in Hj.
        destruct (Nat.eq_dec j (length pre)) as [->|Hne].
        -- rewrite Hx; assumption.
        -- rewrite Hnth by lia. apply Hle; lia.
      * intros j Hj. rewrite Hnth by lia. auto.
Qed.

Lemma row_argmax_first (r : list Q) :
  r <> [] ->
  Spec.first_argmax r (Np.row_argmax r) /\ Np.row_max r = nth (Np.row_argmax r) r 0.
Proof.
  destruct r as [|x rest]; [congruence | intros _].
  unfold Np.row_argmax, Np.row_max.
  apply (argmax_from_inv rest [x] x 0%nat); simpl.
  - lia.
  - reflexivity.
  - intros [|j] Hj; [apply Qle_refl | lia].
  - intros j Hj; lia.
Qed.

Lemma first_argmax_unique (r : list Q) (i k : nat) :
  Spec.first_argmax r i -> Spec.first_argmax r k -> i = k.
Proof.
  intros (Hi & Hmi & Hfi) (Hk & Hmk & Hfk).
  destruct (Nat.lt_trichotomy i k) as [H | [H | H]]; [exfalso | assumption | exfalso].
  - specialize (Hfk i H). specialize (Hmi k Hk). lra.
  - specialize (Hfi k H). specialize (Hmk i Hi). lra.
Qed.

End Argmax.

(** ** Predicted labels *)

Section Predictions.

Local Open Scope Q_scope.

Lemma argmax_axis1_ok (P : Np.ndarray2) (idx : list nat) :
  Np.argmax_axis1 P = Ok idx ->
  Np.ncols P <> O /\ idx = map Np.row_argmax (Np.rows P).
Proof.
  unfold Np.argmax_axis1.
  destruct (Np.ncols P =? 0)%nat eqn:E; [discriminate|].
  intros H; injection H as <-.
  apply Nat.eqb_neq in E; auto.
Qed.

Lemma max_axis1_ok (P : Np.ndarray2) (cs : list Q) :
  Np.max_axis1 P = Ok cs ->
  Np.ncols P <> O /\ cs = map Np.row_max (Np.rows P).
Proof.
  unfold Np.max_axis1.
  destruct (Np.ncols P =? 0)%nat eqn:E; [discriminate|].
  intros H; injection H as <-.
  apply Nat.eqb_neq in E; auto.
Qed.

Lemma well_shaped_row (P : Np.ndarray2) (j : nat) :
  Np.well_shaped P -> (j < Np.nrows P)%nat ->
  length (nth j (Np.rows P) []) = Np.ncols P.
Proof.
  unfold Np.well_shaped, Np.nrows; intros H Hj.
  rewrite Forall_forall in H; apply H, nth_In; assumption.
Qed.

Lemma take_argmax_predicts (P : Np.ndarray2) (classes preds : list string) (idx : list nat) :
  Np.well_shaped P ->
  Np.argmax_axis1 P = Ok idx ->
  Np.take classes idx = Ok preds ->
  Spec.predicted_by_argmax P classes preds.
Proof.
  intros Hwf Hidx Htake.
  apply argmax_axis1_ok in Hidx as (Hk & ->).
  unfold Np.take in Htake.
  pose proof (sequence_ok_length _ _ Htake) as Hlen.
  rewrite !length_map in Hlen.
  split; [exact Hlen|].
  intros j Hj.
  exists (Np.row_argmax (nth j (Np.rows P) [])).
  split.
  - apply row_argmax_first.
    intros Hnil. pose proof (well_shaped_row P j Hwf Hj) as Hl.
    rewrite Hnil in Hl; simpl in Hl; congruence.
  - pose proof (sequence_ok_nth _ _ EmptyString j Htake) as Hn.
    rewrite !length_map in Hn. specialize (Hn Hj).
    rewrite map_map in Hn.
    rewrite nth_error_map in Hn.
    unfold Np.nrows in Hj.
    rewrite (nth_error_nth' _ [] Hj) in Hn. simpl in Hn.
    destruct (nth_error classes (Np.row_argmax (nth j (Np.rows P) []))) as [c|];
      [injection Hn as ->; reflexivity | discriminate].
Qed.

End Predictions.

Section PredictedLabel.

Local Open Scope Q_scope.

(** C9.  Whenever [evaluate] returns a result, its report and confusion
    matrix are those of a label array [preds] that holds, for every row of
    [probas], the class at the first maximum of the row (no entry of the
    row is larger, every earlier entry is strictly smaller: ties go to the
    lowest class index); and whenever [expected_calibration_error] returns,
    its correctness array is the comparison of that same [preds] with
    [y_true]. *)
Theorem predicted_label_is_first_argmax (y_true : list string) (probas : Np.ndarray2)
        (classes : list string) :
  Np.well_shaped probas ->
  (forall res, Metrics.evaluate y_true probas classes = Ok res ->
     exists preds,
       Spec.predicted_by_argmax probas classes preds /\
       Sk.classification_report y_true preds = Ok (Metrics.report res) /\
       Sk.confusion_matrix y_true preds classes = Ok (Metrics.confusion res)) /\
  (forall bins e, Metrics.expected_calibration_error y_true probas classes bins = Ok e ->
     exists preds correct,
       Spec.predicted_by_argmax probas classes preds /\
       Np.eq_arrays preds y_true = Ok correct /\
       Metrics.ece_loop (map Np.row_max (Np.rows probas)) correct bins (seq 0 bins) 0 = Ok e).
Proof.
  intros Hwf; split.
  - intros res H. unfold Metrics.evaluate in H.
    apply bind_ok in H as (idx & Hidx & H).
    apply bind_ok in H as (preds & Hpreds & H).
    apply bind_ok in H as (rpt & Hrpt & H).
    apply bind_ok in H as (cm & Hcm & H).
    apply bind_ok in H as (b & Hb & H).
    apply bind_ok in H as (e & He & H).
    injection H as <-. simpl.
    exists preds; repeat split; auto.
    + eapply take_argmax_predicts; eauto.
    + eapply take_argmax_predicts; eauto.
  - intros bins e H. unfold Metrics.expected_calibration_error in H.
    apply bind_ok in H as (confs & Hconfs & H).
    apply bind_ok in H as (idx & Hidx & H).
    apply bind_ok in H as (preds & Hpreds & H).
    apply bind_ok in H as (correct & Hcorrect & H).
    apply max_axis1_ok in Hconfs as (_ & ->).
    exists preds, correct; repeat split; auto.
    + eapply take_argmax_predicts; eauto.
    + eapply take_argmax_predicts; eauto.
Qed.

Lemma predicted_label_is_first_argmax_witness :
  Np.well_shaped Spec.tied_probas /\
  (exists res, Metrics.evaluate [Spec.A; Spec.B] Spec.tied_probas [Spec.A; Spec.B] = Ok res) /\
  ((forall res, Metrics.evaluate [Spec.A; Spec.B] Spec.tied_probas [Spec.A; Spec.B] = Ok res ->
     exists preds,
       Spec.predicted_by_argmax Spec.tied_probas [Spec.A; Spec.B] preds /\
       Sk.classification_report [Spec.A; Spec.B] preds = Ok (Metrics.report res) /\
       Sk.confusion_matrix [Spec.A; Spec.B] preds [Spec.A; Spec.B] = Ok (Metrics.confusion res)) /\
   (forall bins e,
     Metrics.expected_calibration_error [Spec.A; Spec.B] Spec.tied_probas [Spec.A; Spec.B] bins = Ok e ->
     exists preds correct,
       Spec.predicted_by_argmax Spec.tied_probas [Spec.A; Spec.B] preds /\
       Np.eq_arrays preds [Spec.A; Spec.B] = Ok correct /\
       Metrics.ece_loop (map Np.row_max (Np.rows Spec.tied_probas)) correct bins (seq 0 bins) 0 = Ok e)).
Proof.
  split; [repeat constructor|].
  split; [eexists; vm_compute; reflexivity|].
  apply (predicted_label_is_first_argmax [Spec.A; Spec.B] Spec.tied_probas [Spec.A; Spec.B]).
  repeat constructor.
Defined.

(** On the tied row the prediction is the first class. *)
Example tie_goes_to_first_class :
  (idx <- Np.argmax_axis1 Spec.tied_probas ;; Np.take [Spec.A; Spec.B] idx)
  = Ok [Spec.A; Spec.B].
Proof. reflexivity. Qed.

End PredictedLabel.

(** ** Multiclass Brier score *)

Section Brier.

Local Open Scope Q_scope.

Lemma div_nonneg (x d : Q) : 0 <= x -> 0 < d -> 0 <= x / d.
Proof.
  intros Hx Hd; apply Qle_shift_div_l; [assumption | lra].
Qed.

Lemma div_le_1 (x d : Q) : x <= d -> 0 < d -> x / d <= 1.
Proof.
  intros Hx Hd; apply Qle_shift_div_r; [assumption | lra].
Qed.

Lemma div_zero_iff (x d : Q) : 0 < d -> (x / d == 0 <-> x == 0).
Proof.
  intros Hd; split; intros H.
  - assert (E : x == x / d * d) by (field; lra).
    rewrite E, H; ring.
  - rewrite H; field; lra.
Qed.

Lemma combine_seq {X Y : Type} (dx : X) (dy : Y) (l1 : list X) (l2 : list Y) :
  length l1 = length l2 ->
  combine l1 l2 = map (fun j => (nth j l1 dx, nth j l2 dy)) (seq 0 (length l1)).
Proof.
  revert l2; induction l1 as [|x l1 IH]; intros [|y l2] H; simpl in *; try discriminate;
    [reflexivity|].
  f_equal. rewrite <- seq_shift, map_map. apply IH. lia.
Qed.

Lemma Forall_seq (n : nat) (Pr : nat -> Prop) :
  Forall Pr (seq 0 n) <-> forall j, (j < n)%nat -> Pr j.
Proof.
  rewrite Forall_forall; split; intros H j Hj.
  - apply H, in_seq; lia.
  - apply in_seq in Hj; apply H; lia.
Qed.

Lemma Forall_map_seq (n : nat) (f : nat -> Q) (Pr : Q -> Prop) :
  Forall Pr (map f (seq 0 n)) <-> forall j, (j < n)%nat -> Pr (f j).
Proof.
  rewrite Forall_map; apply Forall_seq.
Qed.

Lemma entry_le_sum (r : list Q) (x : Q) :
  Forall (fun p => 0 <= p) r -> In x r -> x <= Np.sum r.
Proof.
  induction 1 as [|p r Hp Hr IH]; simpl; intros Hin; [contradiction|].
  fold (Np.sum r). pose proof (sum_nonneg _ Hr).
  destruct Hin as [->|Hin]; [lra | specialize (IH Hin); lra].
Qed.

(** Under the precondition every entry is a probability. *)
Lemma simplex_entry (P : Np.ndarray2) (j i : nat) :
  Np.well_shaped P -> Spec.simplex P ->
  (j < Np.nrows P)%nat -> (i < Np.ncols P)%nat ->
  0 <= Spec.entry P j i <= 1.
Proof.
  intros Hwf Hs Hj Hi.
  pose proof (well_shaped_row P j Hwf Hj) as Hlen.
  unfold Spec.simplex in Hs; rewrite Forall_forall in Hs.
  destruct (Hs (nth j (Np.rows P) [])) as [Hnn Hsum]; [apply nth_In; exact Hj|].
  assert (Hin : In (Spec.entry P j i) (nth j (Np.rows P) []))
    by (apply nth_In; lia).
  split.
  - rewrite Forall_forall in Hnn; auto.
  - rewrite <- Hsum; apply entry_le_sum; auto.
Qed.

Lemma simplex_ncols_pos (P : Np.ndarray2) :
  Np.well_shaped P -> Spec.simplex P -> (0 < Np.nrows P)%nat -> (0 < Np.ncols P)%nat.
Proof.
  intros Hwf Hs Hn.
  pose proof (well_shaped_row P 0 Hwf Hn) as Hlen.
  unfold Spec.simplex in Hs; rewrite Forall_forall in Hs.
  destruct (Hs (nth 0 (Np.rows P) [])) as [_ Hsum]; [apply nth_In; exact Hn|].
  destruct (nth 0 (Np.rows P) []) as [|x r]; simpl in *; [|lia].
  exfalso; revert Hsum; unfold Qeq; simpl; lia.
Qed.

Lemma nth_map_default {X Y : Type} (f : X -> Y) (l : list X) (dx : X) (dy : Y) (j : nat) :
  (j < length l)%nat -> nth j (map f l) dy = f (nth j l dx).
Proof.
  intros Hj. rewrite (nth_indep _ dy (f dx)) by (rewrite length_map; exact Hj).
  apply map_nth.
Qed.

Lemma sum_nth_ext (l : list Q) (f : nat -> Q) :
  (forall k, (k < length l)%nat -> nth k l 0 == f k) ->
  Np.sum l == Np.sum (map f (seq 0 (length l))).
Proof.
  revert f; induction l as [|x l IH]; intros f H; [reflexivity|].
  cbn [length seq map]. change (Np.sum (x :: l)) with (x + Np.sum l).
  change (Np.sum (f 0%nat :: map f (seq 1 (length l))))
    with (f 0%nat + Np.sum (map f (seq 1 (length l)))).
  rewrite <- seq_shift, map_map.
  rewrite <- (IH (fun k => f (S k))).
  - rewrite <- (H 0%nat) by (simpl; lia). reflexivity.
  - intros k Hk. apply (H (S k)). simpl; lia.
Qed.

Lemma probabilities_accepted (p : list Q) :
  Forall (fun x => 0 <= x <= 1) p ->
  existsb (fun x => Np.Qltb 1 x || Np.Qltb x 0) p = false.
Proof.
  induction 1 as [|x p [H0 H1] _ IH]; simpl; [reflexivity|].
  rewrite IH, orb_false_r.
  apply orb_false_iff; split; apply Qltb_ge; assumption.
Qed.

Lemma brier_score_loss_ok (y_bin : list Z) (p : list Q) :
  length y_bin = length p -> (0 < length p)%nat ->
  Forall (fun x => 0 <= x <= 1) p ->
  Sk.brier_score_loss y_bin p
  = Ok (Np.sum (map (fun yp => (inject_Z (fst yp) - snd yp) * (inject_Z (fst yp) - snd yp))
                    (combine y_bin p))
        / Np.of_nat (length p)).
Proof.
  intros Hlen Hpos Hp. unfold Sk.brier_score_loss.
  rewrite Hlen, Nat.eqb_refl; simpl.
  destruct (length p =? 0)%nat eqn:E; [apply Nat.eqb_eq in E; lia|].
  rewrite (probabilities_accepted _ Hp).
  destruct y_bin as [|y0 ys], p as [|p0 ps]; simpl in *; try lia.
  unfold Np.mean. cbn [length]. rewrite length_map, length_combine.
  replace (Nat.min (length ys) (length ps)) with (length ps) by lia.
  reflexivity.
Qed.

(** The score that the loop appends for class [c] and column [i]. *)
Lemma class_score (y_true : list string) (P : Np.ndarray2) (i : nat) (c : string) :
  Np.well_shaped P -> Spec.simplex P ->
  length y_true = Np.nrows P -> (0 < Np.nrows P)%nat -> (i < Np.ncols P)%nat ->
  exists s,
    (col <- Np.column P i ;;
     Sk.brier_score_loss (map Np.int_of_bool (Np.eq_scalar y_true c)) col) = Ok s /\
    s == Spec.class_mse y_true P i c.
Proof.
  intros Hwf Hs Hlen Hn Hi.
  unfold Np.column. apply Nat.ltb_lt in Hi as Hi'. rewrite Hi'. simpl.
  set (col := map (fun r => nth i r 0) (Np.rows P)).
  set (y_bin := map Np.int_of_bool (Np.eq_scalar y_true c)).
  assert (Hcol : length col = Np.nrows P) by (unfold col; rewrite length_map; reflexivity).
  assert (Hbin : length y_bin = Np.nrows P)
    by (unfold y_bin, Np.eq_scalar; rewrite !length_map; exact Hlen).
  assert (Hentry : forall j, (j < Np.nrows P)%nat -> nth j col 0 = Spec.entry P j i).
  { intros j Hj. unfold col, Spec.entry.
    apply (nth_map_default (fun r => nth i r 0) (Np.rows P) [] 0 j Hj). }
  assert (Hind : forall j, (j < Np.nrows P)%nat ->
                   inject_Z (nth j y_bin 0%Z) = Spec.indicator y_true j c).
  { intros j Hj. unfold y_bin, Np.eq_scalar, Spec.indicator.
    rewrite map_map.
    rewrite (nth_map_default (fun l => Np.int_of_bool (String.eqb l c)) y_true EmptyString 0%Z j)
      by lia.
    destruct (String.eqb (nth j y_true EmptyString) c); reflexivity. }
  rewrite brier_score_loss_ok.
  - eexists; split; [reflexivity|].
    unfold Spec.class_mse. rewrite Hcol.
    rewrite (combine_seq 0%Z 0 y_bin col) by lia.
    rewrite map_map, Hbin. cbn [fst snd].
    apply Qdiv_comp; [|reflexivity].
    apply sum_map_ext. intros j Hj. apply in_seq in Hj.
    rewrite Hentry, Hind by lia. reflexivity.
  - lia.
  - lia.
  - apply Forall_forall. intros x Hx.
    destruct (In_nth _ _ 0 Hx) as (j & Hj & <-).
    rewrite Hcol in Hj. rewrite Hentry by exact Hj.
    apply simplex_entry; assumption.
Qed.

Lemma brier_scores_ok (y_true : list string) (P : Np.ndarray2) (classes : list string) :
  Np.well_shaped P -> Spec.simplex P ->
  length y_true = Np.nrows P -> (0 < Np.nrows P)%nat ->
  forall i, (i + length classes <= Np.ncols P)%nat ->
  exists scores,
    Metrics.brier_scores y_true P i classes = Ok scores /\
    length scores = length classes /\
    forall k, (k < length classes)%nat ->
      nth k scores 0 == Spec.class_mse y_true P (i + k) (nth k classes EmptyString).
Proof.
  intros Hwf Hs Hlen Hn.
  induction classes as [|c rest IH]; intros i Hi.
  - exists []; simpl; repeat split; auto. intros; lia.
  - cbn [length] in Hi.
    destruct (class_score y_true P i c Hwf Hs Hlen Hn) as (s & Hrun & Hval); [lia|].
    destruct (IH (S i)) as (scores & Hrest & Hl & Hnth); [lia|].
    exists (s :: scores).
    cbn [Metrics.brier_scores].
    unfold Np.column in *.
    destruct (i <? Np.ncols P)%nat; [|discriminate].
    cbn [bind] in *. rewrite Hrun. cbn [bind]. rewrite Hrest. cbn [bind].
    repeat split; [simpl; lia|].
    intros [|k] Hk.
    + rewrite Nat.add_0_r. exact Hval.
    + cbn [nth]. rewrite Hnth by (simpl in Hk; lia).
      replace (S i + k)%nat with (i + S k)%nat by lia. reflexivity.
Qed.

Lemma squared_error_bounds (a p : Q) :
  a == 0 \/ a == 1 -> 0 <= p <= 1 -> 0 <= (a - p) * (a - p) <= 1.
Proof.
  intros [Ha|Ha] [H0 H1]; split; nra.
Qed.

Lemma squared_error_zero (a p : Q) : (a - p) * (a - p) == 0 <-> p == a.
Proof.
  split; intros H; [nra | rewrite H; ring].
Qed.

Lemma indicator_cases (y_true : list string) (j : nat) (c : string) :
  Spec.indicator y_true j c == 0 \/ Spec.indicator y_true j c == 1.
Proof.
  unfold Spec.indicator; destruct (String.eqb _ c); [right | left]; reflexivity.
Qed.

Lemma sum_map_seq_bounds (n : nat) (f : nat -> Q) :
  (forall j, (j < n)%nat -> 0 <= f j <= 1) ->
  0 <= Np.sum (map f (seq 0 n)) <= Np.of_nat n.
Proof.
  intros H.
  assert (HF : Forall (fun x => 0 <= x <= 1) (map f (seq 0 n)))
    by (apply Forall_map_seq; exact H).
  pose proof (sum_bounds 0 1 _ HF) as Hb.
  rewrite length_map, length_seq in Hb. lra.
Qed.

Lemma sum_map_seq_zero_iff (n : nat) (f : nat -> Q) :
  (forall j, (j < n)%nat -> 0 <= f j) ->
  (Np.sum (map f (seq 0 n)) == 0 <-> forall j, (j < n)%nat -> f j == 0).
Proof.
  intros H.
  rewrite sum_zero_iff by (apply Forall_map_seq; exact H).
  apply Forall_map_seq.
Qed.

Section Scores.

Variables (y_true : list string) (P : Np.ndarray2) (classes : list string).
Hypothesis Hwf : Np.well_shaped P.
Hypothesis Hsimplex : Spec.simplex P.
Hypothesis Hrows : (0 < Np.nrows P)%nat.
Hypothesis Hcols : Np.ncols P = length classes.

Let term (j i : nat) : Q :=
  (Spec.indicator y_true j (nth i classes EmptyString) - Spec.entry P j i)
  * (Spec.indicator y_true j (nth i classes EmptyString) - Spec.entry P j i).

Lemma term_bounds (j i : nat) :
  (j < Np.nrows P)%nat -> (i < length classes)%nat -> 0 <= term j i <= 1.
Proof.
  intros Hj Hi. apply squared_error_bounds.
  - apply indicator_cases.
  - apply simplex_entry; auto; lia.
Qed.

Lemma class_mse_bounds (i : nat) :
  (i < length classes)%nat ->
  0 <= Spec.class_mse y_true P i (nth i classes EmptyString) <= 1.
Proof.
  intros Hi. unfold Spec.class_mse.
  pose proof (sum_map_seq_bounds (Np.nrows P) (fun j => term j i)
                (fun j Hj => term_bounds j i Hj Hi)) as [H0 H1].
  pose proof (of_nat_pos _ Hrows).
  split; [apply div_nonneg | apply div_le_1]; assumption.
Qed.

Lemma class_mse_zero_iff (i : nat) :
  (i < length classes)%nat ->
  (Spec.class_mse y_true P i (nth i classes EmptyString) == 0 <->
   forall j, (j < Np.nrows P)%nat ->
     Spec.entry P j i == Spec.indicator y_true j (nth i classes EmptyString)).
Proof.
  intros Hi. unfold Spec.class_mse.
  rewrite div_zero_iff by (apply of_nat_pos; exact Hrows).
  pose proof (sum_map_seq_zero_iff (Np.nrows P) (fun j => term j i)
                (fun j Hj => proj1 (term_bounds j i Hj Hi))) as Hz.
  unfold term in Hz. rewrite Hz.
  split; intros H j Hj; specialize (H j Hj); apply squared_error_zero; exact H.
Qed.

Lemma brier_formula_bounds : 0 <= Spec.brier_formula y_true P classes <= 1.
Proof.
  unfold Spec.brier_formula.
  pose proof (sum_map_seq_bounds (length classes)
                (fun i => Spec.class_mse y_true P i (nth i classes EmptyString))
                class_mse_bounds) as [H0 H1].
  assert (Hk : 0 < Np.of_nat (length classes)).
  { apply of_nat_pos. rewrite <- Hcols. apply simplex_ncols_pos; assumption. }
  split; [apply div_nonneg | apply div_le_1]; assumption.
Qed.

Lemma brier_formula_zero_iff :
  Spec.brier_formula y_true P classes == 0 <->
  forall j i, (j < Np.nrows P)%nat -> (i < length classes)%nat ->
    Spec.entry P j i == Spec.indicator y_true j (nth i classes EmptyString).
Proof.
  unfold Spec.brier_formula.
  rewrite div_zero_iff
    by (apply of_nat_pos; rewrite <- Hcols; apply simplex_ncols_pos; assumption).
  rewrite (sum_map_seq_zero_iff (length classes)
             (fun i => Spec.class_mse y_true P i (nth i classes EmptyString)))
    by (intros i Hi; apply class_mse_bounds; exact Hi).
  split.
  - intros H j i Hj Hi. apply (proj1 (class_mse_zero_iff i Hi) (H i Hi) j Hj).
  - intros H i Hi. apply class_mse_zero_iff; auto.
Qed.

Hypothesis Hdistinct : NoDup classes.

Lemma indicator_hit (j i : nat) :
  nth i classes EmptyString = nth j y_true EmptyString ->
  Spec.indicator y_true j (nth i classes EmptyString) = 1.
Proof.
  intros E. unfold Spec.indicator. rewrite E, String.eqb_refl. reflexivity.
Qed.

Lemma indicator_miss (j i : nat) :
  nth i classes EmptyString <> nth j y_true EmptyString ->
  Spec.indicator y_true j (nth i classes EmptyString) = 0.
Proof.
  intros E. unfold Spec.indicator.
  destruct (String.eqb _ _) eqn:Eb; [|reflexivity].
  apply String.eqb_eq in Eb. congruence.
Qed.

Lemma pointwise_iff_one_hot :
  (forall j i, (j < Np.nrows P)%nat -> (i < length classes)%nat ->
     Spec.entry P j i == Spec.indicator y_true j (nth i classes EmptyString)) <->
  Spec.one_hot_on_truth y_true P classes.
Proof.
  split.
  - intros H j Hj.
    pose proof (well_shaped_row P j Hwf Hj) as Hlen. rewrite Hcols in Hlen.
    destruct (in_dec string_dec (nth j y_true EmptyString) classes) as [Hin|Hout].
    + destruct (In_nth _ _ EmptyString Hin) as (i & Hi & Ei).
      exists i. split.
      * rewrite (nth_error_nth' _ EmptyString Hi), Ei. reflexivity.
      * split.
        -- fold (Spec.entry P j i). rewrite (H j i Hj Hi), (indicator_hit j i Ei).
           reflexivity.
        -- intros k Hk Hne. fold (Spec.entry P j k).
           rewrite Hlen in Hk. rewrite (H j k Hj Hk), indicator_miss; [reflexivity|].
           intros E. apply Hne.
           apply (proj1 (NoDup_nth classes EmptyString) Hdistinct k i Hk Hi).
           congruence.
    + exfalso.
      unfold Spec.simplex in Hsimplex. rewrite Forall_forall in Hsimplex.
      destruct (Hsimplex (nth j (Np.rows P) [])) as [Hnn Hsum]; [apply nth_In; exact Hj|].
      assert (Hz : Forall (fun x => x == 0) (nth j (Np.rows P) [])).
      { apply Forall_forall. intros x Hx.
        destruct (In_nth _ _ 0 Hx) as (k & Hk & <-).
        rewrite Hlen in Hk. fold (Spec.entry P j k).
        rewrite (H j k Hj Hk), indicator_miss; [reflexivity|].
        intros E. apply Hout. rewrite <- E. apply nth_In. exact Hk. }
      apply (sum_zero_iff _ Hnn) in Hz. rewrite Hz in Hsum.
      revert Hsum. unfold Qeq; simpl; lia.
  - intros H j i Hj Hi.
    pose proof (well_shaped_row P j Hwf Hj) as Hlen. rewrite Hcols in Hlen.
    destruct (H j Hj) as (i0 & Hcls & Hone & Hzero).
    assert (Hi0 : (i0 < length classes)%nat)
      by (apply nth_error_Some; rewrite Hcls; discriminate).
    pose proof (nth_error_nth _ _ EmptyString Hcls) as E0.
    destruct (Nat.eq_dec i i0) as [->|Hne].
    + unfold Spec.entry. rewrite Hone, (indicator_hit j i0 E0). reflexivity.
    + unfold Spec.entry. rewrite (Hzero i) by (rewrite ?Hlen; auto).
      rewrite indicator_miss; [reflexivity|].
      intros E. apply Hne.
      apply (proj1 (NoDup_nth classes EmptyString) Hdistinct i i0 Hi Hi0).
      congruence.
Qed.

End Scores.

(** C1.  On a probability matrix (non-negative entries, rows summing to 1,
    one column per class, one row per label, at least one sample)
    [multiclass_brier] returns the mean over the classes of the mean
    squared error between the indicator of the class and its column; that
    value lies in [0, 1]; and, the class names being distinct, it is 0
    exactly when every row is one-hot with its 1 in the column of the
    true label. *)
Theorem multiclass_brier_correct (y_true : list string) (probas : Np.ndarray2)
        (classes : list string) :
  Np.well_shaped probas ->
  Spec.simplex probas ->
  length y_true = Np.nrows probas ->
  (0 < Np.nrows probas)%nat ->
  Np.ncols probas = length classes ->
  exists b,
    Metrics.multiclass_brier y_true probas classes = Ok b /\
    b == Spec.brier_formula y_true probas classes /\
    0 <= b <= 1 /\
    (NoDup classes -> (b == 0 <-> Spec.one_hot_on_truth y_true probas classes)).
Proof.
  intros Hwf Hs Hlen Hn Hk.
  destruct (brier_scores_ok y_true probas classes Hwf Hs Hlen Hn 0%nat)
    as (scores & Hrun & Hl & Hnth); [simpl; lia|].
  assert (Hkpos : (0 < length classes)%nat)
    by (rewrite <- Hk; apply simplex_ncols_pos; assumption).
  unfold Metrics.multiclass_brier. rewrite Hrun. cbn [bind].
  destruct scores as [|s0 rest]; [simpl in Hl; lia|].
  eexists; split; [reflexivity|].
  assert (E : Np.sum (s0 :: rest) / Np.of_nat (length (s0 :: rest))
              == Spec.brier_formula y_true probas classes).
  { unfold Spec.brier_formula. rewrite <- Hl.
    apply Qdiv_comp; [|reflexivity].
    apply sum_nth_ext. intros k Hk'. rewrite Hl in Hk'.
    apply (Hnth k Hk'). }
  split; [exact E|].
  rewrite E. split.
  - apply brier_formula_bounds; assumption.
  - intros Hnd. rewrite brier_formula_zero_iff by assumption.
    apply pointwise_iff_one_hot; assumption.
Qed.

End Brier.

(** ** Expected calibration error: the loop computes the binned sum *)

Section Binning.

Local Open Scope Q_scope.

Lemma mean_ok (xs : list Q) :
  xs <> [] -> Np.mean xs = Ok (Np.sum xs / Np.of_nat (length xs)).
Proof.
  destruct xs; [congruence | reflexivity].
Qed.

Lemma select_map_snd {X Y : Type} (p : X -> bool) (xs : list X) (ys : list Y) :
  Np.select (map p xs) ys = map snd (filter (fun s => p (fst s)) (combine xs ys)).
Proof.
  revert ys; induction xs as [|x xs IH]; intros [|y ys]; simpl; try reflexivity.
  destruct (p x); simpl; rewrite IH; reflexivity.
Qed.

Lemma select_map_fst {X Y : Type} (p : X -> bool) (xs : list X) (ys : list Y) :
  length xs = length ys ->
  Np.select (map p xs) xs = map fst (filter (fun s => p (fst s)) (combine xs ys)).
Proof.
  revert ys; induction xs as [|x xs IH]; intros [|y ys] H; simpl in *;
    try reflexivity; try discriminate.
  destruct (p x); simpl; rewrite (IH ys) by lia; reflexivity.
Qed.

Lemma filter_combine_length {X Y : Type} (p : X -> bool) (xs : list X) (ys : list Y) :
  length xs = length ys ->
  length (filter (fun s => p (fst s)) (combine xs ys)) = length (filter p xs).
Proof.
  revert ys; induction xs as [|x xs IH]; intros [|y ys] H; simpl in *;
    try reflexivity; try discriminate.
  destruct (p x); simpl; rewrite (IH ys) by lia; reflexivity.
Qed.

Lemma count_true_map {X : Type} (p : X -> bool) (xs : list X) :
  Np.count_true (map p xs) = length (filter p xs).
Proof.
  unfold Np.count_true. induction xs as [|x xs IH]; simpl; [reflexivity|].
  destruct (p x); simpl; rewrite IH; reflexivity.
Qed.

Lemma any_map_false {X : Type} (p : X -> bool) (xs : list X) :
  Np.any (map p xs) = false <-> length (filter p xs) = O.
Proof.
  unfold Np.any. induction xs as [|x xs IH]; simpl; [tauto|].
  destruct (p x); simpl; [split; intros; discriminate | exact IH].
Qed.

Lemma sum_bools (bs : list bool) :
  Np.sum (map (fun b => inject_Z (Np.int_of_bool b)) bs) == Np.of_nat (Np.count_true bs).
Proof.
  unfold Np.count_true. induction bs as [|b bs IH]; [reflexivity|].
  cbn [map filter]. change (Np.sum (?x :: ?l)) with (x + Np.sum l).
  rewrite IH. destruct b; cbn [length Np.int_of_bool].
  - rewrite of_nat_S. change (inject_Z 1) with 1. ring.
  - change (inject_Z 0) with 0. ring.
Qed.

Lemma mean_bool_ok (bs : list bool) :
  bs <> [] ->
  exists m, Np.mean_bool bs = Ok m /\
            m == Np.of_nat (Np.count_true bs) / Np.of_nat (length bs).
Proof.
  intros H. unfold Np.mean_bool.
  rewrite mean_ok by (destruct bs; [congruence | discriminate]).
  eexists; split; [reflexivity|].
  rewrite length_map, sum_bools. reflexivity.
Qed.

Lemma bin_mask_in_bin (bins i : nat) (confs : list Q) :
  Metrics.bin_mask (Np.linspace01 bins i) (Np.linspace01 bins (S i)) confs
  = map (Spec.in_bin bins i) confs.
Proof. reflexivity. Qed.

Lemma bin_members_length (bins i : nat) (confs : list Q) (correct : list bool) :
  length confs = length correct ->
  length (Spec.bin_members bins i confs correct)
  = length (filter (Spec.in_bin bins i) confs).
Proof.
  intros H. unfold Spec.bin_members.
  apply (filter_combine_length (Spec.in_bin bins i) confs correct H).
Qed.

(** One turn of the loop adds the term of its bin. *)
Lemma ece_step_ok (confs : list Q) (correct : list bool) (bins i : nat) (acc : Q) :
  length confs = length correct ->
  exists e, Metrics.ece_step confs correct bins acc i = Ok e /\
            e == acc + Spec.bin_term bins i confs correct.
Proof.
  intros Hlen. unfold Metrics.ece_step. rewrite bin_mask_in_bin.
  pose proof (bin_members_length bins i confs correct Hlen) as Hpop.
  unfold Spec.bin_term. cbv zeta.
  set (members := Spec.bin_members bins i confs correct) in *.
  destruct (Np.any (map (Spec.in_bin bins i) confs)) eqn:Hany; cbn [negb].
  - assert (Hne : length members <> O).
    { rewrite Hpop. intros H0. apply any_map_false in H0. congruence. }
    apply Nat.eqb_neq in Hne as Hne'. rewrite Hne'.
    unfold Np.compress. rewrite length_map, <- Hlen, !Nat.eqb_refl. cbn [bind].
    rewrite select_map_snd. fold (Spec.bin_members bins i confs correct). fold members.
    rewrite (select_map_fst (Spec.in_bin bins i) confs correct Hlen).
    fold (Spec.bin_members bins i confs correct). fold members.
    destruct (mean_bool_ok (map snd members)) as (a & Ha & Ea).
    { destruct members; [simpl in Hne; congruence | discriminate]. }
    rewrite Ha. cbn [bind].
    rewrite mean_ok by (destruct members; [simpl in Hne; congruence | discriminate]).
    cbn [bind].
    destruct (mean_bool_ok (map (Spec.in_bin bins i) confs)) as (w & Hw & Ew).
    { destruct confs; [simpl in Hany; discriminate | discriminate]. }
    rewrite Hw. cbn [bind].
    eexists; split; [reflexivity|].
    rewrite Ea, Ew, !length_map, count_true_map, <- Hpop. reflexivity.
  - apply any_map_false in Hany. rewrite <- Hpop in Hany. rewrite Hany.
    cbn [Nat.eqb]. eexists; split; [reflexivity | ring].
Qed.

Lemma ece_loop_ok (confs : list Q) (correct : list bool) (bins : nat) (range : list nat) :
  length confs = length correct ->
  forall acc, exists e,
    Metrics.ece_loop confs correct bins range acc = Ok e /\
    e == acc + Np.sum (map (fun i => Spec.bin_term bins i confs correct) range).
Proof.
  intros Hlen. induction range as [|i rest IH]; intros acc.
  - exists acc; split; [reflexivity | simpl; ring].
  - destruct (ece_step_ok confs correct bins i acc Hlen) as (e1 & H1 & E1).
    destruct (IH e1) as (e & H & E).
    exists e; split.
    + cbn [Metrics.ece_loop]. rewrite H1. exact H.
    + rewrite E, E1. cbn [map]. change (Np.sum (?x :: ?l)) with (x + Np.sum l). ring.
Qed.

Lemma map_combine_map_l {X X' Y Z : Type} (g : X -> X') (f : X' * Y -> Z)
      (xs : list X) (ys : list Y) :
  map f (combine (map g xs) ys) = map (fun xy => f (g (fst xy), snd xy)) (combine xs ys).
Proof.
  revert ys; induction xs as [|x xs IH]; intros [|y ys]; simpl; try reflexivity.
  rewrite IH; reflexivity.
Qed.

Lemma row_argmax_in_range (P : Np.ndarray2) (r : list Q) :
  Np.well_shaped P -> (0 < Np.ncols P)%nat -> In r (Np.rows P) ->
  (Np.row_argmax r < Np.ncols P)%nat.
Proof.
  intros Hwf Hk Hin.
  unfold Np.well_shaped in Hwf. rewrite Forall_forall in Hwf.
  rewrite <- (Hwf r Hin).
  apply row_argmax_first. intros ->. specialize (Hwf [] Hin). simpl in Hwf. lia.
Qed.

Lemma take_argmax_ok (P : Np.ndarray2) (classes : list string) :
  Np.well_shaped P -> (0 < Np.ncols P)%nat -> (Np.ncols P <= length classes)%nat ->
  Np.take classes (map Np.row_argmax (Np.rows P))
  = Ok (map (fun r => nth (Np.row_argmax r) classes EmptyString) (Np.rows P)).
Proof.
  intros Hwf Hk Hc. unfold Np.take. rewrite map_map.
  apply sequence_map_ok. intros r Hr.
  pose proof (row_argmax_in_range P r Hwf Hk Hr) as Hi.
  rewrite (nth_error_nth' classes EmptyString) by lia. reflexivity.
Qed.

(** Under the shape preconditions the function returns the binned sum of
    the specification. *)
Lemma ece_refines (y_true : list string) (P : Np.ndarray2) (classes : list string)
      (bins : nat) :
  Np.well_shaped P -> (0 < Np.ncols P)%nat -> (Np.ncols P <= length classes)%nat ->
  length y_true = Np.nrows P ->
  exists e,
    Metrics.expected_calibration_error y_true P classes bins = Ok e /\
    e == Spec.ece_formula bins (Spec.confidences_of P) (Spec.correct_of y_true P classes).
Proof.
  intros Hwf Hk Hc Hlen.
  unfold Metrics.expected_calibration_error, Np.max_axis1, Np.argmax_axis1.
  destruct (Np.ncols P =? 0)%nat eqn:E; [apply Nat.eqb_eq in E; lia|].
  cbn [bind]. rewrite (take_argmax_ok P classes Hwf Hk Hc). cbn [bind].
  unfold Np.eq_arrays. rewrite length_map. fold (Np.nrows P).
  rewrite <- Hlen, Nat.eqb_refl. cbn [bind].
  rewrite (map_combine_map_l (fun r => nth (Np.row_argmax r) classes EmptyString)
             (fun ab => String.eqb (fst ab) (snd ab)) (Np.rows P) y_true).
  cbn [fst snd]. fold (Spec.correct_of y_true P classes). fold (Spec.confidences_of P).
  destruct (ece_loop_ok (Spec.confidences_of P) (Spec.correct_of y_true P classes)
              bins (seq 0 bins)) with (acc := 0) as (e & He & Ee).
  { unfold Spec.confidences_of, Spec.correct_of.
    rewrite !length_map, length_combine. unfold Np.nrows in Hlen. lia. }
  exists e; split; [exact He|]. rewrite Ee. unfold Spec.ece_formula. ring.
Qed.

End Binning.

(** ** Rounding to a double: order and error *)

Section Rounding.

Local Open Scope Q_scope.

Lemma nearest_even_cases (x : Q) :
  let f := Qfloor x in
  let r := x - inject_Z f in
  0 <= r /\ r < 1 /\
  ((r < 1 # 2 /\ Fl.nearest_even x = f) \/
   (1 # 2 < r /\ Fl.nearest_even x = (f + 1)%Z) \/
   (r == 1 # 2 /\ (Fl.nearest_even x = f \/ Fl.nearest_even x = (f + 1)%Z))).
Proof.
  cbv zeta. pose proof (Qfloor_le x) as H0. pose proof (Qlt_floor x) as H1.
  rewrite inject_Z_plus in H1. change (inject_Z 1) with 1 in H1.
  split; [lra|]. split; [lra|].
  unfold Fl.nearest_even.
  destruct (Qcompare_spec (x - inject_Z (Qfloor x)) (1 # 2)) as [E|E|E].
  - right; right. split; [exact E|]. destruct (Z.even (Qfloor x)); auto.
  - left. split; [exact E | reflexivity].
  - right; left. split; [exact E | reflexivity].
Qed.

Lemma nearest_even_error (x : Q) :
  - (1 # 2) <= inject_Z (Fl.nearest_even x) - x <= 1 # 2.
Proof.
  destruct (nearest_even_cases x) as (H0 & H1 & [[Hr ->] | [[Hr ->] | [Hr [-> | ->]]]]);
    rewrite ?inject_Z_plus; change (inject_Z 1) with 1; lra.
Qed.

Lemma nearest_even_Z (z : Z) : Fl.nearest_even (inject_Z z) = z.
Proof.
  unfold Fl.nearest_even. rewrite Qfloor_Z.
  destruct (Qcompare_spec (inject_Z z - inject_Z z) (1 # 2)) as [E|E|E];
    [exfalso; lra | reflexivity | exfalso; lra].
Qed.

Lemma inject_Z_lt_succ (a b : Z) : (a < b)%Z -> inject_Z a + 1 <= inject_Z b.
Proof.
  intros H. change 1 with (inject_Z 1). rewrite <- inject_Z_plus.
  rewrite <- Zle_Qle. lia.
Qed.

Lemma nearest_even_mono (x y : Q) :
  x <= y -> (Fl.nearest_even x <= Fl.nearest_even y)%Z.
Proof.
  intros Hxy. pose proof (Qfloor_resp_le x y Hxy) as Hf.
  destruct (nearest_even_cases x) as (Hx0 & Hx1 & Hx).
  destruct (nearest_even_cases y) as (Hy0 & Hy1 & Hy).
  destruct (Z.eq_dec (Qfloor x) (Qfloor y)) as [E|Hne].
  - unfold Fl.nearest_even. rewrite <- E in *.
    destruct (Qcompare_spec (x - inject_Z (Qfloor x)) (1 # 2)) as [Ex|Ex|Ex];
      destruct (Qcompare_spec (y - inject_Z (Qfloor x)) (1 # 2)) as [Ey|Ey|Ey];
      try lia; try (exfalso; lra); destruct (Z.even (Qfloor x)); lia.
  - assert (Hlt : (Qfloor x < Qfloor y)%Z) by lia.
    assert (Fl.nearest_even x <= Qfloor x + 1)%Z
      by (destruct Hx as [[_ ->] | [[_ ->] | [_ [-> | ->]]]]; lia).
    assert (Qfloor y <= Fl.nearest_even y)%Z
      by (destruct Hy as [[_ ->] | [[_ ->] | [_ [-> | ->]]]]; lia).
    lia.
Qed.

Lemma pow2_pos (e : Z) : 0 < 2 ^ e.
Proof. apply Qpower_0_lt. reflexivity. Qed.

Lemma pow2_plus (a b : Z) : 2 ^ (a + b) == 2 ^ a * 2 ^ b.
Proof. apply Qpower_plus. discriminate. Qed.

Lemma pow2_le (a b : Z) : (a <= b)%Z -> 2 ^ a <= 2 ^ b.
Proof. intros H. apply Qpower_le_compat_l; [exact H | discriminate]. Qed.

Lemma pow2_lt_inv (a b : Z) : 2 ^ a < 2 ^ b -> (a < b)%Z.
Proof. intros H. apply (Qpower_lt_compat_l_inv 2); [exact H | reflexivity]. Qed.

Lemma pow2_succ (a : Z) : 2 ^ (a + 1) == 2 * 2 ^ a.
Proof. rewrite pow2_plus. change (2 ^ 1) with 2. ring. Qed.

Lemma pow2_inject (a : Z) : (0 <= a)%Z -> inject_Z (2 ^ a) == 2 ^ a.
Proof. intros H. apply (Zpower_Qpower 2 a H). Qed.

Lemma binade_spec (x : Q) : 0 < x -> 2 ^ Fl.binade x <= x /\ x < 2 ^ (Fl.binade x + 1).
Proof.
  intros Hx. unfold Fl.binade.
  set (n := Qnum x). set (d := Zpos (Qden x)).
  assert (Hn : (0 < n)%Z).
  { unfold n. destruct x as [xn xd]. unfold Qlt in Hx. simpl in *. lia. }
  assert (Hd : (0 < d)%Z) by (unfold d; lia).
  pose proof (Z.log2_spec n Hn) as [Hn0 Hn1].
  pose proof (Z.log2_spec d Hd) as [Hd0 Hd1].
  pose proof (Z.log2_nonneg n) as Ha. pose proof (Z.log2_nonneg d) as Hb.
  set (a := Z.log2 n) in *. set (b := Z.log2 d) in *.
  assert (Ex : x * inject_Z d == inject_Z n).
  { unfold n, d. destruct x as [xn xd]. unfold Qeq, Qmult, inject_Z. simpl. lia. }
  rewrite Zle_Qle in Hn0, Hd0. rewrite Zlt_Qlt in Hn1, Hd1.
  rewrite pow2_inject in Hn0, Hd0 by lia.
  unfold Z.succ in Hn1, Hd1. rewrite pow2_inject in Hn1, Hd1 by lia.
  pose proof (pow2_pos (a - b)) as Hk. pose proof (pow2_pos b) as Hpb.
  pose proof (pow2_pos (a - b - 1)) as Hk1.
  assert (E1 : 2 ^ (a - b + 1) * 2 ^ b == 2 ^ (a + 1))
    by (rewrite <- pow2_plus; replace (a - b + 1 + b)%Z with (a + 1)%Z by lia; reflexivity).
  assert (E2 : 2 ^ (a - b - 1) * 2 ^ (b + 1) == 2 ^ a)
    by (rewrite <- pow2_plus; replace (a - b - 1 + (b + 1))%Z with a by lia; reflexivity).
  assert (E3 : 2 ^ (a - b - 1 + 1) == 2 ^ (a - b))
    by (replace (a - b - 1 + 1)%Z with (a - b)%Z by lia; reflexivity).
  pose proof (pow2_pos (a - b + 1)) as Hk2. pose proof (pow2_pos (b + 1)) as Hpb1.
  set (D := inject_Z d) in *. set (N := inject_Z n) in *.
  set (Pa := 2 ^ a) in *. set (Pa1 := 2 ^ (a + 1)) in *.
  set (Pb := 2 ^ b) in *. set (Pb1 := 2 ^ (b + 1)) in *.
  assert (Hup : x < 2 ^ (a - b + 1)).
  { set (K := 2 ^ (a - b + 1)) in *. apply Qnot_le_lt. intros Hc.
    assert (K * Pb <= x * D) by nra. lra. }
  assert (Hlow : 2 ^ (a - b - 1) < x).
  { set (K := 2 ^ (a - b - 1)) in *. apply Qnot_le_lt. intros Hc.
    assert (x * D < K * Pb1) by nra. lra. }
  destruct (Qle_bool (2 ^ (a - b)) x) eqn:E.
  - apply Qle_bool_iff in E. split; assumption.
  - split; [apply Qlt_le_weak; exact Hlow|].
    rewrite E3. apply Qnot_le_lt. intros Hc. apply Qle_bool_iff in Hc. congruence.
Qed.

Lemma binade_mono (x y : Q) : 0 < x -> x <= y -> (Fl.binade x <= Fl.binade y)%Z.
Proof.
  intros Hx Hxy.
  destruct (binade_spec x Hx) as [Hx0 Hx1].
  destruct (binade_spec y ltac:(lra)) as [Hy0 Hy1].
  assert (H : 2 ^ Fl.binade x < 2 ^ (Fl.binade y + 1)) by lra.
  apply pow2_lt_inv in H. lia.
Qed.

(** The significand of a positive [x] lies between [2^52] and [2^53]. *)
Lemma significand_range (x : Q) :
  0 < x ->
  2 ^ 52 <= x / 2 ^ (Fl.binade x - 52) /\ x / 2 ^ (Fl.binade x - 52) < 2 ^ 53.
Proof.
  intros Hx. destruct (binade_spec x Hx) as [H0 H1].
  pose proof (pow2_pos (Fl.binade x - 52)) as He.
  assert (E0 : 2 ^ 52 * 2 ^ (Fl.binade x - 52) == 2 ^ Fl.binade x)
    by (rewrite <- pow2_plus; replace (52 + (Fl.binade x - 52))%Z with (Fl.binade x) by lia;
        reflexivity).
  assert (E1 : 2 ^ 53 * 2 ^ (Fl.binade x - 52) == 2 ^ (Fl.binade x + 1))
    by (rewrite <- pow2_plus;
        replace (53 + (Fl.binade x - 52))%Z with (Fl.binade x + 1)%Z by lia; reflexivity).
  split.
  - apply Qle_shift_div_l; [exact He | lra].
  - apply Qlt_shift_div_r; [exact He | lra].
Qed.

Lemma round_pos_range (x : Q) :
  0 < x -> 2 ^ Fl.binade x <= Fl.round_pos x /\ Fl.round_pos x <= 2 ^ (Fl.binade x + 1).
Proof.
  intros Hx. destruct (significand_range x Hx) as [H0 H1].
  unfold Fl.round_pos. cbv zeta.
  set (e := (Fl.binade x - 52)%Z) in *. set (s := x / 2 ^ e) in *.
  pose proof (pow2_pos e) as He.
  assert (Hm0 : (2 ^ 52 <= Fl.nearest_even s)%Z).
  { rewrite <- (nearest_even_Z (2 ^ 52)). apply nearest_even_mono.
    rewrite pow2_inject by lia. exact H0. }
  assert (Hm1 : (Fl.nearest_even s <= 2 ^ 53)%Z).
  { rewrite <- (nearest_even_Z (2 ^ 53)). apply nearest_even_mono.
    rewrite pow2_inject by lia. lra. }
  rewrite Zle_Qle in Hm0, Hm1. rewrite pow2_inject in Hm0, Hm1 by lia.
  assert (E0 : 2 ^ 52 * 2 ^ e == 2 ^ Fl.binade x)
    by (rewrite <- pow2_plus; unfold e;
        replace (52 + (Fl.binade x - 52))%Z with (Fl.binade x) by lia; reflexivity).
  assert (E1 : 2 ^ 53 * 2 ^ e == 2 ^ (Fl.binade x + 1))
    by (rewrite <- pow2_plus; unfold e;
        replace (53 + (Fl.binade x - 52))%Z with (Fl.binade x + 1)%Z by lia; reflexivity).
  set (m := inject_Z (Fl.nearest_even s)) in *.
  set (P := 2 ^ e) in *. set (A := 2 ^ 52) in *. set (B := 2 ^ 53) in *.
  split; nra.
Qed.

Lemma round_pos_mono (x y : Q) : 0 < x -> x <= y -> Fl.round_pos x <= Fl.round_pos y.
Proof.
  intros Hx Hxy. assert (Hy : 0 < y) by lra.
  pose proof (binade_mono x y Hx Hxy) as Hb.
  destruct (Z.eq_dec (Fl.binade x) (Fl.binade y)) as [E|Hne].
  - unfold Fl.round_pos. cbv zeta. rewrite E.
    set (e := (Fl.binade y - 52)%Z). pose proof (pow2_pos e) as He.
    apply Qmult_le_compat_r; [|lra].
    rewrite <- Zle_Qle. apply nearest_even_mono.
    unfold Qdiv. apply Qmult_le_compat_r; [exact Hxy|].
    apply Qlt_le_weak, Qinv_lt_0_compat. exact He.
  - destruct (round_pos_range x Hx) as [_ H1]. destruct (round_pos_range y Hy) as [H0 _].
    pose proof (pow2_le (Fl.binade x + 1) (Fl.binade y) ltac:(lia)). lra.
Qed.

Lemma round_pos_error (x : Q) :
  0 < x ->
  x * (1 - Fl.unit_roundoff) <= Fl.round_pos x <= x * (1 + Fl.unit_roundoff).
Proof.
  intros Hx. destruct (significand_range x Hx) as [H0 _].
  unfold Fl.round_pos. cbv zeta.
  set (e := (Fl.binade x - 52)%Z) in *. set (s := x / 2 ^ e) in *.
  pose proof (pow2_pos e) as He. pose proof (nearest_even_error s) as [E0 E1].
  assert (Es : s * 2 ^ e == x) by (unfold s; field; lra).
  assert (Hu : Fl.unit_roundoff * 2 ^ 52 == 1 # 2) by reflexivity.
  set (m := inject_Z (Fl.nearest_even s)) in *. set (P := 2 ^ e) in *.
  set (u := Fl.unit_roundoff) in *. set (A := 2 ^ 52) in *.
  assert (Hu0 : 0 < u) by reflexivity.
  assert (Hh : (1 # 2) * P <= x * u).
  { assert (H1 : A * P <= s * P) by nra.
    setoid_replace ((1 # 2) * P) with (u * (A * P)) by (rewrite <- Hu; ring).
    setoid_replace (x * u) with (u * (s * P)) by (rewrite <- Es; ring).
    set (t1 := A * P) in *. set (t2 := s * P) in *. nra. }
  assert (Em : m * P == x + (m - s) * P) by (rewrite <- Es; ring).
  set (dlt := m - s) in *.
  assert (Hd : - (1 # 2) <= dlt <= 1 # 2) by (split; assumption).
  set (xu := x * u) in *. set (dP := dlt * P) in *.
  assert (HdP : - ((1 # 2) * P) <= dP <= (1 # 2) * P) by (unfold dP; split; nra).
  rewrite Em.
  setoid_replace (x * (1 - u)) with (x - xu) by (unfold xu; ring).
  setoid_replace (x * (1 + u)) with (x + xu) by (unfold xu; ring).
  split; lra.
Qed.

Lemma round_of_pos (x : Q) : 0 < x -> Fl.round x = Fl.round_pos x.
Proof.
  intros Hx. unfold Fl.round. destruct x as [[|p|p] d]; [| reflexivity |];
    unfold Qlt in Hx; simpl in Hx; lia.
Qed.

Lemma round_of_zero (x : Q) : x == 0 -> Fl.round x = 0.
Proof.
  intros Hx. unfold Fl.round. destruct x as [[|p|p] d]; [reflexivity | |];
    unfold Qeq in Hx; simpl in Hx; lia.
Qed.

Lemma round_nonneg (x : Q) : 0 <= x -> 0 <= Fl.round x.
Proof.
  intros Hx. destruct (Qlt_le_dec 0 x) as [H|H].
  - rewrite (round_of_pos x H). destruct (round_pos_range x H) as [H0 _].
    pose proof (pow2_pos (Fl.binade x)). lra.
  - rewrite (round_of_zero x) by lra. lra.
Qed.

(** Rounding keeps the order. *)
Lemma round_mono (x y : Q) : 0 <= x -> x <= y -> Fl.round x <= Fl.round y.
Proof.
  intros Hx Hxy. destruct (Qlt_le_dec 0 x) as [H|H].
  - rewrite (round_of_pos x H), (round_of_pos y) by lra. apply round_pos_mono; assumption.
  - rewrite (round_of_zero x) by lra. apply round_nonneg. lra.
Qed.

(** The relative error of one rounding is at most [2^-53]. *)
Lemma round_error (x : Q) :
  0 <= x -> x * (1 - Fl.unit_roundoff) <= Fl.round x <= x * (1 + Fl.unit_roundoff).
Proof.
  intros Hx. destruct (Qlt_le_dec 0 x) as [H|H].
  - rewrite (round_of_pos x H). apply round_pos_error. exact H.
  - rewrite (round_of_zero x) by lra. assert (E : x == 0) by lra. rewrite E. split; lra.
Qed.

Lemma round_one : Fl.round 1 == 1.
Proof. reflexivity. Qed.

(** Below the midpoint between 1 and the next double, the result is at
    most 1. *)
Lemma round_below_midpoint (x : Q) :
  0 <= x -> x < 1 + Fl.unit_roundoff -> Fl.round x <= 1.
Proof.
  intros Hx Hm. destruct (Qlt_le_dec 1 x) as [H|H].
  - rewrite (round_of_pos x) by lra.
    assert (Hb : Fl.binade x = 0%Z).
    { destruct (binade_spec x ltac:(lra)) as [B0 B1].
      assert (H2 : x < 2 ^ 1) by (change (2 ^ 1) with 2; unfold Fl.unit_roundoff in Hm; lra).
      assert (L1 : 2 ^ Fl.binade x < 2 ^ 1) by lra.
      assert (L2 : 2 ^ 0 < 2 ^ (Fl.binade x + 1)) by (change (2 ^ 0) with 1; lra).
      apply pow2_lt_inv in L1, L2. lia. }
    unfold Fl.round_pos. cbv zeta. rewrite Hb.
    change (2 ^ (0 - 52)) with (1 # 4503599627370496).
    set (s := x / (1 # 4503599627370496)).
    assert (Hs0 : inject_Z 4503599627370496 < s)
      by (unfold s; apply Qlt_shift_div_l; [reflexivity|];
          change (inject_Z 4503599627370496 * (1 # 4503599627370496)) with
            (4503599627370496 # 4503599627370496);
          setoid_replace (4503599627370496 # 4503599627370496) with 1 by reflexivity; exact H).
    assert (Hs1 : s < inject_Z 4503599627370496 + (1 # 2)).
    { unfold s. apply Qlt_shift_div_r; [reflexivity|].
      setoid_replace ((inject_Z 4503599627370496 + (1 # 2)) * (1 # 4503599627370496))
        with (1 + Fl.unit_roundoff) by reflexivity.
      exact Hm. }
    assert (Hf : Qfloor s = 4503599627370496%Z).
    { pose proof (Qfloor_le s) as F0. pose proof (Qlt_floor s) as F1.
      assert (G0 : inject_Z 4503599627370496 < inject_Z (Qfloor s + 1)) by lra.
      assert (G1 : inject_Z (Qfloor s) < inject_Z (4503599627370496 + 1))
        by (rewrite (inject_Z_plus 4503599627370496 1); change (inject_Z 1) with 1; lra).
      rewrite <- Zlt_Qlt in G0, G1. lia. }
    assert (Hn : Fl.nearest_even s = 4503599627370496%Z).
    { unfold Fl.nearest_even. rewrite Hf.
      destruct (Qcompare_spec (s - inject_Z 4503599627370496) (1 # 2)) as [E|E|E];
        [exfalso; lra | reflexivity | exfalso; lra]. }
    rewrite Hn. apply Qle_lteq; right. reflexivity.
  - rewrite <- round_one. apply round_mono; assumption.
Qed.

End Rounding.

(** ** Geometry of the bins *)

Section Bins.

Local Open Scope Q_scope.

Lemma Qle_bool_false (a b : Q) : Qle_bool a b = false <-> b < a.
Proof.
  split; intros H.
  - apply Qnot_le_lt. intros Hle. apply Qle_bool_iff in Hle. congruence.
  - destruct (Qle_bool a b) eqn:E; [|reflexivity].
    apply Qle_bool_iff in E. lra.
Qed.

Ltac q_cases :=
  repeat match goal with
         | |- context [Np.Qltb ?a ?b] =>
             let E := fresh "E" in
             destruct (Np.Qltb a b) eqn:E;
             [apply Qltb_lt in E | apply Qltb_ge in E]
         | |- context [Qle_bool ?a ?b] =>
             let E := fresh "E" in
             destruct (Qle_bool a b) eqn:E;
             [apply Qle_bool_iff in E | apply Qle_bool_false in E]
         end;
  simpl; try reflexivity; try (exfalso; lra).

Lemma interval_split (z lo hi c : Q) :
  z <= lo -> lo <= hi ->
  Np.Qltb z c && Qle_bool c hi
  = (Np.Qltb z c && Qle_bool c lo) || (Np.Qltb lo c && Qle_bool c hi).
Proof. intros H1 H2. q_cases. Qed.

Lemma interval_disjoint (z lo hi c : Q) :
  (Np.Qltb z c && Qle_bool c lo) && (Np.Qltb lo c && Qle_bool c hi) = false.
Proof. q_cases. Qed.

(** The step of the grid is the double nearest to [1 / bins]. *)
Lemma step_bounds (bins : nat) :
  (0 < bins)%nat ->
  0 < Fl.div 1 (Np.of_nat bins) /\
  1 - Fl.unit_roundoff <= Fl.div 1 (Np.of_nat bins) * Np.of_nat bins <= 1 + Fl.unit_roundoff.
Proof.
  intros Hb. pose proof (of_nat_pos bins Hb) as HN. unfold Fl.div.
  set (N := Np.of_nat bins) in *.
  assert (Hx : 0 < 1 / N) by (apply Qlt_shift_div_l; [exact HN | lra]).
  destruct (round_error (1 / N) ltac:(lra)) as [E0 E1].
  assert (Ex : 1 / N * N == 1) by (field; lra).
  set (x := 1 / N) in *. set (r := Fl.round x) in *.
  assert (Hu : 0 < Fl.unit_roundoff) by reflexivity.
  assert (Hu1 : Fl.unit_roundoff < 1) by reflexivity.
  set (u := Fl.unit_roundoff) in *.
  assert (Hr : 0 < r) by nra.
  split; [exact Hr|].
  assert (G0 : x * (1 - u) * N <= r * N) by nra.
  assert (G1 : r * N <= x * (1 + u) * N) by nra.
  setoid_replace (x * (1 - u) * N) with ((x * N) * (1 - u)) in G0 by ring.
  setoid_replace (x * (1 + u) * N) with ((x * N) * (1 + u)) in G1 by ring.
  rewrite Ex in G0, G1. split; lra.
Qed.

Lemma edge_inner (bins i : nat) :
  (0 < bins)%nat -> i <> bins ->
  Np.linspace01 bins i = Fl.round (Np.of_nat i * Fl.div 1 (Np.of_nat bins)).
Proof.
  intros Hb Hi. unfold Np.linspace01. destruct bins as [|b]; [lia|].
  apply Nat.eqb_neq in Hi. rewrite Hi. reflexivity.
Qed.

Lemma edge_zero (bins : nat) : Np.linspace01 bins 0 == 0.
Proof.
  destruct bins as [|b]; [reflexivity|].
  rewrite edge_inner by lia. rewrite round_of_zero; [reflexivity|].
  change (Np.of_nat 0) with 0. ring.
Qed.

Lemma edge_one (bins : nat) : (0 < bins)%nat -> Np.linspace01 bins bins == 1.
Proof.
  intros Hb. unfold Np.linspace01. destruct bins as [|b]; [lia|].
  rewrite Nat.eqb_refl. reflexivity.
Qed.

Lemma edge_nonneg (bins i : nat) : 0 <= Np.linspace01 bins i.
Proof.
  unfold Np.linspace01. destruct bins as [|b]; [lra|].
  destruct (i =? S b)%nat; [lra|].
  apply round_nonneg. destruct (step_bounds (S b) ltac:(lia)) as [Hs _].
  pose proof (of_nat_nonneg i). nra.
Qed.

(** Every edge is at most 1: the product [i * step] stays below the
    midpoint between 1 and the next double. *)
Lemma edge_le_1 (bins i : nat) : (i <= bins)%nat -> Np.linspace01 bins i <= 1.
Proof.
  intros Hi. destruct (Nat.eq_dec bins 0) as [->|Hb].
  - simpl. lra.
  - destruct (Nat.eq_dec i bins) as [->|Hne]; [rewrite edge_one by lia; lra|].
    rewrite edge_inner by lia.
    destruct (step_bounds bins ltac:(lia)) as (Hs & _ & Hup).
    pose proof (of_nat_nonneg i) as Hi0.
    assert (Hi1 : Np.of_nat i + 1 <= Np.of_nat bins).
    { rewrite <- of_nat_S. apply of_nat_le. lia. }
    set (st := Fl.div 1 (Np.of_nat bins)) in *.
    set (I := Np.of_nat i) in *. set (N := Np.of_nat bins) in *.
    apply round_below_midpoint; nra.
Qed.

(** The edges are in non-decreasing order. *)
Lemma edge_mono (bins i k : nat) :
  (i <= k)%nat -> (k <= bins)%nat -> Np.linspace01 bins i <= Np.linspace01 bins k.
Proof.
  intros Hik Hk. destruct (Nat.eq_dec bins 0) as [->|Hb].
  - replace k with 0%nat by lia. replace i with 0%nat by lia. lra.
  - destruct (Nat.eq_dec k bins) as [->|Hne].
    + rewrite (edge_one bins) by lia. apply edge_le_1. exact Hik.
    + rewrite !edge_inner by lia.
      destruct (step_bounds bins ltac:(lia)) as (Hs & _).
      pose proof (of_nat_nonneg i) as Hi0. pose proof (of_nat_le i k Hik) as Hle.
      set (st := Fl.div 1 (Np.of_nat bins)) in *.
      set (I := Np.of_nat i) in *. set (K := Np.of_nat k) in *.
      apply round_mono; nra.
Qed.


Lemma in_bin_iff (bins i : nat) (c : Q) :
  Spec.in_bin bins i c = true <->
  Np.linspace01 bins i < c /\ c <= Np.linspace01 bins (S i).
Proof.
  unfold Spec.in_bin.
  rewrite andb_true_iff, Qltb_lt, Qle_bool_iff. tauto.
Qed.

Lemma first_bins_step (bins m : nat) (c : Q) :
  (m < bins)%nat ->
  Spec.in_first_bins bins (S m) c
  = Spec.in_first_bins bins m c || Spec.in_bin bins m c.
Proof.
  intros Hm. unfold Spec.in_first_bins, Spec.in_bin.
  apply interval_split.
  - apply edge_nonneg.
  - apply edge_mono; lia.
Qed.

Lemma first_bins_disjoint (bins m : nat) (c : Q) :
  Spec.in_first_bins bins m c && Spec.in_bin bins m c = false.
Proof.
  unfold Spec.in_first_bins, Spec.in_bin. apply interval_disjoint.
Qed.

Lemma first_bins_zero (bins : nat) (c : Q) : Spec.in_first_bins bins 0 c = false.
Proof.
  unfold Spec.in_first_bins. pose proof (edge_zero bins) as H.
  set (b := Np.linspace01 bins 0) in *. q_cases.
Qed.


Lemma filter_split_length {X : Type} (p q r : X -> bool) (l : list X) :
  (forall x, r x = p x || q x) -> (forall x, p x && q x = false) ->
  length (filter r l) = (length (filter p l) + length (filter q l))%nat.
Proof.
  intros Hr Hd. induction l as [|x l IH]; simpl; [reflexivity|].
  rewrite Hr. specialize (Hd x).
  destruct (p x), (q x); simpl in *; try discriminate; lia.
Qed.

(** The populations of the first [m] bins add up to the number of
    confidences between 0, excluded, and edge [m]. *)
Lemma populations_add_up (bins m : nat) (confs : list Q) :
  (m <= bins)%nat ->
  list_sum (map (fun i => length (filter (Spec.in_bin bins i) confs)) (seq 0 m))
  = length (filter (Spec.in_first_bins bins m) confs).
Proof.
  induction m as [|m IH]; intros Hm.
  - simpl. induction confs as [|c confs IHc]; simpl; [reflexivity|].
    rewrite first_bins_zero. exact IHc.
  - rewrite seq_S, map_app, list_sum_app, IH by lia. simpl. rewrite Nat.add_0_r.
    symmetry. apply filter_split_length.
    + intros c. apply first_bins_step. lia.
    + apply first_bins_disjoint.
Qed.

End Bins.

(** ** Expected calibration error: range and the perfectly calibrated case *)

Section Calibration.

Local Open Scope Q_scope.

Lemma count_true_le (bs : list bool) : (Np.count_true bs <= length bs)%nat.
Proof. apply filter_length_le. Qed.

Lemma sum_map_le {X : Type} (f g : X -> Q) (l : list X) :
  (forall x, In x l -> f x <= g x) -> Np.sum (map f l) <= Np.sum (map g l).
Proof.
  induction l as [|x l IH]; intros H; [apply Qle_refl|].
  cbn [map]. change (Np.sum (?a :: ?r)) with (a + Np.sum r).
  apply Qplus_le_compat; [apply H; left; reflexivity|].
  apply IH. intros; apply H; right; assumption.
Qed.

Lemma sum_of_shares {X : Type} (h : X -> nat) (d : Q) (l : list X) :
  Np.sum (map (fun x => Np.of_nat (h x) / d) l) == Np.of_nat (list_sum (map h l)) / d.
Proof.
  induction l as [|x l IH].
  { cbn [map]. change (Np.sum []) with 0. change (Np.of_nat (list_sum [])) with 0.
    unfold Qdiv. ring. }
  cbn [map]. change (Np.sum (?a :: ?r)) with (a + Np.sum r).
  change (list_sum (h x :: map h l)) with (h x + list_sum (map h l))%nat.
  rewrite IH, of_nat_plus. unfold Qdiv. ring.
Qed.

Lemma weighted_gap_bounds (w a c : Q) :
  0 <= w -> 0 <= a <= 1 -> 0 <= c <= 1 -> 0 <= w * Qabs (a - c) <= w.
Proof.
  intros Hw Ha Hc.
  pose proof (Qabs_nonneg (a - c)) as H0.
  assert (H1 : Qabs (a - c) <= 1) by (apply Qabs_Qle_condition; lra).
  set (g := Qabs (a - c)) in *. split; nra.
Qed.

Lemma bin_term_bounds (bins i : nat) (confs : list Q) (correct : list bool) :
  length confs = length correct -> (i < bins)%nat ->
  0 <= Spec.bin_term bins i confs correct <= Spec.bin_weight bins i confs.
Proof.
  intros Hlen Hi. unfold Spec.bin_term, Spec.bin_weight. cbv zeta.
  rewrite <- (bin_members_length bins i confs correct Hlen).
  set (members := Spec.bin_members bins i confs correct).
  destruct (length members =? 0)%nat eqn:E.
  - apply Nat.eqb_eq in E. rewrite E. change (Np.of_nat 0) with 0.
    unfold Qdiv. split; [lra|]. ring_simplify. lra.
  - apply Nat.eqb_neq in E.
    assert (Hp : 0 < Np.of_nat (length members)) by (apply of_nat_pos; lia).
    assert (Hn : 0 < Np.of_nat (length confs)).
    { apply of_nat_pos. unfold members in E.
      rewrite (bin_members_length bins i confs correct Hlen) in E.
      pose proof (filter_length_le (Spec.in_bin bins i) confs). lia. }
    apply weighted_gap_bounds.
    + apply div_nonneg; [apply of_nat_nonneg | exact Hn].
    + split; [apply div_nonneg; [apply of_nat_nonneg | exact Hp]|].
      apply div_le_1; [|exact Hp]. apply of_nat_le.
      rewrite <- (length_map snd members). apply count_true_le.
    + assert (HF : Forall (fun x => 0 <= x <= 1) (map fst members)).
      { apply Forall_map, Forall_forall. intros s Hs.
        apply filter_In in Hs as [_ Hs]. apply in_bin_iff in Hs as [Hlo Hhi].
        pose proof (edge_nonneg bins i). pose proof (edge_le_1 bins (S i) Hi).
        lra. }
      pose proof (sum_bounds 0 1 _ HF) as [Hs0 Hs1]. rewrite length_map in Hs0, Hs1.
      split; [apply div_nonneg; [lra | exact Hp]|].
      apply div_le_1; [lra | exact Hp].
Qed.

(** The weights of the first [m] bins add up to the share of the samples
    whose confidence lies between 0, excluded, and edge [m]. *)
Lemma weights_add_up (bins m : nat) (confs : list Q) :
  (m <= bins)%nat ->
  Np.sum (map (fun i => Spec.bin_weight bins i confs) (seq 0 m))
  == Np.of_nat (length (filter (Spec.in_first_bins bins m) confs))
     / Np.of_nat (length confs).
Proof.
  intros Hm. unfold Spec.bin_weight.
  rewrite (sum_of_shares (fun i => length (filter (Spec.in_bin bins i) confs))).
  rewrite populations_add_up by exact Hm. reflexivity.
Qed.

Lemma share_le_1 (k n : nat) : (k <= n)%nat -> Np.of_nat k / Np.of_nat n <= 1.
Proof.
  intros H. destruct n as [|n].
  - assert (k = 0)%nat as -> by lia.
    change (Np.of_nat 0) with 0. unfold Qdiv. rewrite Qmult_0_l. lra.
  - apply div_le_1; [apply of_nat_le; exact H | apply of_nat_pos; lia].
Qed.

Lemma ece_formula_bounds (bins : nat) (confs : list Q) (correct : list bool) :
  length confs = length correct ->
  0 <= Spec.ece_formula bins confs correct <= 1.
Proof.
  intros Hlen. unfold Spec.ece_formula. split.
  - apply sum_nonneg, Forall_map, Forall_forall. intros i Hi. apply in_seq in Hi.
    apply bin_term_bounds; [exact Hlen | lia].
  - apply Qle_trans
      with (Np.sum (map (fun i => Spec.bin_weight bins i confs) (seq 0 bins))).
    + apply sum_map_le. intros i Hi. apply in_seq in Hi.
      apply bin_term_bounds; [exact Hlen | lia].
    + rewrite weights_add_up by lia. apply share_le_1, filter_length_le.
Qed.

Lemma count_true_all (bs : list bool) :
  Forall (fun b => b = true) bs -> Np.count_true bs = length bs.
Proof.
  unfold Np.count_true. induction 1 as [|b bs -> _ IH]; simpl; [reflexivity | lia].
Qed.

Lemma sum_all_ones (xs : list Q) :
  Forall (fun x => x == 1) xs -> Np.sum xs == Np.of_nat (length xs).
Proof.
  induction 1 as [|x xs Hx _ IH]; [reflexivity|].
  change (Np.sum (x :: xs)) with (x + Np.sum xs). cbn [length].
  rewrite of_nat_S, IH, Hx. ring.
Qed.

(** A bin whose samples are all correct with confidence 1 adds nothing. *)
Lemma perfect_bin_term (bins i : nat) (confs : list Q) (correct : list bool) :
  Forall (fun s => fst s == 1 /\ snd s = true) (combine confs correct) ->
  Spec.bin_term bins i confs correct == 0.
Proof.
  intros H. unfold Spec.bin_term. cbv zeta.
  set (members := Spec.bin_members bins i confs correct).
  assert (Hm : Forall (fun s => fst s == 1 /\ snd s = true) members).
  { rewrite Forall_forall in *. intros s Hs. apply H.
    unfold members, Spec.bin_members in Hs. apply filter_In in Hs. tauto. }
  destruct (length members =? 0)%nat eqn:E; [reflexivity|].
  apply Nat.eqb_neq in E.
  assert (Hp : 0 < Np.of_nat (length members)) by (apply of_nat_pos; lia).
  rewrite count_true_all, sum_all_ones, !length_map.
  - setoid_replace (Np.of_nat (length members) / Np.of_nat (length members)
                    - Np.of_nat (length members) / Np.of_nat (length members))
      with 0 by ring.
    change (Qabs 0) with 0. ring.
  - apply Forall_map. eapply Forall_impl; [|exact Hm]. simpl; tauto.
  - apply Forall_map. eapply Forall_impl; [|exact Hm]. simpl; tauto.
Qed.

Lemma Forall_combine_nth {X Y : Type} (dx : X) (dy : Y) (Pr : X * Y -> Prop)
      (l1 : list X) (l2 : list Y) :
  length l1 = length l2 ->
  (forall j, (j < length l1)%nat -> Pr (nth j l1 dx, nth j l2 dy)) ->
  Forall Pr (combine l1 l2).
Proof.
  intros Hlen H. rewrite (combine_seq dx dy l1 l2 Hlen).
  apply Forall_map, Forall_seq. exact H.
Qed.

Lemma correct_of_nth (y_true : list string) (P : Np.ndarray2) (classes : list string)
      (j : nat) :
  length y_true = Np.nrows P -> (j < Np.nrows P)%nat ->
  nth j (Spec.correct_of y_true P classes) false
  = String.eqb (nth (Np.row_argmax (nth j (Np.rows P) [])) classes EmptyString)
               (nth j y_true EmptyString).
Proof.
  intros Hlen Hj. unfold Spec.correct_of.
  rewrite (nth_map_default _ (combine (Np.rows P) y_true) ([], EmptyString) false j)
    by (rewrite length_combine; unfold Np.nrows in *; lia).
  rewrite combine_nth by (unfold Np.nrows in Hlen; lia).
  reflexivity.
Qed.

Lemma samples_lengths (y_true : list string) (P : Np.ndarray2) (classes : list string) :
  length y_true = Np.nrows P ->
  length (Spec.confidences_of P) = Np.nrows P /\
  length (Spec.correct_of y_true P classes) = Np.nrows P.
Proof.
  intros Hlen. unfold Spec.confidences_of, Spec.correct_of, Np.nrows in *.
  rewrite !length_map, length_combine. lia.
Qed.

(** C2.  With one label per row, one column per class and at least one
    column, [expected_calibration_error] returns a value in [0, 1]
    (whatever the rows hold, rows summing to 1 included); and when in
    every row the class at the argmax is the true label and the maximum
    is 1, that value is 0. *)
Theorem ece_in_unit_interval (y_true : list string) (probas : Np.ndarray2)
        (classes : list string) (bins : nat) :
  Np.well_shaped probas ->
  (0 < Np.ncols probas)%nat ->
  Np.ncols probas = length classes ->
  length y_true = Np.nrows probas ->
  exists e,
    Metrics.expected_calibration_error y_true probas classes bins = Ok e /\
    0 <= e <= 1 /\
    ((forall j, (j < Np.nrows probas)%nat ->
        Np.row_max (nth j (Np.rows probas) []) == 1 /\
        nth_error classes (Np.row_argmax (nth j (Np.rows probas) []))
        = Some (nth j y_true EmptyString)) ->
     e == 0).
Proof.
  intros Hwf Hk Hc Hlen.
  destruct (ece_refines y_true probas classes bins Hwf Hk) as (e & Hrun & He);
    [lia | exact Hlen |].
  destruct (samples_lengths y_true probas classes Hlen) as [Hl1 Hl2].
  exists e. split; [exact Hrun|]. rewrite He. split.
  - apply ece_formula_bounds. congruence.
  - intros Hperfect. unfold Spec.ece_formula.
    apply sum_zero_iff.
    + apply Forall_map, Forall_forall. intros i Hi. apply in_seq in Hi.
      apply bin_term_bounds; [congruence | lia].
    + apply Forall_map, Forall_forall. intros i _.
      apply perfect_bin_term.
      apply (Forall_combine_nth 0 false); [congruence|].
      intros j Hj. rewrite Hl1 in Hj. cbn [fst snd].
      destruct (Hperfect j Hj) as [Hmax Hcls].
      split.
      * unfold Spec.confidences_of.
        rewrite (nth_map_default Np.row_max (Np.rows probas) [] 0 j Hj). exact Hmax.
      * rewrite correct_of_nth by assumption.
        rewrite (nth_error_nth _ _ EmptyString Hcls). apply String.eqb_refl.
Qed.

End Calibration.

(** ** Expected calibration error: the binning scheme *)

Section BinningScheme.

Local Open Scope Q_scope.






End BinningScheme.

(** ** Under the precondition no sample is dropped *)

Section NoDrop.

Local Open Scope Q_scope.






Lemma filter_all {X : Type} (p : X -> bool) (l : list X) :
  Forall (fun x => p x = true) l -> filter p l = l.
Proof.
  induction 1 as [|x l Hx _ IH]; simpl; [reflexivity|].
  rewrite Hx, IH. reflexivity.
Qed.






End NoDrop.

(** ** evaluate on badly shaped input *)

Section Shapes.

Local Open Scope Q_scope.

Lemma argmax_axis1_fault (P : Np.ndarray2) (e : fault) :
  Np.argmax_axis1 P = Raise e -> e = ValueError.
Proof.
  unfold Np.argmax_axis1. destruct (Np.ncols P =? 0)%nat; congruence.
Qed.

Lemma take_fault (classes : list string) (idx : list nat) (e : fault) :
  Np.take classes idx = Raise e -> e = IndexError.
Proof.
  unfold Np.take. induction idx as [|i idx IH]; simpl; [discriminate|].
  destruct (nth_error classes i); simpl; [|congruence].
  destruct (sequence _) eqn:E; simpl; [discriminate|].
  intros H; injection H as <-. apply IH. reflexivity.
Qed.

Lemma check_targets_fault (y p : list string) (e : fault) :
  Sk.check_targets y p = Raise e -> e = ValueError.
Proof.
  unfold Sk.check_targets.
  destruct (negb _); [congruence|]. destruct (_ =? 0)%nat; congruence.
Qed.

Lemma classification_report_fault (y p : list string) (e : fault) :
  Sk.classification_report y p = Raise e -> e = ValueError.
Proof.
  unfold Sk.classification_report.
  destruct (Sk.check_targets y p) eqn:E; simpl; [discriminate|].
  intros H; injection H as <-. eapply check_targets_fault; eassumption.
Qed.

Lemma confusion_matrix_fault (y p labels : list string) (e : fault) :
  Sk.confusion_matrix y p labels = Raise e -> e = ValueError.
Proof.
  unfold Sk.confusion_matrix.
  destruct (Sk.check_targets y p) eqn:E; simpl.
  - destruct (length labels =? 0)%nat; [congruence|].
    destruct (negb _); congruence.
  - intros H; injection H as <-. eapply check_targets_fault; eassumption.
Qed.

Lemma brier_score_loss_fault (y_bin : list Z) (p : list Q) (e : fault) :
  Sk.brier_score_loss y_bin p = Raise e -> e = ValueError.
Proof.
  unfold Sk.brier_score_loss.
  destruct (negb _) eqn:E1; [congruence|].
  destruct (length p =? 0)%nat eqn:E2; [congruence|].
  destruct (existsb _ p); [congruence|].
  apply negb_false_iff, Nat.eqb_eq in E1. apply Nat.eqb_neq in E2.
  destruct y_bin, p; simpl in *; try lia. discriminate.
Qed.

Lemma brier_scores_fault (y : list string) (P : Np.ndarray2) (classes : list string)
      (i : nat) (e : fault) :
  Metrics.brier_scores y P i classes = Raise e -> Spec.shape_fault e.
Proof.
  revert i; induction classes as [|c rest IH]; intros i; simpl; [discriminate|].
  unfold Np.column. destruct (i <? Np.ncols P)%nat; simpl.
  - destruct (Sk.brier_score_loss _ _) eqn:E; simpl.
    + destruct (Metrics.brier_scores y P (S i) rest) eqn:E2; simpl; [discriminate|].
      intros H; injection H as <-. eapply IH; eassumption.
    + intros H; injection H as <-. right. eapply brier_score_loss_fault; eassumption.
  - intros H; injection H as <-. left; reflexivity.
Qed.

(** With more classes than columns the loop of [multiclass_brier] runs
    off the matrix. *)
Lemma brier_scores_short (y : list string) (P : Np.ndarray2) (classes : list string)
      (i : nat) :
  (i <= Np.ncols P)%nat ->
  (Np.ncols P < i + length classes)%nat ->
  failed (Metrics.brier_scores y P i classes).
Proof.
  revert i; induction classes as [|c rest IH]; intros i Hle Hi; simpl in *; [lia|].
  unfold Np.column. destruct (i <? Np.ncols P)%nat eqn:E; simpl.
  - apply Nat.ltb_lt in E.
    destruct (Sk.brier_score_loss _ _); simpl; [|eexists; reflexivity].
    destruct (IH (S i)) as (e & He); [lia | lia |]. rewrite He. eexists; reflexivity.
  - eexists; reflexivity.
Qed.

(** C6 (as the code has it).  [evaluate] makes no shape check of its own.
    When the row count differs from the label count, or the matrix has
    fewer columns than there are classes, it still returns no result: the
    first numpy or scikit-learn call that trips raises, a [ValueError] or
    an [IndexError]. *)
Theorem evaluate_shape_failures (y_true : list string) (probas : Np.ndarray2)
        (classes : list string) :
  Np.nrows probas <> length y_true \/ (Np.ncols probas < length classes)%nat ->
  exists e, Metrics.evaluate y_true probas classes = Raise e /\ Spec.shape_fault e.
Proof.
  intros Hshape. unfold Metrics.evaluate.
  destruct (Np.argmax_axis1 probas) as [idx|e] eqn:Hidx; cbn [bind].
  2:{ exists e. split; [reflexivity|]. right. eapply argmax_axis1_fault; eassumption. }
  destruct (Np.take classes idx) as [preds|e] eqn:Hpreds; cbn [bind].
  2:{ exists e. split; [reflexivity|]. left. eapply take_fault; eassumption. }
  destruct (Sk.classification_report y_true preds) as [rpt|e] eqn:Hrpt; cbn [bind].
  2:{ exists e. split; [reflexivity|]. right. eapply classification_report_fault; eassumption. }
  destruct (Sk.confusion_matrix y_true preds classes) as [cm|e] eqn:Hcm; cbn [bind].
  2:{ exists e. split; [reflexivity|]. right. eapply confusion_matrix_fault; eassumption. }
  assert (Hcols : (Np.ncols probas < length classes)%nat).
  { destruct Hshape as [Hrows|Hcols]; [exfalso | exact Hcols].
    apply argmax_axis1_ok in Hidx as (_ & ->).
    apply sequence_ok_length in Hpreds. rewrite !length_map in Hpreds.
    unfold Sk.classification_report, Sk.check_targets in Hrpt.
    destruct (negb (length y_true =? length preds)%nat) eqn:E; [discriminate|].
    apply negb_false_iff, Nat.eqb_eq in E. unfold Np.nrows in Hrows. lia. }
  destruct (brier_scores_short y_true probas classes 0%nat) as (e & He); [lia | lia |].
  unfold Metrics.multiclass_brier. rewrite He. cbn [bind].
  exists e. split; [reflexivity|]. eapply brier_scores_fault; eassumption.
Qed.

Lemma evaluate_shape_failures_witness :
  exists e, Metrics.evaluate [Spec.A; Spec.B] Spec.wide_probas [Spec.A] = Raise e /\
            Spec.shape_fault e.
Proof.
  apply (evaluate_shape_failures [Spec.A; Spec.B] Spec.wide_probas [Spec.A]).
  left. cbv. lia.
Defined.

(** With one column more than there are classes [evaluate] returns a full
    result, computed on the leading columns. *)
Lemma extra_column_is_accepted :
  Np.ncols Spec.wide_probas = 2%nat /\ length [Spec.A] = 1%nat /\
  exists res, Metrics.evaluate [Spec.A] Spec.wide_probas [Spec.A] = Ok res /\
              Metrics.confusion res = [[1%nat]] /\
              Metrics.brier res == 0 /\ Metrics.ece res == 0.
Proof.
  split; [reflexivity|]. split; [reflexivity|].
  eexists. split; [vm_compute; reflexivity|].
  split; [reflexivity|]. split; reflexivity.
Qed.

(** With a column missing the failure comes late: the report and the
    confusion matrix are computed first, then [multiclass_brier] indexes
    past the last column. *)
Example missing_column_fails_late :
  let probas := {| Np.ncols := 1; Np.rows := [[1]; [1]] |} in
  (exists preds rpt cm,
     (idx <- Np.argmax_axis1 probas ;; Np.take [Spec.A; Spec.B] idx) = Ok preds /\
     Sk.classification_report [Spec.A; Spec.B] preds = Ok rpt /\
     Sk.confusion_matrix [Spec.A; Spec.B] preds [Spec.A; Spec.B] = Ok cm) /\
  Metrics.multiclass_brier [Spec.A; Spec.B] probas [Spec.A; Spec.B] = Raise IndexError /\
  Metrics.evaluate [Spec.A; Spec.B] probas [Spec.A; Spec.B] = Raise IndexError.
Proof.
  cbv zeta. split; [|split; vm_compute; reflexivity].
  do 3 eexists. split; [vm_compute; reflexivity|].
  split; vm_compute; reflexivity.
Qed.

End Shapes.

(** ** The classification report *)

Section Report.

Local Open Scope Q_scope.

Lemma insert_label_In (s x : string) (l : list string) :
  In x (Sk.insert_label s l) <-> x = s \/ In x l.
Proof.
  induction l as [|y l IH]; simpl; [intuition congruence|].
  destruct (String.leb s y); simpl; [intuition congruence|].
  rewrite IH. intuition congruence.
Qed.

Lemma sort_labels_In (x : string) (l : list string) :
  In x (Sk.sort_labels l) <-> In x l.
Proof.
  unfold Sk.sort_labels. induction l as [|y l IH]; simpl; [tauto|].
  rewrite insert_label_In, IH. intuition congruence.
Qed.

Lemma unique_labels_In (x : string) (y p : list string) :
  In x (Sk.unique_labels y p) <-> In x y \/ In x p.
Proof.
  unfold Sk.unique_labels. rewrite sort_labels_In, nodup_In. apply in_app_iff.
Qed.

Lemma lookup_combine (f : string -> Sk.report_row) (c : string) (labels : list string) :
  Sk.lookup c (combine labels (map f labels))
  = if in_dec string_dec c labels then Some (f c) else None.
Proof.
  induction labels as [|l labels IH]; simpl; [reflexivity|].
  destruct (String.eqb l c) eqn:E.
  - apply String.eqb_eq in E. subst l.
    destruct (string_dec c c); [reflexivity | congruence].
  - apply String.eqb_neq in E. rewrite IH.
    destruct (string_dec l c); [congruence|].
    destruct (in_dec string_dec c labels); reflexivity.
Qed.

(** The report has a row for a label exactly when the label occurs among
    the true or the predicted labels; the row holds the four statistics
    of that label. *)
Lemma report_rows (y preds : list string) (r : Sk.report) (c : string) :
  Sk.classification_report y preds = Ok r ->
  (In c y \/ In c preds -> Sk.lookup c (Sk.per_label r) = Some (Sk.row_of c y preds)) /\
  (~ In c y -> ~ In c preds -> Sk.lookup c (Sk.per_label r) = None).
Proof.
  unfold Sk.classification_report.
  destruct (Sk.check_targets y preds); simpl; [|discriminate].
  intros H; injection H as <-. cbn [Sk.per_label].
  rewrite lookup_combine.
  destruct (in_dec string_dec c (Sk.unique_labels y preds)) as [Hin|Hout].
  - apply unique_labels_In in Hin. split; [reflexivity | tauto].
  - rewrite unique_labels_In in Hout. split; [tauto | reflexivity].
Qed.

(** The statistics of a row, with 0 where the ratio is undefined. *)
Lemma row_statistics (c : string) (y preds : list string) :
  let tp := Sk.count_pair c c y preds in
  let predicted := Sk.count_label c preds in
  let actual := Sk.count_label c y in
  let row := Sk.row_of c y preds in
  Sk.support row = actual /\
  (predicted = O -> Sk.precision row = 0) /\
  (predicted <> O -> Sk.precision row = Np.of_nat tp / Np.of_nat predicted) /\
  (actual = O -> Sk.recall row = 0) /\
  (actual <> O -> Sk.recall row = Np.of_nat tp / Np.of_nat actual) /\
  (Sk.precision row + Sk.recall row == 0 -> Sk.f1_score row = 0) /\
  (~ Sk.precision row + Sk.recall row == 0 ->
   Sk.f1_score row
   = 2 * Sk.precision row * Sk.recall row / (Sk.precision row + Sk.recall row)).
Proof.
  cbv zeta. unfold Sk.row_of, Sk.ratio, Sk.harmonic. cbn [Sk.support Sk.precision Sk.recall Sk.f1_score].
  repeat split.
  - intros ->. reflexivity.
  - intros H. apply Nat.eqb_neq in H. rewrite H. reflexivity.
  - intros ->. reflexivity.
  - intros H. apply Nat.eqb_neq in H. rewrite H. reflexivity.
  - intros H. apply Qeq_bool_iff in H. rewrite H. reflexivity.
  - intros H. destruct (Qeq_bool _ 0) eqn:E; [|reflexivity].
    apply Qeq_bool_iff in E. contradiction.
Qed.

(** C8 at a class list with a class that neither occurs nor is
    predicted: [evaluate] returns a result whose 3 x 3 confusion matrix
    has a row for class C, but whose report has rows for A and B only;
    the macro average is taken over those two rows (F1 = 1, not 2/3). *)
Theorem report_misses_absent_class :
  In Spec.C [Spec.A; Spec.B; Spec.C] /\
  exists res,
    Metrics.evaluate [Spec.A; Spec.B] Spec.certain_probas [Spec.A; Spec.B; Spec.C] = Ok res /\
    map fst (Sk.per_label (Metrics.report res)) = [Spec.A; Spec.B] /\
    Sk.lookup Spec.C (Sk.per_label (Metrics.report res)) = None /\
    Metrics.confusion res = [[1; 0; 0]; [0; 1; 0]; [0; 0; 0]]%nat /\
    Sk.f1_score (Sk.macro_avg (Metrics.report res)) == 1.
Proof.
  split; [simpl; tauto|].
  eexists. split; [vm_compute; reflexivity|].
  repeat split; reflexivity.
Qed.

End Report.

(** ** Sorting and percentiles *)

Section Percentile.

Local Open Scope Q_scope.

Lemma insert_sorted_In (x z : Q) (l : list Q) :
  In z (RunCV.insert_sorted x l) <-> z = x \/ In z l.
Proof.
  induction l as [|y l IH]; simpl; [intuition congruence|].
  destruct (Qle_bool x y); simpl; [intuition congruence|].
  rewrite IH. intuition congruence.
Qed.

Lemma sort_In (z : Q) (l : list Q) : In z (RunCV.sort l) <-> In z l.
Proof.
  unfold RunCV.sort. induction l as [|y l IH]; simpl; [tauto|].
  rewrite insert_sorted_In, IH. intuition congruence.
Qed.

Lemma insert_sorted_length (x : Q) (l : list Q) :
  length (RunCV.insert_sorted x l) = S (length l).
Proof.
  induction l as [|y l IH]; simpl; [reflexivity|].
  destruct (Qle_bool x y); simpl; [reflexivity | rewrite IH; reflexivity].
Qed.

Lemma sort_length (l : list Q) : length (RunCV.sort l) = length l.
Proof.
  unfold RunCV.sort. induction l as [|y l IH]; simpl; [reflexivity|].
  rewrite insert_sorted_length, IH. reflexivity.
Qed.

Lemma insert_sorted_sorted (x : Q) (l : list Q) :
  StronglySorted Qle l -> StronglySorted Qle (RunCV.insert_sorted x l).
Proof.
  induction 1 as [|y l Hs IH Hy]; simpl.
  - constructor; constructor.
  - destruct (Qle_bool x y) eqn:E.
    + apply Qle_bool_iff in E. constructor; [constructor; assumption|].
      constructor; [exact E|].
      eapply Forall_impl; [|exact Hy]. intros z Hz. apply Qle_trans with y; assumption.
    + apply Qle_bool_false in E. constructor; [exact IH|].
      apply Forall_forall. intros z Hz. apply insert_sorted_In in Hz as [->|Hz].
      * apply Qlt_le_weak. exact E.
      * rewrite Forall_forall in Hy. auto.
Qed.

Lemma sort_sorted (l : list Q) : StronglySorted Qle (RunCV.sort l).
Proof.
  unfold RunCV.sort. induction l as [|y l IH]; simpl; [constructor|].
  apply insert_sorted_sorted. exact IH.
Qed.

Lemma sorted_ascending (l : list Q) : StronglySorted Qle l -> Spec.ascending l.
Proof.
  induction 1 as [|y l Hs IH Hy]; intros i k Hik Hk; simpl in Hk; [lia|].
  destruct k as [|k].
  - assert (i = 0)%nat as -> by lia. apply Qle_refl.
  - destruct i as [|i]; simpl.
    + rewrite Forall_forall in Hy. apply Hy, nth_In. lia.
    + apply IH; lia.
Qed.

Lemma sort_ascending (l : list Q) : Spec.ascending (RunCV.sort l).
Proof. apply sorted_ascending, sort_sorted. Qed.

Lemma virtual_index_range (m : nat) (q : Q) :
  0 <= q <= 100 -> 0 <= Np.of_nat m * q / 100 <= Np.of_nat m.
Proof.
  intros [H0 H1]. pose proof (of_nat_nonneg m) as Hm.
  set (N := Np.of_nat m) in *. split.
  - apply Qle_shift_div_l; [lra | nra].
  - apply Qle_shift_div_r; [lra | nra].
Qed.

Lemma floor_index (h : Q) (m : nat) :
  0 <= h <= Np.of_nat m ->
  (Z.to_nat (Qfloor h) <= m)%nat /\
  inject_Z (Qfloor h) = Np.of_nat (Z.to_nat (Qfloor h)) /\
  inject_Z (Qfloor h) <= h /\ h < inject_Z (Qfloor h) + 1.
Proof.
  intros [H0 H1].
  assert (Hf0 : (0 <= Qfloor h)%Z) by (apply (Qfloor_resp_le 0 h H0)).
  assert (Hf1 : (Qfloor h <= Z.of_nat m)%Z).
  { pose proof (Qfloor_resp_le _ _ H1) as H. unfold Np.of_nat in H.
    rewrite Qfloor_Z in H. exact H. }
  split; [lia|]. split.
  - unfold Np.of_nat. rewrite Z2Nat.id by exact Hf0. reflexivity.
  - split; [apply Qfloor_le|].
    pose proof (Qlt_floor h) as H. rewrite inject_Z_plus in H. exact H.
Qed.

Lemma floor_mono_nat (h1 h2 : Q) :
  0 <= h1 -> h1 <= h2 -> (Z.to_nat (Qfloor h1) <= Z.to_nat (Qfloor h2))%nat.
Proof.
  intros H0 H. pose proof (Qfloor_resp_le _ _ H).
  pose proof (Qfloor_resp_le 0 h1 H0). change (Qfloor 0) with 0%Z in *. lia.
Qed.

(** The interpolated value lies between the two entries it blends. *)
Lemma interpolate_between (l : list Q) (q : Q) :
  Spec.ascending l -> (0 < length l)%nat -> 0 <= q <= 100 ->
  let j := Z.to_nat (Qfloor (Np.of_nat (length l - 1) * q / 100)) in
  (j <= length l - 1)%nat /\
  nth j l 0 <= RunCV.interpolate l q <= nth (Nat.min (S j) (length l - 1)) l 0.
Proof.
  intros Hasc Hn Hq. cbv zeta. unfold RunCV.interpolate.
  set (h := Np.of_nat (length l - 1) * q / 100).
  destruct (floor_index h (length l - 1) (virtual_index_range _ q Hq))
    as (Hj & _ & Hlo & Hhi).
  set (j := Z.to_nat (Qfloor h)) in *.
  split; [exact Hj|].
  assert (Hle : nth j l 0 <= nth (Nat.min (S j) (length l - 1)) l 0)
    by (apply Hasc; lia).
  set (below := nth j l 0) in *.
  set (above := nth (Nat.min (S j) (length l - 1)) l 0) in *.
  set (g := h - inject_Z (Qfloor h)).
  assert (Hg : 0 <= g <= 1) by (unfold g; lra).
  split; nra.
Qed.

(** A larger percentile of the same data is not smaller. *)
Lemma interpolate_mono (l : list Q) (q1 q2 : Q) :
  Spec.ascending l -> (0 < length l)%nat ->
  0 <= q1 -> q1 <= q2 -> q2 <= 100 ->
  RunCV.interpolate l q1 <= RunCV.interpolate l q2.
Proof.
  intros Hasc Hn H0 H12 H100.
  assert (Hq1 : 0 <= q1 <= 100) by lra.
  assert (Hq2 : 0 <= q2 <= 100) by lra.
  destruct (interpolate_between l q1 Hasc Hn Hq1) as (Hj1 & Hb1 & Ha1).
  destruct (interpolate_between l q2 Hasc Hn Hq2) as (Hj2 & Hb2 & Ha2).
  set (h1 := Np.of_nat (length l - 1) * q1 / 100) in *.
  set (h2 := Np.of_nat (length l - 1) * q2 / 100) in *.
  assert (Hh : h1 <= h2).
  { unfold h1, h2. pose proof (of_nat_nonneg (length l - 1)) as HN.
    set (N := Np.of_nat (length l - 1)) in *.
    apply Qle_shift_div_l; [lra|].
    setoid_replace (N * q1 / 100 * 100) with (N * q1) by (field).
    nra. }
  destruct (virtual_index_range (length l - 1) q1 Hq1) as [Hh1 _]. fold h1 in Hh1.
  pose proof (floor_mono_nat h1 h2 Hh1 Hh) as Hjj.
  set (j1 := Z.to_nat (Qfloor h1)) in *.
  set (j2 := Z.to_nat (Qfloor h2)) in *.
  destruct (Nat.eq_dec j1 j2) as [E|Hne].
  - unfold RunCV.interpolate. fold h1 h2. fold j1 j2.
    assert (Ef : Qfloor h1 = Qfloor h2).
    { destruct (floor_index h1 (length l - 1) (virtual_index_range _ q1 Hq1)) as (_ & E1 & _).
      destruct (floor_index h2 (length l - 1) (virtual_index_range _ q2 Hq2)) as (_ & E2 & _).
      fold h1 in E1. fold h2 in E2. fold j1 in E1. fold j2 in E2.
      rewrite E in E1. rewrite <- E2 in E1.
      injection E1 as E1. exact E1. }
    rewrite Ef, E.
    assert (Hle : nth j2 l 0 <= nth (Nat.min (S j2) (length l - 1)) l 0)
      by (apply Hasc; lia).
    set (below := nth j2 l 0) in *.
    set (above := nth (Nat.min (S j2) (length l - 1)) l 0) in *.
    nra.
  - apply Qle_trans with (nth (Nat.min (S j1) (length l - 1)) l 0); [exact Ha1|].
    apply Qle_trans with (nth j2 l 0); [|exact Hb2].
    apply Hasc; lia.
Qed.

End Percentile.

(** ** bootstrap_ci *)

Section Bootstrap.

Local Open Scope Q_scope.

Variable G : RunCV.BitGenerator.

Lemma draw_spec (s : RunCV.gen_state G) (bound size : nat) :
  (0 < bound)%nat ->
  length (fst (RunCV.draw G s bound size)) = size /\
  Forall (fun i => (i < bound)%nat) (fst (RunCV.draw G s bound size)).
Proof.
  intros Hb. revert s; induction size as [|size IH]; intros s; simpl.
  - split; [reflexivity | constructor].
  - pose proof (RunCV.integers_bound G s bound Hb) as Hi.
    destruct (RunCV.integers G s bound) as [i s1]. simpl in Hi.
    specialize (IH s1). destruct (RunCV.draw G s1 bound size) as [rest s2].
    simpl in *. destruct IH as [IH1 IH2].
    split; [lia | constructor; assumption].
Qed.

(** A resample has the size asked for and holds entries of [values]. *)
Lemma choice_spec (s : RunCV.gen_state G) (values : list Q) (size : nat) :
  values <> [] ->
  length (fst (RunCV.choice G s values size)) = size /\
  Forall (fun x => In x values) (fst (RunCV.choice G s values size)).
Proof.
  intros Hv. unfold RunCV.choice.
  assert (Hb : (0 < length values)%nat) by (destruct values; [congruence | simpl; lia]).
  destruct (draw_spec s (length values) size Hb) as [Hl Hf].
  destruct (RunCV.draw G s (length values) size) as [idx s']. simpl in *.
  split; [rewrite length_map; exact Hl|].
  apply Forall_map. eapply Forall_impl; [|exact Hf].
  intros i Hi. apply nth_In. exact Hi.
Qed.

(** With data to resample every turn of the loop appends a number: the
    mean of a non-empty sample of entries of [values]. *)
Lemma resample_means_ok (values : list Q) (n_boot : nat) :
  values <> [] ->
  forall rng, exists boots,
    sequence (RunCV.resample_means G rng values n_boot) = Ok boots /\
    length boots = n_boot /\
    Forall (fun b => exists sample,
                sample <> [] /\ Forall (fun x => In x values) sample /\
                b = Np.sum sample / Np.of_nat (length sample)) boots.
Proof.
  intros Hv. induction n_boot as [|n IH]; intros rng; simpl.
  - exists []. repeat split; constructor.
  - destruct (choice_spec rng values (length values) Hv) as [Hl Hf].
    destruct (RunCV.choice G rng values (length values)) as [sample rng'].
    simpl in Hl, Hf.
    assert (Hs : sample <> [])
      by (intros ->; simpl in Hl; destruct values; [congruence | discriminate]).
    destruct (IH rng') as (boots & Hseq & Hlen & Hall).
    exists (Np.sum sample / Np.of_nat (length sample) :: boots).
    simpl. rewrite (mean_ok sample Hs). cbn [bind]. rewrite Hseq. cbn [bind].
    repeat split; [simpl; lia|].
    constructor; [|exact Hall]. exists sample. auto.
Qed.

Lemma percentile_ok (a : list (outcome Q)) (boots : list Q) (q : Q) :
  sequence a = Ok boots -> boots <> [] -> 0 <= q <= 100 ->
  RunCV.percentile a q = Ok (RunCV.interpolate (RunCV.sort boots) q).
Proof.
  intros Hseq Hne [H0 H1]. unfold RunCV.percentile.
  rewrite (proj2 (Qltb_ge q 0) H0), (proj2 (Qltb_ge 100 q) H1).
  cbn [orb]. destruct a as [|x a'].
  - simpl in Hseq. injection Hseq as <-. congruence.
  - rewrite Hseq. reflexivity.
Qed.

Lemma percentile_rejects (a : list (outcome Q)) (q : Q) :
  q < 0 \/ 100 < q -> RunCV.percentile a q = Raise ValueError.
Proof.
  intros H. unfold RunCV.percentile.
  destruct H as [H|H]; apply Qltb_lt in H; rewrite H; [reflexivity|].
  rewrite orb_true_r. reflexivity.
Qed.

Lemma sum_constant (c : Q) (xs : list Q) :
  Forall (fun x => x == c) xs -> Np.sum xs == Np.of_nat (length xs) * c.
Proof.
  induction 1 as [|x xs Hx _ IH].
  - change (Np.sum []) with 0. change (Np.of_nat (length (@nil Q))) with 0. ring.
  - change (Np.sum (x :: xs)) with (x + Np.sum xs). cbn [length].
    rewrite of_nat_S, IH, Hx. ring.
Qed.

Lemma mean_constant (c : Q) (xs : list Q) :
  xs <> [] -> Forall (fun x => x == c) xs ->
  Np.sum xs / Np.of_nat (length xs) == c.
Proof.
  intros Hne H. rewrite (sum_constant c xs H).
  assert (0 < Np.of_nat (length xs))
    by (apply of_nat_pos; destruct xs; [congruence | simpl; lia]).
  field. lra.
Qed.

(** Percentiles of data that is all [c] are [c]. *)
Lemma interpolate_constant (c : Q) (l : list Q) (q : Q) :
  (0 < length l)%nat -> 0 <= q <= 100 -> Forall (fun x => x == c) l ->
  RunCV.interpolate l q == c.
Proof.
  intros Hn Hq Hall. unfold RunCV.interpolate.
  set (h := Np.of_nat (length l - 1) * q / 100).
  destruct (floor_index h (length l - 1) (virtual_index_range _ q Hq)) as (Hj & _).
  set (j := Z.to_nat (Qfloor h)) in *.
  rewrite Forall_forall in Hall.
  rewrite (Hall (nth j l 0)) by (apply nth_In; lia).
  rewrite (Hall (nth (Nat.min (S j) (length l - 1)) l 0)) by (apply nth_In; lia).
  ring.
Qed.

Lemma percentile_ranks (alpha : Q) :
  100 * (alpha / 2) == 50 * alpha /\ 100 * (1 - alpha / 2) == 100 - 50 * alpha.
Proof. split; field. Qed.

Lemma default_rng_seeded (seed : Z) (w : RunCV.World) :
  (0 <= seed)%Z ->
  RunCV.default_rng G (Some seed) w = (Ok (RunCV.seed_state G seed), w).
Proof.
  intros H. unfold RunCV.default_rng.
  destruct (seed <? 0)%Z eqn:E; [apply Z.ltb_lt in E; lia | reflexivity].
Qed.

(** C4 (as the code has it).  For data to resample, at least one
    resample, a seed numpy accepts and a significance level between 0 and
    2 (so that both percentiles exist), [bootstrap_ci] returns a pair;
    [lo <= hi] when the level is at most 1; on a constant input the two
    ends coincide, both being [np.mean(values)] (every resample holds the
    same values: the constant itself, up to the rounding of that mean);
    and on a single value both ends are that value. *)
Theorem bootstrap_ci_ordered (values : list Q) (n_boot : nat) (alpha : Q) (seed : Z)
        (w : RunCV.World) :
  values <> [] -> (0 < n_boot)%nat -> 0 <= alpha -> alpha <= 2 -> (0 <= seed)%Z ->
  exists lo hi,
    fst (RunCV.bootstrap_ci G values n_boot alpha seed w) = Ok (lo, hi) /\
    (alpha <= 1 -> lo <= hi) /\
    (forall c, Forall (fun v => v == c) values ->
       lo == hi /\ exists m, Np.mean values = Ok m /\ lo == m /\ hi == m) /\
    (forall v, values = [v] -> lo == v /\ hi == v).
Proof.
  intros Hv Hn Ha0 Ha2 Hseed.
  unfold RunCV.bootstrap_ci. rewrite (default_rng_seeded seed w Hseed). cbn [fst bind].
  destruct (resample_means_ok values n_boot Hv (RunCV.seed_state G seed))
    as (boots & Hseq & Hlen & Hall).
  assert (Hne : boots <> []) by (intros ->; simpl in Hlen; lia).
  destruct (percentile_ranks alpha) as [Elo Ehi].
  assert (Hqlo : 0 <= 100 * (alpha / 2) <= 100) by (rewrite Elo; split; lra).
  assert (Hqhi : 0 <= 100 * (1 - alpha / 2) <= 100) by (rewrite Ehi; split; lra).
  rewrite (percentile_ok _ boots _ Hseq Hne Hqlo). cbn [bind].
  rewrite (percentile_ok _ boots _ Hseq Hne Hqhi). cbn [bind].
  assert (Hsl : (0 < length (RunCV.sort boots))%nat) by (rewrite sort_length; lia).
  assert (Hconst : forall c, Forall (fun v => v == c) values ->
            RunCV.interpolate (RunCV.sort boots) (100 * (alpha / 2)) == c /\
            RunCV.interpolate (RunCV.sort boots) (100 * (1 - alpha / 2)) == c).
  { intros c Hc.
    assert (Hb : Forall (fun x => x == c) (RunCV.sort boots)).
    { apply Forall_forall. intros b Hb. apply (proj1 (sort_In b boots)) in Hb.
      rewrite Forall_forall in Hall. destruct (Hall b Hb) as (sample & Hs & Hin & ->).
      apply mean_constant; [exact Hs|].
      rewrite Forall_forall in *. intros x Hx. apply Hc, Hin, Hx. }
    split; apply interpolate_constant; assumption. }
  do 2 eexists. split; [reflexivity|]. split; [|split].
  - intros Ha1.
    apply interpolate_mono; [apply sort_ascending | exact Hsl | lra | lra | lra].
  - intros c Hc. destruct (Hconst c Hc) as [Elo' Ehi'].
    split; [rewrite Elo', Ehi'; reflexivity|].
    eexists. split; [apply (mean_ok values Hv)|].
    rewrite Elo', Ehi', (mean_constant c values Hv Hc). split; reflexivity.
  - intros v ->. apply Hconst. constructor; [reflexivity | constructor].
Qed.

(** A significance level outside [0, 2] asks for a percentile outside
    [0, 100], which numpy rejects. *)
Lemma bootstrap_ci_alpha_rejected (values : list Q) (n_boot : nat) (alpha : Q) (seed : Z)
      (w : RunCV.World) :
  alpha < 0 \/ 2 < alpha ->
  fst (RunCV.bootstrap_ci G values n_boot alpha seed w) = Raise ValueError.
Proof.
  intros Ha. unfold RunCV.bootstrap_ci, RunCV.default_rng.
  destruct (seed <? 0)%Z; cbn [fst bind]; [reflexivity|].
  rewrite percentile_rejects; [reflexivity|].
  destruct (percentile_ranks alpha) as [Elo _]. rewrite Elo.
  destruct Ha; [left | right]; lra.
Qed.

(** Between 1 and 2 the two percentiles swap: the pair comes out in the
    opposite order. *)
Lemma bootstrap_ci_reversed (values : list Q) (n_boot : nat) (alpha : Q) (seed : Z)
      (w : RunCV.World) :
  values <> [] -> (0 < n_boot)%nat -> 1 <= alpha -> alpha <= 2 -> (0 <= seed)%Z ->
  exists lo hi,
    fst (RunCV.bootstrap_ci G values n_boot alpha seed w) = Ok (lo, hi) /\ hi <= lo.
Proof.
  intros Hv Hn Ha0 Ha1 Hseed.
  unfold RunCV.bootstrap_ci. rewrite (default_rng_seeded seed w Hseed). cbn [fst bind].
  destruct (resample_means_ok values n_boot Hv (RunCV.seed_state G seed))
    as (boots & Hseq & Hlen & Hall).
  assert (Hne : boots <> []) by (intros ->; simpl in Hlen; lia).
  destruct (percentile_ranks alpha) as [Elo Ehi].
  assert (Hqlo : 0 <= 100 * (alpha / 2) <= 100) by (rewrite Elo; split; lra).
  assert (Hqhi : 0 <= 100 * (1 - alpha / 2) <= 100) by (rewrite Ehi; split; lra).
  rewrite (percentile_ok _ boots _ Hseq Hne Hqlo). cbn [bind].
  rewrite (percentile_ok _ boots _ Hseq Hne Hqhi). cbn [bind].
  do 2 eexists. split; [reflexivity|].
  apply interpolate_mono;
    [apply sort_ascending | rewrite sort_length; lia | lra | lra | lra].
Qed.

(** C5.  The result of [bootstrap_ci] is a function of its four
    arguments: it is the same in every state of the world outside the
    call, and the call consumes none of the operating system's entropy. *)
Theorem bootstrap_ci_deterministic (values : list Q) (n_boot : nat) (alpha : Q) (seed : Z)
        (w1 w2 : RunCV.World) :
  fst (RunCV.bootstrap_ci G values n_boot alpha seed w1)
  = fst (RunCV.bootstrap_ci G values n_boot alpha seed w2) /\
  snd (RunCV.bootstrap_ci G values n_boot alpha seed w1) = w1.
Proof.
  unfold RunCV.bootstrap_ci, RunCV.default_rng.
  destruct (seed <? 0)%Z; split; reflexivity.
Qed.

(** A generator built without a seed does depend on the world: it reads
    the entropy and moves the cursor. *)
Lemma unseeded_generator_reads_entropy (w : RunCV.World) :
  RunCV.default_rng G None w
  = (Ok (RunCV.seed_state G (Z.abs (RunCV.os_entropy w (RunCV.consumed w)))),
     {| RunCV.os_entropy := RunCV.os_entropy w; RunCV.consumed := S (RunCV.consumed w) |}).
Proof. reflexivity. Qed.

End Bootstrap.

Lemma bootstrap_ci_ordered_witness :
  exists lo hi,
    fst (RunCV.bootstrap_ci Spec.lcg [0; 1] 4 (1 # 20) 42 Spec.quiet_world) = Ok (lo, hi) /\
    (1 # 20 <= 1 -> lo <= hi) /\
    (forall c, Forall (fun v => v == c) [0; 1] ->
       lo == hi /\ exists m, Np.mean [0; 1] = Ok m /\ lo == m /\ hi == m) /\
    (forall v, [0; 1] = [v] -> lo == v /\ hi == v).
Proof.
  apply (bootstrap_ci_ordered Spec.lcg [0; 1] 4 (1 # 20) 42 Spec.quiet_world).
  - discriminate.
  - lia.
  - unfold Qle; simpl; lia.
  - unfold Qle; simpl; lia.
  - lia.
Defined.

(** [bootstrap_ci] outside the domain of the claim, where no pair is
    returned: a significance level of 3 and a negative seed are rejected
    with a [ValueError], no resample is an [IndexError], and nothing to
    resample gives [nan].  None of the four depends on the bit generator
    (see [bootstrap_ci_bad_arguments], [bootstrap_ci_no_resample] and
    [bootstrap_ci_nothing_to_resample]). *)
Lemma bootstrap_ci_not_always_ordered :
  fst (RunCV.bootstrap_ci Spec.lcg [1] 1 3 42 Spec.quiet_world) = Raise ValueError /\
  fst (RunCV.bootstrap_ci Spec.lcg [1] 0 (1 # 20) 42 Spec.quiet_world) = Raise IndexError /\
  fst (RunCV.bootstrap_ci Spec.lcg [] 3 (1 # 20) 42 Spec.quiet_world) = Raise NaNResult /\
  fst (RunCV.bootstrap_ci Spec.lcg [1] 3 (1 # 20) (-1) Spec.quiet_world) = Raise ValueError.
Proof.
  repeat split; vm_compute; reflexivity.
Qed.

(** ** The fold splitter *)

Section Folds.

Local Open Scope nat_scope.

Lemma seen_In (c : string) (y : list string) : In c (RunCV.seen y) <-> In c y.
Proof.
  induction y as [|l y IH]; simpl; [tauto|].
  rewrite filter_In, IH, negb_true_iff, String.eqb_neq.
  destruct (string_dec l c) as [->|Hne]; [tauto|].
  intuition congruence.
Qed.

Lemma all_classes_small (y : list string) (k : nat) :
  forallb (fun c => c <? k) (RunCV.y_counts y) = true <->
  forall c, In c y -> count_occ string_dec y c < k.
Proof.
  unfold RunCV.y_counts. rewrite forallb_forall. split.
  - intros H c Hc. apply Nat.ltb_lt, H, in_map_iff.
    exists c. split; [reflexivity | apply seen_In; exact Hc].
  - intros H n Hn. apply in_map_iff in Hn as (c & <- & Hc).
    apply Nat.ltb_lt, H, seen_In, Hc.
Qed.

Lemma some_class_small (y : list string) (k : nat) :
  existsb (fun c => c <? k) (RunCV.y_counts y) = true <->
  exists c, In c y /\ count_occ string_dec y c < k.
Proof.
  unfold RunCV.y_counts. rewrite existsb_exists. split.
  - intros (n & Hn & Hlt). apply in_map_iff in Hn as (c & <- & Hc).
    exists c. split; [apply seen_In; exact Hc | apply Nat.ltb_lt; exact Hlt].
  - intros (c & Hc & Hlt). exists (count_occ string_dec y c). split.
    + apply in_map_iff. exists c. split; [reflexivity | apply seen_In; exact Hc].
    + apply Nat.ltb_lt. exact Hlt.
Qed.

Lemma short_input_small_classes (y : list string) (k : nat) :
  length y < k -> forall c, In c y -> count_occ string_dec y c < k.
Proof.
  intros H c _. pose proof (count_occ_bound string_dec c y). lia.
Qed.

(** C7 (as the code has it).  The splitter that [main] uses has no
    [InsufficientSamplesError].  It raises a [ValueError], and plans no
    fold, exactly when fewer than two folds are asked for or every class
    has fewer than [n_splits] members; otherwise it plans [n_splits]
    folds, and a class with fewer than [n_splits] members only earns a
    warning. *)
Theorem split_fails_only_when_all_classes_small (y : list string) (n_splits : nat) :
  (failed (RunCV.split_plan y n_splits) <->
   n_splits <= 1 \/ forall c, In c y -> count_occ string_dec y c < n_splits) /\
  (forall e, RunCV.split_plan y n_splits = Raise e -> e = ValueError) /\
  (forall v plan, RunCV.split_plan y n_splits = Ok (v, plan) ->
     length plan = n_splits /\
     (v = RunCV.Warned <-> exists c, In c y /\ count_occ string_dec y c < n_splits)).
Proof.
  unfold RunCV.split_plan, RunCV.check_split.
  destruct (n_splits <=? 1) eqn:E1.
  { apply Nat.leb_le in E1. cbn [bind]. repeat split; try discriminate.
    - intros _. left. exact E1.
    - intros _. eexists. reflexivity.
    - congruence. }
  apply Nat.leb_gt in E1.
  destruct (length y <? n_splits) eqn:E2.
  { apply Nat.ltb_lt in E2. cbn [bind]. repeat split; try discriminate.
    - intros _. right. apply short_input_small_classes. exact E2.
    - intros _. eexists. reflexivity.
    - congruence. }
  destruct (forallb (fun c => c <? n_splits) (RunCV.y_counts y)) eqn:E3.
  { pose proof (proj1 (all_classes_small y n_splits) E3) as Hall.
    cbn [bind]. repeat split; try discriminate.
    - intros _. right. exact Hall.
    - intros _. eexists. reflexivity.
    - congruence. }
  assert (Hnot : ~ forall c, In c y -> count_occ string_dec y c < n_splits).
  { intros H. apply (proj2 (all_classes_small y n_splits)) in H. congruence. }
  destruct (existsb (fun c => c <? n_splits) (RunCV.y_counts y)) eqn:E4; cbn [bind].
  - apply (proj1 (some_class_small y n_splits)) in E4. repeat split; try discriminate.
    + intros (e & He). discriminate.
    + intros [H|H]; [lia | contradiction].
    + injection H as <- <-. unfold RunCV.allocation. rewrite length_map, length_seq.
      reflexivity.
    + intros _. exact E4.
    + intros _. injection H as <- _. reflexivity.
  - repeat split; try discriminate.
    + intros (e & He). discriminate.
    + intros [H|H]; [lia | contradiction].
    + injection H as <- <-. unfold RunCV.allocation. rewrite length_map, length_seq.
      reflexivity.
    + intros Hv. injection H as <- _. discriminate.
    + intros Hex. apply (proj2 (some_class_small y n_splits)) in Hex. congruence.
Qed.

(** Class B has 2 members and 5 folds are asked for: the splitter warns
    and goes on, and plans test folds that hold 1, 1, 0, 0 and 0 members
    of class B. *)
Lemma small_class_is_split_anyway :
  count_occ string_dec Spec.imbalanced_labels Spec.B = 2 /\
  RunCV.split_plan Spec.imbalanced_labels 5
  = Ok (RunCV.Warned, [[1; 1]; [1; 1]; [1; 0]; [1; 0]; [1; 0]]).
Proof.
  split; vm_compute; reflexivity.
Qed.

End Folds.

(** ** The definitions at work *)

Section Runs.

Local Open Scope Q_scope.

Ltac q_compare := first [ reflexivity | unfold Qle, Qlt, Qeq; simpl; lia ].

Ltac rows_ok :=
  repeat first [ apply Forall_nil | apply Forall_cons | q_compare | split ].

Lemma scenario_well_shaped : Np.well_shaped Spec.scenario_probas.
Proof. unfold Np.well_shaped; simpl; rows_ok. Qed.

Lemma scenario_simplex : Spec.simplex Spec.scenario_probas.
Proof. unfold Spec.simplex; simpl; rows_ok. Qed.

Lemma multiclass_brier_correct_witness :
  exists b,
    Metrics.multiclass_brier [Spec.A; Spec.A; Spec.B; Spec.B] Spec.scenario_probas
                             [Spec.A; Spec.B] = Ok b /\
    b == Spec.brier_formula [Spec.A; Spec.A; Spec.B; Spec.B] Spec.scenario_probas
                            [Spec.A; Spec.B] /\
    0 <= b <= 1 /\
    (NoDup [Spec.A; Spec.B] ->
     (b == 0 <-> Spec.one_hot_on_truth [Spec.A; Spec.A; Spec.B; Spec.B]
                                       Spec.scenario_probas [Spec.A; Spec.B])).
Proof.
  apply (multiclass_brier_correct [Spec.A; Spec.A; Spec.B; Spec.B] Spec.scenario_probas
                                  [Spec.A; Spec.B]).
  - exact scenario_well_shaped.
  - exact scenario_simplex.
  - reflexivity.
  - cbv; lia.
  - reflexivity.
Defined.

Lemma ece_in_unit_interval_witness :
  exists e,
    Metrics.expected_calibration_error [Spec.A; Spec.A; Spec.B; Spec.B] Spec.scenario_probas
                                       [Spec.A; Spec.B] 15 = Ok e /\
    0 <= e <= 1 /\
    ((forall j, (j < Np.nrows Spec.scenario_probas)%nat ->
        Np.row_max (nth j (Np.rows Spec.scenario_probas) []) == 1 /\
        nth_error [Spec.A; Spec.B] (Np.row_argmax (nth j (Np.rows Spec.scenario_probas) []))
        = Some (nth j [Spec.A; Spec.A; Spec.B; Spec.B] EmptyString)) ->
     e == 0).
Proof.
  apply (ece_in_unit_interval [Spec.A; Spec.A; Spec.B; Spec.B] Spec.scenario_probas
                              [Spec.A; Spec.B] 15).
  - exact scenario_well_shaped.
  - cbv; lia.
  - reflexivity.
  - reflexivity.
Defined.



(** The second scenario of the specification: every prediction is right,
    the Brier score is 1/40 and the calibration error 3/20. *)
Example scenario_scores :
  exists res,
    Metrics.evaluate [Spec.A; Spec.A; Spec.B; Spec.B] Spec.scenario_probas
                     [Spec.A; Spec.B] = Ok res /\
    Metrics.confusion res = [[2; 0]; [0; 2]]%nat /\
    Metrics.brier res == 1 # 40 /\
    Metrics.ece res == 3 # 20.
Proof.
  eexists. split; [vm_compute; reflexivity|].
  split; [reflexivity|]. split; reflexivity.
Qed.

(** A row of zeros has confidence 0: its sample is in no bin, and the
    other, miscalibrated sample alone makes the error (weight 1/2). *)
Example zero_confidence_is_left_out :
  let probas := {| Np.ncols := 2; Np.rows := [[0; 0]; [5 # 8; 3 # 8]] |} in
  Spec.nonempty_bins 15 (Spec.confidences_of probas) = [9%nat] /\
  Np.sum (map (fun i => Spec.bin_weight 15 i (Spec.confidences_of probas)) (seq 0 15))
  == 1 # 2 /\
  exists e, Metrics.expected_calibration_error [Spec.A; Spec.A] probas
                                               [Spec.A; Spec.B] 15 = Ok e /\
            e == 3 # 16.
Proof.
  cbv zeta. split; [vm_compute; reflexivity|]. split; [vm_compute; reflexivity|].
  eexists. split; [vm_compute; reflexivity | reflexivity].
Qed.

(** The double nearest to 0.8 is edge 12 of the 15 bins: a sample of that
    confidence is counted in bin 11, though the number itself is above
    12/15. *)
Example edge_sample_follows_the_double :
  Np.linspace01 15 12 == Spec.double_0_8 /\
  Spec.in_bin 15 11 Spec.double_0_8 = true /\
  Spec.in_bin 15 12 Spec.double_0_8 = false /\
  Spec.in_even_bin 15 12 Spec.double_0_8 = true.
Proof. repeat split; vm_compute; reflexivity. Qed.

(** So the two samples of [Spec.edge_probas], the first right and the
    second wrong, are in two bins: the error is the mean of 1 - 0.8 and
    0.85, not the gap of one bin that holds both. *)
Example edge_sample_error :
  exists e, Metrics.expected_calibration_error [Spec.A; Spec.B] Spec.edge_probas
                                               [Spec.A; Spec.B] 15 = Ok e /\
            e == (1 # 2) * (1 - Spec.double_0_8)
                 + (1 # 2) * (7656119366529843 # 9007199254740992) /\
            ~ e == Spec.even_formula 15 (Spec.confidences_of Spec.edge_probas)
                                     (Spec.correct_of [Spec.A; Spec.B] Spec.edge_probas
                                                      [Spec.A; Spec.B]).
Proof.
  eexists. split; [vm_compute; reflexivity|].
  split; [vm_compute; reflexivity|].
  vm_compute. discriminate.
Qed.

(** [confusion_matrix] with a label given twice: the samples go to its
    last position. *)
Example repeated_label_keeps_last_position :
  Sk.confusion_matrix [Spec.A; Spec.A] [Spec.A; Spec.A] [Spec.A; Spec.A]
  = Ok [[0; 0]; [0; 2]]%nat.
Proof. reflexivity. Qed.

End Runs.

(** ** evaluate on well-formed input *)

Section Evaluate.

Local Open Scope Q_scope.

(** On a probability matrix with one row per label and one column per
    class, and with a class that occurs among the labels, [evaluate]
    returns a result: the report and confusion matrix of the argmax
    predictions, the Brier score and the calibration error over 15 bins. *)
Lemma evaluate_returns (y_true : list string) (probas : Np.ndarray2) (classes : list string) :
  Np.well_shaped probas ->
  Spec.simplex probas ->
  (0 < Np.nrows probas)%nat ->
  length y_true = Np.nrows probas ->
  Np.ncols probas = length classes ->
  (exists l, In l classes /\ In l y_true) ->
  exists res preds,
    Metrics.evaluate y_true probas classes = Ok res /\
    Spec.predicted_by_argmax probas classes preds /\
    Sk.classification_report y_true preds = Ok (Metrics.report res) /\
    Sk.confusion_matrix y_true preds classes = Ok (Metrics.confusion res) /\
    Metrics.brier res == Spec.brier_formula y_true probas classes /\
    Metrics.ece res == Spec.ece_formula 15 (Spec.confidences_of probas)
                                        (Spec.correct_of y_true probas classes).
Proof.
  intros Hwf Hs Hn Hlen Hk (l & Hlc & Hly).
  pose proof (simplex_ncols_pos probas Hwf Hs Hn) as Hkpos.
  set (preds := map (fun r => nth (Np.row_argmax r) classes EmptyString) (Np.rows probas)).
  assert (Hidx : Np.argmax_axis1 probas = Ok (map Np.row_argmax (Np.rows probas))).
  { unfold Np.argmax_axis1. destruct (Np.ncols probas =? 0)%nat eqn:E;
      [apply Nat.eqb_eq in E; lia | reflexivity]. }
  assert (Htake : Np.take classes (map Np.row_argmax (Np.rows probas)) = Ok preds)
    by (apply take_argmax_ok; auto; lia).
  assert (Hpl : length preds = Np.nrows probas) by (unfold preds; apply length_map).
  assert (Hcheck : Sk.check_targets y_true preds = Ok tt).
  { unfold Sk.check_targets. rewrite Hpl, Hlen, Nat.eqb_refl. cbn [negb].
    destruct (Np.nrows probas =? 0)%nat eqn:E; [apply Nat.eqb_eq in E; lia | reflexivity]. }
  assert (Hcm : exists cm, Sk.confusion_matrix y_true preds classes = Ok cm).
  { unfold Sk.confusion_matrix. rewrite Hcheck. cbn [bind].
    destruct (length classes =? 0)%nat eqn:E; [apply Nat.eqb_eq in E; lia|].
    assert (Hex : existsb (fun c => existsb (String.eqb c) y_true) classes = true).
    { apply existsb_exists. exists l. split; [exact Hlc|].
      apply existsb_exists. exists l. split; [exact Hly | apply String.eqb_refl]. }
    rewrite Hex. cbn [negb]. eexists. reflexivity. }
  destruct Hcm as (cm & Hcm).
  destruct (brier_scores_ok y_true probas classes Hwf Hs Hlen Hn 0%nat)
    as (scores & Hrun & Hl & Hnth); [simpl; lia|].
  destruct scores as [|s0 rest]; [simpl in Hl; lia|].
  destruct (ece_refines y_true probas classes 15 Hwf Hkpos) as (e & He & Ee);
    [lia | exact Hlen |].
  unfold Metrics.evaluate. rewrite Hidx. cbn [bind]. rewrite Htake. cbn [bind].
  unfold Sk.classification_report at 1. rewrite Hcheck. cbn [bind].
  rewrite Hcm. cbn [bind].
  unfold Metrics.multiclass_brier. rewrite Hrun. cbn [bind Np.mean].
  unfold Metrics.default_bins. rewrite He. cbn [bind].
  eexists. exists preds. split; [reflexivity|].
  cbn [Metrics.report Metrics.confusion Metrics.brier Metrics.ece].
  split; [eapply take_argmax_predicts; eassumption|].
  split; [unfold Sk.classification_report; rewrite Hcheck; reflexivity|].
  split; [exact Hcm|].
  split; [|exact Ee].
  unfold Spec.brier_formula. rewrite <- Hl.
  apply Qdiv_comp; [|reflexivity].
  apply sum_nth_ext. intros k Hk'. rewrite Hl in Hk'. apply (Hnth k Hk').
Qed.

End Evaluate.

(** * Further properties of the evaluation code *)

(** ** multiclass_brier on any input *)

Section BrierAnyInput.

Local Open Scope Q_scope.

Lemma probabilities_checked (p : list Q) :
  existsb (fun x => Np.Qltb 1 x || Np.Qltb x 0) p = false ->
  Forall (fun x => 0 <= x <= 1) p.
Proof.
  induction p as [|x p IH]; simpl; intros H; [constructor|].
  apply orb_false_iff in H as [Hx Hp]. apply orb_false_iff in Hx as [H1 H0].
  apply Qltb_ge in H1, H0. constructor; [split; assumption | apply IH; exact Hp].
Qed.

(** What [brier_score_loss] checks before it computes. *)
Lemma brier_score_loss_checks (y_bin : list Z) (p : list Q) (s : Q) :
  Sk.brier_score_loss y_bin p = Ok s ->
  length y_bin = length p /\ (0 < length p)%nat /\ Forall (fun x => 0 <= x <= 1) p.
Proof.
  unfold Sk.brier_score_loss.
  destruct (negb (length y_bin =? length p)%nat) eqn:E1; [discriminate|].
  destruct (length p =? 0)%nat eqn:E2; [discriminate|].
  destruct (existsb _ p) eqn:E3; [discriminate|]. intros _.
  apply negb_false_iff, Nat.eqb_eq in E1. apply Nat.eqb_neq in E2.
  repeat split; [exact E1 | lia | apply probabilities_checked; exact E3].
Qed.

Lemma brier_score_loss_range (y_bin : list Z) (p : list Q) (s : Q) :
  Forall (fun y => y = 0%Z \/ y = 1%Z) y_bin ->
  Sk.brier_score_loss y_bin p = Ok s -> 0 <= s <= 1.
Proof.
  intros Hy Hrun.
  destruct (brier_score_loss_checks y_bin p s Hrun) as (Hlen & Hpos & Hp).
  rewrite (brier_score_loss_ok y_bin p Hlen Hpos Hp) in Hrun. injection Hrun as <-.
  set (terms := map (fun yp => (inject_Z (fst yp) - snd yp) * (inject_Z (fst yp) - snd yp))
                    (combine y_bin p)).
  assert (Hl : length terms = length p).
  { unfold terms. rewrite length_map, length_combine. lia. }
  assert (HF : Forall (fun x => 0 <= x <= 1) terms).
  { unfold terms. apply Forall_map, Forall_forall. intros [y x] Hin. cbn [fst snd].
    rewrite Forall_forall in Hy, Hp.
    apply squared_error_bounds; [|apply Hp; eapply in_combine_r; exact Hin].
    destruct (Hy y (in_combine_l _ _ _ _ Hin)) as [-> | ->]; [left | right]; reflexivity. }
  pose proof (sum_bounds 0 1 terms HF) as [H0 H1]. rewrite Hl in H0, H1.
  pose proof (of_nat_pos _ Hpos) as Hn.
  split; [apply div_nonneg | apply div_le_1]; lra.
Qed.

Lemma indicator_column_binary (y_true : list string) (c : string) :
  Forall (fun y => y = 0%Z \/ y = 1%Z) (map Np.int_of_bool (Np.eq_scalar y_true c)).
Proof.
  apply Forall_map, Forall_forall. intros b _. destruct b; [right | left]; reflexivity.
Qed.

Lemma brier_scores_range (y_true : list string) (P : Np.ndarray2) (classes : list string) :
  forall i scores,
    Metrics.brier_scores y_true P i classes = Ok scores ->
    length scores = length classes /\ Forall (fun s => 0 <= s <= 1) scores.
Proof.
  induction classes as [|c rest IH]; intros i scores H; simpl in H.
  - injection H as <-. split; [reflexivity | constructor].
  - apply bind_ok in H as (col & Hcol & H).
    apply bind_ok in H as (s & Hs & H).
    apply bind_ok in H as (scores' & Hrest & H).
    injection H as <-. destruct (IH _ _ Hrest) as [Hl HF].
    split; [simpl; lia|]. constructor; [|exact HF].
    eapply brier_score_loss_range; [apply indicator_column_binary | exact Hs].
Qed.

Lemma mean_range (xs : list Q) (m : Q) :
  Forall (fun x => 0 <= x <= 1) xs -> Np.mean xs = Ok m -> 0 <= m <= 1.
Proof.
  intros HF H.
  assert (Hne : xs <> []) by (intros ->; discriminate).
  rewrite (mean_ok xs Hne) in H. injection H as <-.
  pose proof (sum_bounds 0 1 _ HF) as [H0 H1].
  assert (Hn : 0 < Np.of_nat (length xs))
    by (apply of_nat_pos; destruct xs; [congruence | simpl; lia]).
  split; [apply div_nonneg | apply div_le_1]; lra.
Qed.

Lemma multiclass_brier_range (y_true : list string) (P : Np.ndarray2)
      (classes : list string) (b : Q) :
  Metrics.multiclass_brier y_true P classes = Ok b -> 0 <= b <= 1.
Proof.
  unfold Metrics.multiclass_brier. intros H.
  apply bind_ok in H as (scores & Hs & Hm).
  eapply mean_range; [|exact Hm].
  apply (brier_scores_range y_true P classes 0%nat scores Hs).
Qed.

Lemma column_entries (P : Np.ndarray2) (i : nat) :
  Forall (fun x => 0 <= x <= 1) (map (fun r => nth i r 0) (Np.rows P)) <->
  forall j, (j < Np.nrows P)%nat -> 0 <= Spec.entry P j i <= 1.
Proof.
  unfold Spec.entry, Np.nrows. rewrite Forall_map, Forall_forall. split.
  - intros H j Hj. apply H, nth_In. exact Hj.
  - intros H r Hr. destruct (In_nth _ _ [] Hr) as (j & Hj & <-). apply H. exact Hj.
Qed.

(** The loop goes through exactly when each class has its column, there
    is a label per row and at least one row, and the columns visited hold
    probabilities. *)
Lemma brier_scores_returns (y_true : list string) (P : Np.ndarray2) (classes : list string) :
  forall i,
    (exists scores, Metrics.brier_scores y_true P i classes = Ok scores) <->
    (classes = [] \/
     ((i + length classes <= Np.ncols P)%nat /\
      length y_true = Np.nrows P /\ (0 < Np.nrows P)%nat /\
      forall j k, (j < Np.nrows P)%nat -> (k < length classes)%nat ->
                  0 <= Spec.entry P j (i + k) <= 1)).
Proof.
  induction classes as [|c rest IH]; intros i.
  - split; [intros _; left; reflexivity | intros _; exists []; reflexivity].
  - split.
    + intros (scores & H). right. simpl in H.
      apply bind_ok in H as (col & Hcol & H).
      apply bind_ok in H as (s & Hs & H).
      apply bind_ok in H as (scores' & Hrest & _).
      unfold Np.column in Hcol.
      destruct (i <? Np.ncols P)%nat eqn:Ei; [|discriminate].
      apply Nat.ltb_lt in Ei. injection Hcol as <-.
      destruct (brier_score_loss_checks _ _ _ Hs) as (Hlen & Hpos & Hp).
      unfold Np.eq_scalar in Hlen. rewrite !length_map in Hlen.
      rewrite length_map in Hpos. fold (Np.nrows P) in Hlen, Hpos.
      pose proof (proj1 (column_entries P i) Hp) as Hcolp. clear Hp.
      rename Hcolp into Hp.
      destruct (proj1 (IH (S i)) (ex_intro _ scores' Hrest)) as [-> | (Hc & _ & _ & He)].
      * split; [simpl; lia|]. split; [exact Hlen|]. split; [exact Hpos|].
        intros j k Hj Hk. simpl in Hk. assert (k = 0)%nat as -> by lia.
        rewrite Nat.add_0_r. apply Hp. exact Hj.
      * split; [simpl; lia|]. split; [exact Hlen|]. split; [exact Hpos|].
        intros j k Hj Hk. destruct k as [|k].
        -- rewrite Nat.add_0_r. apply Hp. exact Hj.
        -- replace (i + S k)%nat with (S i + k)%nat by lia.
           apply He; [exact Hj | simpl in Hk; lia].
    + intros [Hnil | (Hc & Hlen & Hpos & He)]; [discriminate|].
      cbn [length] in Hc.
      assert (Hrest : exists scores, Metrics.brier_scores y_true P (S i) rest = Ok scores).
      { apply IH. destruct rest as [|c' rest']; [left; reflexivity | right].
        split; [simpl in *; lia|]. split; [exact Hlen|]. split; [exact Hpos|].
        intros j k Hj Hk. replace (S i + k)%nat with (i + S k)%nat by lia.
        apply He; [exact Hj | simpl in *; lia]. }
      destruct Hrest as (scores & Hrest).
      simpl. unfold Np.column.
      destruct (i <? Np.ncols P)%nat eqn:Ei; [|apply Nat.ltb_ge in Ei; lia].
      cbn [bind]. rewrite brier_score_loss_ok.
      * cbn [bind]. rewrite Hrest. cbn [bind]. eexists; reflexivity.
      * unfold Np.eq_scalar. rewrite !length_map. exact Hlen.
      * rewrite length_map. exact Hpos.
      * apply column_entries. intros j Hj.
        specialize (He j 0%nat Hj ltac:(simpl; lia)). rewrite Nat.add_0_r in He. exact He.
Qed.

Lemma multiclass_brier_returns (y_true : list string) (P : Np.ndarray2)
      (classes : list string) :
  (exists b, Metrics.multiclass_brier y_true P classes = Ok b) <->
  classes <> [] /\
  (length classes <= Np.ncols P)%nat /\
  length y_true = Np.nrows P /\ (0 < Np.nrows P)%nat /\
  forall j k, (j < Np.nrows P)%nat -> (k < length classes)%nat ->
              0 <= Spec.entry P j k <= 1.
Proof.
  pose proof (brier_scores_returns y_true P classes 0%nat) as Hiff.
  cbn [Nat.add] in Hiff. split.
  - intros (b & H). unfold Metrics.multiclass_brier in H.
    apply bind_ok in H as (scores & Hs & Hm).
    destruct (brier_scores_range _ _ _ _ _ Hs) as [Hl _].
    assert (Hne : classes <> []).
    { intros ->. destruct scores; [discriminate | simpl in Hl; lia]. }
    split; [exact Hne|].
    destruct (proj1 Hiff (ex_intro _ scores Hs)) as [-> | Hc]; [congruence | exact Hc].
  - intros (Hne & Hc). destruct (proj2 Hiff (or_intror Hc)) as (scores & Hs).
    destruct (brier_scores_range _ _ _ _ _ Hs) as [Hl _].
    unfold Metrics.multiclass_brier. rewrite Hs. cbn [bind].
    destruct scores as [|s0 rest]; [|eexists; reflexivity].
    destruct classes; [congruence | simpl in Hl; lia].
Qed.

(** X1.  [multiclass_brier] returns a number exactly when there is a
    class, every class has its column, there is one label per row and at
    least one row, and the columns of the classes hold probabilities;
    whatever it returns lies in [0, 1]; with no class the result is [nan],
    and every other failure is an [IndexError] or a [ValueError]. *)
Theorem multiclass_brier_behaviour (y_true : list string) (probas : Np.ndarray2)
        (classes : list string) :
  ((exists b, Metrics.multiclass_brier y_true probas classes = Ok b) <->
   classes <> [] /\
   (length classes <= Np.ncols probas)%nat /\
   length y_true = Np.nrows probas /\ (0 < Np.nrows probas)%nat /\
   forall j k, (j < Np.nrows probas)%nat -> (k < length classes)%nat ->
               0 <= Spec.entry probas j k <= 1) /\
  (forall b, Metrics.multiclass_brier y_true probas classes = Ok b -> 0 <= b <= 1) /\
  (forall e, Metrics.multiclass_brier y_true probas classes = Raise e ->
             (classes = [] /\ e = NaNResult) \/ (classes <> [] /\ Spec.shape_fault e)).
Proof.
  split; [|split].
  - apply multiclass_brier_returns.
  - apply multiclass_brier_range.
  - intros e H. unfold Metrics.multiclass_brier in H.
    destruct (Metrics.brier_scores y_true probas 0 classes) as [scores|e'] eqn:Hs;
      cbn [bind] in H.
    + destruct (brier_scores_range _ _ _ _ _ Hs) as [Hl _].
      destruct scores as [|s0 rest]; [|discriminate].
      left. split; [destruct classes; [reflexivity | simpl in Hl; lia]|].
      simpl in H. congruence.
    + injection H as <-. right. split.
      * intros ->. simpl in Hs. discriminate.
      * eapply brier_scores_fault. exact Hs.
Qed.

End BrierAnyInput.

(** ** expected_calibration_error on any input *)

Section EceAnyInput.

Local Open Scope Q_scope.

(** With a correctness array of the wrong length the first non-empty bin
    raises; only a run through empty bins returns. *)
Lemma ece_step_mismatch (confs : list Q) (correct : list bool) (bins i : nat) (acc : Q) :
  length confs <> length correct ->
  (forall e, Metrics.ece_step confs correct bins acc i = Ok e -> e = acc) /\
  (forall f, Metrics.ece_step confs correct bins acc i = Raise f -> f = IndexError).
Proof.
  intros Hlen. unfold Metrics.ece_step. cbv zeta.
  set (mask := Metrics.bin_mask (Np.linspace01 bins i) (Np.linspace01 bins (S i)) confs).
  destruct (negb (Np.any mask)); [split; intros ? H; congruence|].
  assert (Hc : Np.compress mask correct = Raise IndexError).
  { unfold Np.compress, mask, Metrics.bin_mask. rewrite length_map.
    destruct (length confs =? length correct)%nat eqn:E;
      [apply Nat.eqb_eq in E; contradiction | reflexivity]. }
  rewrite Hc. cbn [bind]. split; intros ? H; congruence.
Qed.

Lemma ece_loop_mismatch (confs : list Q) (correct : list bool) (bins : nat)
      (range : list nat) :
  length confs <> length correct ->
  forall acc,
    (forall e, Metrics.ece_loop confs correct bins range acc = Ok e -> e = acc) /\
    (forall f, Metrics.ece_loop confs correct bins range acc = Raise f -> f = IndexError).
Proof.
  intros Hlen. induction range as [|i rest IH]; intros acc; simpl.
  - split; intros ? H; congruence.
  - destruct (ece_step_mismatch confs correct bins i acc Hlen) as [Hok Hbad].
    destruct (Metrics.ece_step confs correct bins acc i) as [e1|f1]; cbn [bind].
    + rewrite (Hok e1 eq_refl). apply IH.
    + split; intros ? H; [discriminate|]. injection H as <-. apply Hbad. reflexivity.
Qed.

Lemma eq_arrays_fault (a b : list string) (f : fault) :
  Np.eq_arrays a b = Raise f -> f = ValueError.
Proof.
  unfold Np.eq_arrays.
  destruct (length a =? length b)%nat; [discriminate|].
  destruct (length b =? 1)%nat; [discriminate|].
  destruct (length a =? 1)%nat; congruence.
Qed.

Lemma ece_loop_range (confs : list Q) (correct : list bool) (bins : nat) (e : Q) :
  Metrics.ece_loop confs correct bins (seq 0 bins) 0 = Ok e -> 0 <= e <= 1.
Proof.
  intros H. destruct (Nat.eq_dec (length confs) (length correct)) as [Hlen|Hlen].
  - destruct (ece_loop_ok confs correct bins (seq 0 bins) Hlen 0) as (e' & He' & Ee).
    rewrite H in He'. injection He' as <-.
    pose proof (ece_formula_bounds bins confs correct Hlen) as Hb.
    unfold Spec.ece_formula in Hb. lra.
  - destruct (ece_loop_mismatch confs correct bins (seq 0 bins) Hlen 0) as [Hok _].
    rewrite (Hok e H). lra.
Qed.

Lemma ece_loop_fault (confs : list Q) (correct : list bool) (bins : nat) (f : fault) :
  Metrics.ece_loop confs correct bins (seq 0 bins) 0 = Raise f -> f = IndexError.
Proof.
  intros H. destruct (Nat.eq_dec (length confs) (length correct)) as [Hlen|Hlen].
  - destruct (ece_loop_ok confs correct bins (seq 0 bins) Hlen 0) as (e' & He' & _).
    congruence.
  - destruct (ece_loop_mismatch confs correct bins (seq 0 bins) Hlen 0) as [_ Hbad].
    apply Hbad. exact H.
Qed.

Lemma ece_range (y_true : list string) (P : Np.ndarray2) (classes : list string)
      (bins : nat) (e : Q) :
  Metrics.expected_calibration_error y_true P classes bins = Ok e -> 0 <= e <= 1.
Proof.
  unfold Metrics.expected_calibration_error. intros H.
  apply bind_ok in H as (confs & _ & H).
  apply bind_ok in H as (idx & _ & H).
  apply bind_ok in H as (picked & _ & H).
  apply bind_ok in H as (correct & _ & H).
  eapply ece_loop_range. exact H.
Qed.

(** X2.  Whatever its arguments, [expected_calibration_error] either
    returns a value in [0, 1] or fails with an [IndexError] or a
    [ValueError]; it never yields [nan]. *)
Theorem ece_never_out_of_range (y_true : list string) (probas : Np.ndarray2)
        (classes : list string) (bins : nat) :
  (exists e, Metrics.expected_calibration_error y_true probas classes bins = Ok e /\
             0 <= e <= 1) \/
  (exists f, Metrics.expected_calibration_error y_true probas classes bins = Raise f /\
             Spec.shape_fault f).
Proof.
  destruct (Metrics.expected_calibration_error y_true probas classes bins) as [e|f] eqn:H.
  - left. exists e. split; [reflexivity | eapply ece_range; exact H].
  - right. exists f. split; [reflexivity|].
    unfold Metrics.expected_calibration_error in H.
    destruct (Np.max_axis1 probas) as [confs|f1] eqn:H1; cbn [bind] in H.
    2:{ injection H as <-. right. unfold Np.max_axis1 in H1.
        destruct (Np.ncols probas =? 0)%nat; congruence. }
    destruct (Np.argmax_axis1 probas) as [idx|f2] eqn:H2; cbn [bind] in H.
    2:{ injection H as <-. right. eapply argmax_axis1_fault; exact H2. }
    destruct (Np.take classes idx) as [picked|f3] eqn:H3; cbn [bind] in H.
    2:{ injection H as <-. left. eapply take_fault; exact H3. }
    destruct (Np.eq_arrays picked y_true) as [correct|f4] eqn:H4; cbn [bind] in H.
    2:{ injection H as <-. right. eapply eq_arrays_fault; exact H4. }
    left. eapply ece_loop_fault. exact H.
Qed.

End EceAnyInput.

(** ** The outcome of expected_calibration_error by the shape of its input *)

Section EceOutcome.

Local Open Scope Q_scope.

(** [take] on the argmax of every row: it goes through when every
    argmax has a class, and raises [IndexError] otherwise. *)
Lemma take_argmax_outcome (classes : list string) (rows : list (list Q)) :
  Np.take classes (map Np.row_argmax rows)
  = if forallb (fun r => (Np.row_argmax r <? length classes)%nat) rows
    then Ok (map (fun r => nth (Np.row_argmax r) classes EmptyString) rows)
    else Raise IndexError.
Proof.
  unfold Np.take. induction rows as [|r rows IH]; [reflexivity|].
  cbn [map sequence forallb].
  destruct (Np.row_argmax r <? length classes)%nat eqn:E.
  - apply Nat.ltb_lt in E. rewrite (nth_error_nth' classes EmptyString E).
    cbn [bind andb]. rewrite IH.
    destruct (forallb _ rows); reflexivity.
  - apply Nat.ltb_ge in E. apply nth_error_None in E. rewrite E. reflexivity.
Qed.

(** What [expected_calibration_error] does when there is a label per
    row. *)
Lemma ece_outcome (y_true : list string) (P : Np.ndarray2) (classes : list string)
      (bins : nat) :
  length y_true = Np.nrows P ->
  (Np.ncols P = O ->
   Metrics.expected_calibration_error y_true P classes bins = Raise ValueError) /\
  (Np.ncols P <> O ->
   forallb (fun r => (Np.row_argmax r <? length classes)%nat) (Np.rows P) = false ->
   Metrics.expected_calibration_error y_true P classes bins = Raise IndexError) /\
  (Np.ncols P <> O ->
   forallb (fun r => (Np.row_argmax r <? length classes)%nat) (Np.rows P) = true ->
   exists e, Metrics.expected_calibration_error y_true P classes bins = Ok e /\
             e == Spec.ece_formula bins (Spec.confidences_of P)
                                   (Spec.correct_of y_true P classes)).
Proof.
  intros Hlen.
  unfold Metrics.expected_calibration_error, Np.max_axis1, Np.argmax_axis1.
  split; [|split].
  - intros ->. reflexivity.
  - intros Hk Hf. apply Nat.eqb_neq in Hk. rewrite Hk. cbn [bind].
    rewrite take_argmax_outcome, Hf. reflexivity.
  - intros Hk Hf. apply Nat.eqb_neq in Hk. rewrite Hk. cbn [bind].
    rewrite take_argmax_outcome, Hf. cbn [bind].
    unfold Np.eq_arrays. rewrite length_map. fold (Np.nrows P).
    rewrite <- Hlen, Nat.eqb_refl. cbn [bind].
    rewrite (map_combine_map_l (fun r => nth (Np.row_argmax r) classes EmptyString)
               (fun ab => String.eqb (fst ab) (snd ab)) (Np.rows P) y_true).
    cbn [fst snd]. fold (Spec.correct_of y_true P classes). fold (Spec.confidences_of P).
    destruct (samples_lengths y_true P classes Hlen) as [Hl1 Hl2].
    destruct (ece_loop_ok (Spec.confidences_of P) (Spec.correct_of y_true P classes)
                bins (seq 0 bins)) with (acc := 0) as (e & He & Ee); [congruence|].
    exists e. split; [exact He|]. rewrite Ee. unfold Spec.ece_formula. ring.
Qed.

End EceOutcome.

(** ** The classification report and the confusion matrix of evaluate *)

Section ReportStatistics.

Local Open Scope Q_scope.

Lemma count_pair_le_pred (c : string) (y p : list string) :
  (Sk.count_pair c c y p <= Sk.count_label c p)%nat.
Proof.
  unfold Sk.count_pair, Sk.count_label. revert p.
  induction y as [|a y IH]; intros [|b p]; simpl; try lia.
  specialize (IH p).
  destruct (string_dec b c) as [->|Hne].
  - destruct (String.eqb a c); rewrite String.eqb_refl; simpl; lia.
  - apply String.eqb_neq in Hne. rewrite Hne, andb_false_r. lia.
Qed.

Lemma count_pair_le_true (c : string) (y p : list string) :
  (Sk.count_pair c c y p <= Sk.count_label c y)%nat.
Proof.
  unfold Sk.count_pair, Sk.count_label. revert p.
  induction y as [|a y IH]; intros [|b p]; simpl; try lia.
  specialize (IH p).
  destruct (string_dec a c) as [->|Hne].
  - rewrite String.eqb_refl. destruct (String.eqb b c); simpl; lia.
  - apply String.eqb_neq in Hne. rewrite Hne. simpl. lia.
Qed.

Lemma ratio_range (num den : nat) : (num <= den)%nat -> 0 <= Sk.ratio num den <= 1.
Proof.
  intros H. unfold Sk.ratio. destruct (den =? 0)%nat eqn:E; [lra|].
  apply Nat.eqb_neq in E.
  assert (Hd : 0 < Np.of_nat den) by (apply of_nat_pos; lia).
  split; [apply div_nonneg; [apply of_nat_nonneg | exact Hd]|].
  apply div_le_1; [apply of_nat_le; exact H | exact Hd].
Qed.

Lemma harmonic_range (p r : Q) :
  0 <= p <= 1 -> 0 <= r <= 1 -> 0 <= Sk.harmonic p r <= 1.
Proof.
  intros Hp Hr. unfold Sk.harmonic.
  destruct (Qeq_bool (p + r) 0) eqn:E; [lra|].
  apply Qeq_bool_neq in E.
  assert (Hs : 0 < p + r).
  { destruct (Qlt_le_dec 0 (p + r)) as [H|H]; [exact H|]. exfalso. apply E. lra. }
  split.
  - apply div_nonneg; [nra | exact Hs].
  - apply div_le_1; [nra | exact Hs].
Qed.

Lemma row_of_unit (c : string) (y p : list string) : Notions.unit_row (Sk.row_of c y p).
Proof.
  unfold Notions.unit_row, Sk.row_of. cbn [Sk.precision Sk.recall Sk.f1_score].
  pose proof (ratio_range _ _ (count_pair_le_pred c y p)) as Hp.
  pose proof (ratio_range _ _ (count_pair_le_true c y p)) as Hr.
  split; [exact Hp|]. split; [exact Hr|]. apply harmonic_range; assumption.
Qed.

Lemma average_range (f : Sk.report_row -> Q) (rs : list Sk.report_row) :
  Forall (fun r => 0 <= f r <= 1) rs -> 0 <= Sk.average f rs <= 1.
Proof.
  intros H. unfold Sk.average.
  assert (HF : Forall (fun x => 0 <= x <= 1) (map f rs)) by (apply Forall_map; exact H).
  pose proof (sum_bounds 0 1 _ HF) as [H0 H1]. rewrite length_map in H0, H1.
  destruct rs as [|r rs].
  - change (Np.sum (map f [])) with 0. unfold Qdiv. rewrite Qmult_0_l. lra.
  - assert (Hn : 0 < Np.of_nat (length (r :: rs))) by (apply of_nat_pos; simpl; lia).
    split; [apply div_nonneg | apply div_le_1]; lra.
Qed.

Lemma weighted_sum_bounds (f : Sk.report_row -> Q) (rs : list Sk.report_row) :
  Forall (fun r => 0 <= f r <= 1) rs ->
  0 <= Np.sum (map (fun r => Np.of_nat (Sk.support r) * f r) rs)
    <= Np.of_nat (list_sum (map Sk.support rs)).
Proof.
  induction 1 as [|r rs Hr _ IH].
  - change (Np.of_nat (list_sum (map Sk.support []))) with 0.
    change (Np.sum (map (fun r => Np.of_nat (Sk.support r) * f r) [])) with 0. lra.
  - cbn [map]. change (Np.sum (?a :: ?l)) with (a + Np.sum l).
    change (list_sum (Sk.support r :: map Sk.support rs))
      with (Sk.support r + list_sum (map Sk.support rs))%nat.
    rewrite of_nat_plus. pose proof (of_nat_nonneg (Sk.support r)) as Hs.
    set (w := Np.of_nat (Sk.support r)) in *. split; nra.
Qed.

Lemma weighted_range (f : Sk.report_row -> Q) (rs : list Sk.report_row) :
  Forall (fun r => 0 <= f r <= 1) rs -> 0 <= Sk.weighted f rs <= 1.
Proof.
  intros H. unfold Sk.weighted.
  pose proof (weighted_sum_bounds f rs H) as [H0 H1].
  destruct (list_sum (map Sk.support rs)) as [|n] eqn:E.
  - change (Np.of_nat 0) with 0 in *. unfold Qdiv.
    setoid_replace (/ 0) with 0 by reflexivity. rewrite Qmult_0_r. lra.
  - assert (Hn : 0 < Np.of_nat (S n)) by (apply of_nat_pos; lia).
    split; [apply div_nonneg | apply div_le_1]; lra.
Qed.

(** What a returned result was made of. *)
Lemma evaluate_parts (y : list string) (P : Np.ndarray2) (classes : list string)
      (res : Metrics.EvalResult) :
  Metrics.evaluate y P classes = Ok res ->
  exists preds,
    Np.ncols P <> O /\
    Np.take classes (map Np.row_argmax (Np.rows P)) = Ok preds /\
    Sk.classification_report y preds = Ok (Metrics.report res) /\
    Sk.confusion_matrix y preds classes = Ok (Metrics.confusion res) /\
    Metrics.multiclass_brier y P classes = Ok (Metrics.brier res) /\
    Metrics.expected_calibration_error y P classes Metrics.default_bins
    = Ok (Metrics.ece res).
Proof.
  unfold Metrics.evaluate. intros H.
  apply bind_ok in H as (idx & Hidx & H).
  apply bind_ok in H as (preds & Hpreds & H).
  apply bind_ok in H as (rpt & Hrpt & H).
  apply bind_ok in H as (cm & Hcm & H).
  apply bind_ok in H as (b & Hb & H).
  apply bind_ok in H as (e & He & H).
  injection H as <-. cbn [Metrics.report Metrics.confusion Metrics.brier Metrics.ece].
  apply argmax_axis1_ok in Hidx as (Hk & ->).
  exists preds. repeat split; assumption.
Qed.

Lemma check_targets_ok (y p : list string) :
  Sk.check_targets y p = Ok tt -> length y = length p /\ (0 < length y)%nat.
Proof.
  unfold Sk.check_targets.
  destruct (negb (length y =? length p)%nat) eqn:E1; [discriminate|].
  destruct (length y =? 0)%nat eqn:E2; [discriminate|]. intros _.
  apply negb_false_iff, Nat.eqb_eq in E1. apply Nat.eqb_neq in E2. lia.
Qed.

Lemma classification_report_ok (y p : list string) (r : Sk.report) :
  Sk.classification_report y p = Ok r ->
  length y = length p /\ (0 < length y)%nat /\
  r = {| Sk.per_label :=
           combine (Sk.unique_labels y p)
                   (map (fun c => Sk.row_of c y p) (Sk.unique_labels y p));
         Sk.accuracy :=
           Sk.ratio (length (filter (fun tp => String.eqb (fst tp) (snd tp)) (combine y p)))
                    (length y);
         Sk.macro_avg :=
           {| Sk.precision := Sk.average Sk.precision
                                (map (fun c => Sk.row_of c y p) (Sk.unique_labels y p));
              Sk.recall := Sk.average Sk.recall
                             (map (fun c => Sk.row_of c y p) (Sk.unique_labels y p));
              Sk.f1_score := Sk.average Sk.f1_score
                               (map (fun c => Sk.row_of c y p) (Sk.unique_labels y p));
              Sk.support := list_sum (map Sk.support
                               (map (fun c => Sk.row_of c y p) (Sk.unique_labels y p))) |};
         Sk.weighted_avg :=
           {| Sk.precision := Sk.weighted Sk.precision
                                (map (fun c => Sk.row_of c y p) (Sk.unique_labels y p));
              Sk.recall := Sk.weighted Sk.recall
                             (map (fun c => Sk.row_of c y p) (Sk.unique_labels y p));
              Sk.f1_score := Sk.weighted Sk.f1_score
                               (map (fun c => Sk.row_of c y p) (Sk.unique_labels y p));
              Sk.support := list_sum (map Sk.support
                               (map (fun c => Sk.row_of c y p) (Sk.unique_labels y p))) |} |}.
Proof.
  unfold Sk.classification_report.
  destruct (Sk.check_targets y p) as [[]|e] eqn:E; cbn [bind]; [|discriminate].
  intros H. injection H as <-.
  destruct (check_targets_ok y p E) as [H1 H2]. repeat split; assumption.
Qed.

Lemma insert_label_NoDup (s : string) (l : list string) :
  ~ In s l -> NoDup l -> NoDup (Sk.insert_label s l).
Proof.
  intros Hs Hl. induction Hl as [|x l Hx Hl IH]; simpl.
  - constructor; [exact Hs | constructor].
  - destruct (String.leb s x).
    + constructor; [exact Hs | constructor; assumption].
    + constructor.
      * rewrite insert_label_In. intros [->|H]; [apply Hs; left; reflexivity | contradiction].
      * apply IH. intros H. apply Hs. right. exact H.
Qed.

Lemma unique_labels_NoDup (y p : list string) : NoDup (Sk.unique_labels y p).
Proof.
  unfold Sk.unique_labels, Sk.sort_labels.
  pose proof (NoDup_nodup string_dec (y ++ p)) as H.
  induction H as [|x l Hx Hl IH]; simpl; [constructor|].
  apply insert_label_NoDup; [|exact IH].
  fold (Sk.sort_labels l). rewrite sort_labels_In. exact Hx.
Qed.

Lemma list_sum_zeros {X : Type} (f : X -> nat) (l : list X) :
  (forall x, In x l -> f x = O) -> list_sum (map f l) = O.
Proof.
  induction l as [|x l IH]; intros H; [reflexivity|].
  cbn [map]. change (list_sum (f x :: map f l)) with (f x + list_sum (map f l))%nat.
  rewrite (H x (or_introl eq_refl)), IH; [reflexivity|].
  intros; apply H; right; assumption.
Qed.

Lemma list_sum_plus {X : Type} (f g : X -> nat) (l : list X) :
  list_sum (map (fun x => f x + g x)%nat l) = (list_sum (map f l) + list_sum (map g l))%nat.
Proof.
  induction l as [|x l IH]; [reflexivity|].
  cbn [map].
  change (list_sum (?a :: ?r)) with (a + list_sum r)%nat.
  rewrite IH.
  change (list_sum (f x :: map f l)) with (f x + list_sum (map f l))%nat.
  change (list_sum (g x :: map g l)) with (g x + list_sum (map g l))%nat.
  lia.
Qed.

Lemma one_hit (a : string) (L : list string) :
  NoDup L ->
  list_sum (map (fun c => if string_dec a c then 1%nat else 0%nat) L)
  = if existsb (String.eqb a) L then 1%nat else 0%nat.
Proof.
  induction 1 as [|x L Hx _ IH]; [reflexivity|].
  cbn [map existsb]. change (list_sum (?h :: ?r)) with (h + list_sum r)%nat.
  rewrite IH. destruct (string_dec a x) as [->|Hne].
  - rewrite String.eqb_refl. cbn [orb].
    destruct (existsb (String.eqb x) L) eqn:E; [|reflexivity].
    apply existsb_exists in E as (z & Hz & Ez). apply String.eqb_eq in Ez. subst z.
    contradiction.
  - apply String.eqb_neq in Hne. rewrite Hne. reflexivity.
Qed.

(** Over distinct labels the counts add up to the number of samples that
    carry one of the labels. *)
Lemma counts_add_up (L y : list string) :
  NoDup L ->
  list_sum (map (fun c => count_occ string_dec y c) L)
  = length (filter (fun l => existsb (String.eqb l) L) y).
Proof.
  intros HL. induction y as [|a y IH].
  - simpl. apply list_sum_zeros. reflexivity.
  - cbn [filter].
    rewrite (map_ext (fun c => count_occ string_dec (a :: y) c)
                     (fun c => ((if string_dec a c then 1 else 0)
                                + count_occ string_dec y c)%nat)).
    + rewrite list_sum_plus, (one_hit a L HL).
      destruct (existsb (String.eqb a) L); simpl; [f_equal|]; exact IH.
    + intros c. simpl. destruct (string_dec a c); reflexivity.
Qed.

Lemma filter_all_length {X : Type} (p : X -> bool) (l : list X) :
  (forall x, In x l -> p x = true) -> length (filter p l) = length l.
Proof.
  intros H. rewrite filter_all; [reflexivity|]. apply Forall_forall. exact H.
Qed.

Lemma supports_add_up (y p : list string) :
  list_sum (map Sk.support (map (fun c => Sk.row_of c y p) (Sk.unique_labels y p)))
  = length y.
Proof.
  rewrite map_map. cbn [Sk.row_of Sk.support]. unfold Sk.count_label.
  rewrite (counts_add_up _ y (unique_labels_NoDup y p)).
  apply filter_all_length. intros l Hl. apply existsb_exists.
  exists l. split; [|apply String.eqb_refl].
  apply unique_labels_In. left. exact Hl.
Qed.

(** X5.  In the report of a returned result every precision, recall and
    F1, per class, macro-averaged and weighted, lies in [0, 1], and so
    does the accuracy; the support of a class is the number of samples
    that carry it, and the supports add up to the number of samples. *)
Theorem report_statistics_in_range (y_true : list string) (probas : Np.ndarray2)
        (classes : list string) (res : Metrics.EvalResult) :
  Metrics.evaluate y_true probas classes = Ok res ->
  Forall (fun cr => Notions.unit_row (snd cr) /\
                    Sk.support (snd cr) = count_occ string_dec y_true (fst cr))
         (Sk.per_label (Metrics.report res)) /\
  Notions.unit_row (Sk.macro_avg (Metrics.report res)) /\
  Notions.unit_row (Sk.weighted_avg (Metrics.report res)) /\
  0 <= Sk.accuracy (Metrics.report res) <= 1 /\
  Sk.support (Sk.macro_avg (Metrics.report res)) = length y_true /\
  Sk.support (Sk.weighted_avg (Metrics.report res)) = length y_true.
Proof.
  intros H. destruct (evaluate_parts _ _ _ _ H) as (preds & _ & _ & Hr & _).
  destruct (classification_report_ok _ _ _ Hr) as (Hlen & Hpos & ->).
  cbn [Sk.per_label Sk.macro_avg Sk.weighted_avg Sk.accuracy
       Sk.precision Sk.recall Sk.f1_score Sk.support].
  set (labels := Sk.unique_labels y_true preds).
  set (rs := map (fun c => Sk.row_of c y_true preds) labels).
  assert (Hrs : Forall Notions.unit_row rs).
  { unfold rs. apply Forall_map, Forall_forall. intros c _. apply row_of_unit. }
  assert (Hp : Forall (fun r => 0 <= Sk.precision r <= 1) rs)
    by (eapply Forall_impl; [|exact Hrs]; intros r (Ha & _ & _); exact Ha).
  assert (Hrc : Forall (fun r => 0 <= Sk.recall r <= 1) rs)
    by (eapply Forall_impl; [|exact Hrs]; intros r (_ & Ha & _); exact Ha).
  assert (Hf : Forall (fun r => 0 <= Sk.f1_score r <= 1) rs)
    by (eapply Forall_impl; [|exact Hrs]; intros r (_ & _ & Ha); exact Ha).
  split.
  { unfold rs. apply Forall_forall. intros [c r] Hin. cbn [fst snd].
    assert (Hr' : r = Sk.row_of c y_true preds).
    { clear - Hin. induction labels as [|l labels IH]; simpl in Hin; [contradiction|].
      destruct Hin as [Hin|Hin]; [injection Hin as <- <-; reflexivity | auto]. }
    subst r. split; [apply row_of_unit | reflexivity]. }
  split.
  { unfold Notions.unit_row. cbn [Sk.precision Sk.recall Sk.f1_score].
    repeat split; apply average_range; assumption. }
  split.
  { unfold Notions.unit_row. cbn [Sk.precision Sk.recall Sk.f1_score].
    repeat split; apply weighted_range; assumption. }
  split.
  { apply ratio_range.
    pose proof (filter_length_le (fun tp : string * string => String.eqb (fst tp) (snd tp))
                                 (combine y_true preds)) as Hle.
    rewrite length_combine in Hle. lia. }
  split; apply supports_add_up.
Qed.

Lemma take_In (classes : list string) (idx : list nat) (preds : list string) :
  Np.take classes idx = Ok preds -> Forall (fun p => In p classes) preds.
Proof.
  unfold Np.take. revert preds. induction idx as [|i idx IH]; intros preds H; simpl in H.
  - injection H as <-. constructor.
  - apply bind_ok in H as (c & Hc & H). apply bind_ok in H as (rest & Hrest & H).
    injection H as <-. constructor; [|apply IH; exact Hrest].
    destruct (nth_error classes i) eqn:E; [|discriminate]. injection Hc as <-.
    eapply nth_error_In. exact E.
Qed.

Lemma confusion_matrix_checks (y p labels : list string) (cm : list (list nat)) :
  Sk.confusion_matrix y p labels = Ok cm ->
  labels <> [] /\ (exists l, In l labels /\ In l y) /\
  cm = map (fun i => map (fun j => Sk.count_cell labels i j y p) (seq 0 (length labels)))
           (seq 0 (length labels)).
Proof.
  unfold Sk.confusion_matrix.
  destruct (Sk.check_targets y p); cbn [bind]; [|discriminate].
  destruct (length labels =? 0)%nat eqn:E; [discriminate|].
  destruct (negb _) eqn:E2; [discriminate|]. intros H. injection H as <-.
  apply Nat.eqb_neq in E. apply negb_false_iff in E2.
  split; [intros ->; simpl in E; lia|]. split; [|reflexivity].
  apply existsb_exists in E2 as (l & Hl & Hy). exists l. split; [exact Hl|].
  apply existsb_exists in Hy as (z & Hz & Ez). apply String.eqb_eq in Ez. subst z. exact Hz.
Qed.

(** A label that is mapped to a position stands at that position. *)
Lemma label_to_ind_Some (labels : list string) (s : nat) (l : string) (m : nat) :
  Sk.label_to_ind labels s l = Some m ->
  (s <= m)%nat /\ nth_error labels (m - s) = Some l.
Proof.
  revert s. induction labels as [|x rest IH]; intros s H; simpl in H; [discriminate|].
  destruct (Sk.label_to_ind rest (S s) l) as [k|] eqn:E.
  - injection H as <-. destruct (IH (S s) E) as [Hle Hn]. split; [lia|].
    replace (k - s)%nat with (S (k - S s)) by lia. exact Hn.
  - destruct (String.eqb x l) eqn:Ex; [|discriminate]. injection H as <-.
    apply String.eqb_eq in Ex. subst. split; [lia|]. rewrite Nat.sub_diag. reflexivity.
Qed.

(** Among distinct labels each is mapped to its own position. *)
Lemma label_to_ind_hit (labels : list string) (s k : nat) (l : string) :
  NoDup labels -> nth_error labels k = Some l ->
  Sk.label_to_ind labels s l = Some (s + k)%nat.
Proof.
  intros Hnd. revert s k. induction Hnd as [|x rest Hx Hnd IH]; intros s k H.
  - destruct k; discriminate.
  - simpl. destruct k as [|k]; simpl in H.
    + injection H as ->. destruct (Sk.label_to_ind rest (S s) l) eqn:E.
      * apply label_to_ind_Some in E as [_ E]. apply nth_error_In in E. contradiction.
      * rewrite String.eqb_refl. f_equal. lia.
    + rewrite (IH (S s) k H). f_equal. lia.
Qed.

Lemma label_position (labels : list string) (i : nat) (a : string) :
  NoDup labels -> (i < length labels)%nat ->
  match Sk.label_to_ind labels 0 a with
  | Some x => (x =? i)%nat
  | None => false
  end = String.eqb a (nth i labels EmptyString).
Proof.
  intros Hnd Hi.
  assert (Hnth : nth_error labels i = Some (nth i labels EmptyString))
    by (apply nth_error_nth'; exact Hi).
  destruct (String.eqb a (nth i labels EmptyString)) eqn:E.
  - apply String.eqb_eq in E. subst a.
    rewrite (label_to_ind_hit labels 0 i _ Hnd Hnth). apply Nat.eqb_refl.
  - apply String.eqb_neq in E.
    destruct (Sk.label_to_ind labels 0 a) as [x|] eqn:Ex; [|reflexivity].
    apply label_to_ind_Some in Ex as [_ Ex]. rewrite Nat.sub_0_r in Ex.
    apply Nat.eqb_neq. intros ->. congruence.
Qed.

Lemma count_cell_distinct (labels : list string) (i j : nat) (y p : list string) :
  NoDup labels -> (i < length labels)%nat -> (j < length labels)%nat ->
  Sk.count_cell labels i j y p
  = Sk.count_pair (nth i labels EmptyString) (nth j labels EmptyString) y p.
Proof.
  intros Hnd Hi Hj. unfold Sk.count_cell, Sk.count_pair. f_equal.
  apply filter_ext. intros [a b]. cbn [fst snd].
  rewrite <- (label_position labels i a Hnd Hi), <- (label_position labels j b Hnd Hj).
  destruct (Sk.label_to_ind labels 0 a), (Sk.label_to_ind labels 0 b);
    rewrite ?andb_false_r; reflexivity.
Qed.

Lemma map_nth_seq {X Y : Type} (f : X -> Y) (l : list X) (d : X) :
  map (fun i => f (nth i l d)) (seq 0 (length l)) = map f l.
Proof.
  induction l as [|x l IH]; [reflexivity|].
  cbn [length seq map nth]. f_equal.
  rewrite <- seq_shift, map_map. exact IH.
Qed.

(** With distinct labels, entry (i, j) counts the samples of true label
    [labels[i]] predicted [labels[j]]. *)
Lemma confusion_matrix_ok (y p labels : list string) (cm : list (list nat)) :
  NoDup labels ->
  Sk.confusion_matrix y p labels = Ok cm ->
  labels <> [] /\ (exists l, In l labels /\ In l y) /\
  cm = map (fun t => map (fun q => Sk.count_pair t q y p) labels) labels.
Proof.
  intros Hnd H. destruct (confusion_matrix_checks y p labels cm H) as (Hne & Hex & ->).
  split; [exact Hne|]. split; [exact Hex|].
  rewrite <- (map_nth_seq (fun t => map (fun q => Sk.count_pair t q y p) labels)
                labels EmptyString).
  apply map_ext_in. intros i Hi. apply in_seq in Hi.
  rewrite <- (map_nth_seq (fun q => Sk.count_pair (nth i labels EmptyString) q y p)
                labels EmptyString).
  apply map_ext_in. intros j Hj. apply in_seq in Hj.
  apply count_cell_distinct; [exact Hnd | lia | lia].
Qed.

(** A row of the matrix adds up to the samples of its true class whose
    prediction is one of the labels. *)
Lemma confusion_row_sum (t : string) (y p labels : list string) :
  NoDup labels ->
  list_sum (map (fun q => Sk.count_pair t q y p) labels)
  = length (filter (fun tp => String.eqb (fst tp) t
                              && existsb (String.eqb (snd tp)) labels)
                   (combine y p)).
Proof.
  induction 1 as [|l labels Hl _ IH].
  - simpl. induction (combine y p) as [|x rest IHc]; simpl; [reflexivity|].
    rewrite andb_false_r. exact IHc.
  - cbn [map]. change (list_sum (?a :: ?r)) with (a + list_sum r)%nat. rewrite IH.
    unfold Sk.count_pair. symmetry. apply filter_split_length.
    + intros [a b]. cbn [fst snd existsb].
      destruct (String.eqb a t), (String.eqb b l), (existsb (String.eqb b) labels);
        reflexivity.
    + intros [a b]. cbn [fst snd].
      destruct (String.eqb b l) eqn:E; [|rewrite andb_false_r; reflexivity].
      apply String.eqb_eq in E. subst b.
      destruct (existsb (String.eqb l) labels) eqn:E2.
      * apply existsb_exists in E2 as (z & Hz & Ez). apply String.eqb_eq in Ez. subst z.
        contradiction.
      * rewrite !andb_false_r. reflexivity.
Qed.

Lemma count_first {Y : Type} (t : string) (y : list string) (p : list Y) :
  length y = length p ->
  length (filter (fun tp => String.eqb (fst tp) t) (combine y p))
  = count_occ string_dec y t.
Proof.
  revert p. induction y as [|a y IH]; intros [|b p] H; simpl in *;
    try reflexivity; try discriminate.
  destruct (string_dec a t) as [->|Hne].
  - rewrite String.eqb_refl. simpl. rewrite IH by lia. reflexivity.
  - apply String.eqb_neq in Hne. rewrite Hne. apply IH. lia.
Qed.

Lemma confusion_row_total (t : string) (y p labels : list string) :
  NoDup labels -> length y = length p -> Forall (fun q => In q labels) p ->
  list_sum (map (fun q => Sk.count_pair t q y p) labels) = count_occ string_dec y t.
Proof.
  intros Hnd Hlen Hin. rewrite (confusion_row_sum t y p labels Hnd).
  rewrite <- (count_first t y p Hlen).
  f_equal. apply filter_ext_in. intros [a b] Hab. cbn [fst snd].
  assert (Hb : existsb (String.eqb b) labels = true).
  { apply existsb_exists. exists b. split; [|apply String.eqb_refl].
    rewrite Forall_forall in Hin. apply Hin. eapply in_combine_r. exact Hab. }
  rewrite Hb, andb_true_r. reflexivity.
Qed.

(** X6.  The confusion matrix of a returned result is K x K for the K
    classes given; with distinct class names, row [i] adds up to the
    number of samples whose true label is class [i], and the whole matrix
    adds up to the number of samples whose true label is among the
    classes: to all of them when every label is. *)
Theorem confusion_matrix_accounts (y_true : list string) (probas : Np.ndarray2)
        (classes : list string) (res : Metrics.EvalResult) :
  Metrics.evaluate y_true probas classes = Ok res ->
  NoDup classes ->
  length (Metrics.confusion res) = length classes /\
  Forall (fun row => length row = length classes) (Metrics.confusion res) /\
  (forall i, (i < length classes)%nat ->
     list_sum (nth i (Metrics.confusion res) [])
     = count_occ string_dec y_true (nth i classes EmptyString)) /\
  list_sum (map (fun row => list_sum row) (Metrics.confusion res))
  = length (filter (fun l => existsb (String.eqb l) classes) y_true) /\
  (Forall (fun l => In l classes) y_true ->
   list_sum (map (fun row => list_sum row) (Metrics.confusion res)) = length y_true).
Proof.
  intros H Hnd.
  destruct (evaluate_parts _ _ _ _ H) as (preds & _ & Htake & Hr & Hcm & _).
  destruct (classification_report_ok _ _ _ Hr) as (Hlen & _ & _).
  destruct (confusion_matrix_ok _ _ _ _ Hnd Hcm) as (_ & _ & ->).
  pose proof (take_In _ _ _ Htake) as Hin.
  assert (Hrow : forall t, list_sum (map (fun q => Sk.count_pair t q y_true preds) classes)
                           = count_occ string_dec y_true t)
    by (intros t; apply confusion_row_total; assumption).
  assert (Htotal : list_sum (map (fun row => list_sum row)
                      (map (fun t => map (fun q => Sk.count_pair t q y_true preds) classes)
                           classes))
                   = length (filter (fun l => existsb (String.eqb l) classes) y_true)).
  { rewrite map_map. rewrite (map_ext _ (fun c => count_occ string_dec y_true c) Hrow).
    apply counts_add_up. exact Hnd. }
  split; [apply length_map|].
  split; [apply Forall_map, Forall_forall; intros t _; apply length_map|].
  split.
  { intros i Hi.
    rewrite (nth_map_default (fun t => map (fun q => Sk.count_pair t q y_true preds) classes)
               classes EmptyString [] i Hi).
    apply Hrow. }
  split; [exact Htotal|].
  intros Hall. rewrite Htotal. apply filter_all_length. intros l Hl.
  apply existsb_exists. exists l. split; [|apply String.eqb_refl].
  rewrite Forall_forall in Hall. apply Hall. exact Hl.
Qed.

End ReportStatistics.

Lemma report_statistics_in_range_witness :
  exists res,
    Metrics.evaluate [Spec.A; Spec.A; Spec.B; Spec.B] Spec.scenario_probas [Spec.A; Spec.B]
    = Ok res /\
    Notions.unit_row (Sk.macro_avg (Metrics.report res)) /\
    Notions.unit_row (Sk.weighted_avg (Metrics.report res)) /\
    0 <= Sk.accuracy (Metrics.report res) <= 1 /\
    Sk.support (Sk.macro_avg (Metrics.report res)) = 4%nat /\
    Sk.support (Sk.weighted_avg (Metrics.report res)) = 4%nat.
Proof.
  eexists. split; [vm_compute; reflexivity|].
  apply (report_statistics_in_range [Spec.A; Spec.A; Spec.B; Spec.B] Spec.scenario_probas
           [Spec.A; Spec.B]).
  vm_compute. reflexivity.
Defined.

Lemma confusion_matrix_accounts_witness :
  exists res,
    Metrics.evaluate [Spec.A; Spec.A; Spec.B; Spec.B] Spec.scenario_probas [Spec.A; Spec.B]
    = Ok res /\
    NoDup [Spec.A; Spec.B] /\
    length (Metrics.confusion res) = 2%nat /\
    list_sum (map (fun row => list_sum row) (Metrics.confusion res)) = 4%nat.
Proof.
  assert (Hd : NoDup [Spec.A; Spec.B]).
  { constructor; [intros [H|[]]; discriminate H|]. constructor; [intros []|constructor]. }
  eexists. split; [vm_compute; reflexivity|]. split; [exact Hd|].
  match goal with
  | |- length (Metrics.confusion ?r) = _ /\ _ =>
      assert (He : Metrics.evaluate [Spec.A; Spec.A; Spec.B; Spec.B] Spec.scenario_probas
                     [Spec.A; Spec.B] = Ok r) by (vm_compute; reflexivity);
      destruct (confusion_matrix_accounts [Spec.A; Spec.A; Spec.B; Spec.B]
                  Spec.scenario_probas [Spec.A; Spec.B] r He Hd)
        as (Hlen & _ & _ & _ & Hall)
  end.
  split; [exact Hlen|].
  apply Hall. repeat (apply Forall_cons; [simpl; auto|]). apply Forall_nil.
Defined.

(** ** When evaluate returns *)

Section EvaluateDomain.

Local Open Scope Q_scope.

Lemma forallb_argmax (classes : list string) (rows : list (list Q)) :
  forallb (fun r => (Np.row_argmax r <? length classes)%nat) rows = true <->
  Forall (fun r => (Np.row_argmax r < length classes)%nat) rows.
Proof.
  rewrite forallb_forall, Forall_forall.
  split; intros H r Hr; [apply Nat.ltb_lt | apply Nat.ltb_lt]; apply H; exact Hr.
Qed.

(** X7.  [evaluate] returns a result exactly when the matrix has a
    column, every row's argmax has a class, there is one label per row
    and at least one row, some class occurs among the labels, every class
    has its column and those columns hold probabilities.  The result then
    carries the values of [multiclass_brier] and of
    [expected_calibration_error] over 15 bins, both in [0, 1]. *)
Theorem evaluate_returns_exactly_when (y_true : list string) (probas : Np.ndarray2)
        (classes : list string) :
  ((exists res, Metrics.evaluate y_true probas classes = Ok res) <->
   (0 < Np.ncols probas)%nat /\
   Forall (fun r => (Np.row_argmax r < length classes)%nat) (Np.rows probas) /\
   length y_true = Np.nrows probas /\ (0 < Np.nrows probas)%nat /\
   (exists l, In l classes /\ In l y_true) /\
   (length classes <= Np.ncols probas)%nat /\
   forall j k, (j < Np.nrows probas)%nat -> (k < length classes)%nat ->
               0 <= Spec.entry probas j k <= 1) /\
  (forall res, Metrics.evaluate y_true probas classes = Ok res ->
     Metrics.multiclass_brier y_true probas classes = Ok (Metrics.brier res) /\
     Metrics.expected_calibration_error y_true probas classes 15 = Ok (Metrics.ece res) /\
     0 <= Metrics.brier res <= 1 /\ 0 <= Metrics.ece res <= 1).
Proof.
  split.
  - split.
    + intros (res & H).
      destruct (evaluate_parts _ _ _ _ H) as (preds & Hk & Htake & Hr & Hcm & Hb & He).
      destruct (classification_report_ok _ _ _ Hr) as (Hlen & Hpos & _).
      destruct (confusion_matrix_checks _ _ _ _ Hcm) as (_ & Hex & _).
      destruct (proj1 (multiclass_brier_returns y_true probas classes)
                      (ex_intro _ _ Hb)) as (_ & Hc & _ & _ & Hent).
      rewrite take_argmax_outcome in Htake.
      destruct (forallb _ (Np.rows probas)) eqn:Ef; [|discriminate].
      injection Htake as <-. rewrite length_map in Hlen. fold (Np.nrows probas) in Hlen.
      split; [lia|]. split; [apply forallb_argmax; exact Ef|].
      split; [exact Hlen|]. split; [lia|]. split; [exact Hex|].
      split; [exact Hc | exact Hent].
    + intros (Hk & Harg & Hlen & Hpos & (l & Hlc & Hly) & Hc & Hent).
      apply forallb_argmax in Harg.
      assert (Hne : classes <> []) by (intros ->; contradiction).
      destruct (proj2 (multiclass_brier_returns y_true probas classes)) as (b & Hb).
      { split; [exact Hne|]. split; [exact Hc|]. split; [exact Hlen|].
        split; [exact Hpos | exact Hent]. }
      destruct (ece_outcome y_true probas classes Metrics.default_bins Hlen)
        as (_ & _ & Hece).
      destruct (Hece ltac:(lia) Harg) as (e & He & _).
      unfold Metrics.evaluate, Np.argmax_axis1.
      destruct (Np.ncols probas =? 0)%nat eqn:E; [apply Nat.eqb_eq in E; lia|].
      cbn [bind]. rewrite take_argmax_outcome, Harg. cbn [bind].
      set (preds := map (fun r => nth (Np.row_argmax r) classes EmptyString)
                        (Np.rows probas)).
      assert (Hcheck : Sk.check_targets y_true preds = Ok tt).
      { unfold Sk.check_targets, preds. rewrite length_map. fold (Np.nrows probas).
        rewrite Hlen, Nat.eqb_refl. cbn [negb].
        destruct (Np.nrows probas =? 0)%nat eqn:E2;
          [apply Nat.eqb_eq in E2; lia | reflexivity]. }
      unfold Sk.classification_report. rewrite Hcheck. cbn [bind].
      unfold Sk.confusion_matrix. rewrite Hcheck. cbn [bind].
      destruct (length classes =? 0)%nat eqn:E3;
        [apply Nat.eqb_eq in E3; destruct classes; [congruence | discriminate]|].
      assert (Hex : existsb (fun c => existsb (String.eqb c) y_true) classes = true).
      { apply existsb_exists. exists l. split; [exact Hlc|].
        apply existsb_exists. exists l. split; [exact Hly | apply String.eqb_refl]. }
      rewrite Hex. cbn [negb bind]. rewrite Hb. cbn [bind]. rewrite He. cbn [bind].
      eexists. reflexivity.
  - intros res H.
    destruct (evaluate_parts _ _ _ _ H) as (preds & _ & _ & _ & _ & Hb & He).
    split; [exact Hb|]. split; [exact He|].
    split; [eapply multiclass_brier_range; exact Hb | eapply ece_range; exact He].
Qed.

End EvaluateDomain.

(** ** bootstrap_ci: where the interval lies *)

Section BootstrapInterval.

Local Open Scope Q_scope.

Variable G : RunCV.BitGenerator.

Lemma mean_between (m M : Q) (xs : list Q) :
  xs <> [] -> Forall (fun x => m <= x <= M) xs ->
  m <= Np.sum xs / Np.of_nat (length xs) <= M.
Proof.
  intros Hne HF. pose proof (sum_bounds m M xs HF) as [H0 H1].
  assert (Hn : 0 < Np.of_nat (length xs))
    by (apply of_nat_pos; destruct xs; [congruence | simpl; lia]).
  set (n := Np.of_nat (length xs)) in *. split.
  - apply Qle_shift_div_l; [exact Hn | lra].
  - apply Qle_shift_div_r; [exact Hn | lra].
Qed.

Lemma interpolate_within (m M : Q) (l : list Q) (q : Q) :
  Spec.ascending l -> (0 < length l)%nat -> 0 <= q <= 100 ->
  Forall (fun x => m <= x <= M) l ->
  m <= RunCV.interpolate l q <= M.
Proof.
  intros Hasc Hn Hq HF.
  destruct (interpolate_between l q Hasc Hn Hq) as (Hj & Hlo & Hhi).
  rewrite Forall_forall in HF.
  set (j := Z.to_nat (Qfloor (Np.of_nat (length l - 1) * q / 100))) in *.
  assert (H1 : m <= nth j l 0 <= M) by (apply HF, nth_In; lia).
  assert (H2 : m <= nth (Nat.min (S j) (length l - 1)) l 0 <= M)
    by (apply HF, nth_In; lia).
  lra.
Qed.

(** What a run computes, when it returns: the two percentiles of one
    sorted list of resample means. *)
Lemma bootstrap_ci_run (values : list Q) (n_boot : nat) (seed : Z) :
  values <> [] -> (0 < n_boot)%nat -> (0 <= seed)%Z ->
  exists boots,
    (0 < length boots)%nat /\ Spec.ascending boots /\
    Forall (fun b => exists sample,
                sample <> [] /\ Forall (fun x => In x values) sample /\
                b = Np.sum sample / Np.of_nat (length sample)) boots /\
    forall alpha w, 0 <= alpha -> alpha <= 2 ->
      fst (RunCV.bootstrap_ci G values n_boot alpha seed w)
      = Ok (RunCV.interpolate boots (100 * (alpha / 2)),
            RunCV.interpolate boots (100 * (1 - alpha / 2))).
Proof.
  intros Hv Hn Hseed.
  destruct (resample_means_ok G values n_boot Hv (RunCV.seed_state G seed))
    as (boots & Hseq & Hlen & Hall).
  assert (Hne : boots <> []) by (intros ->; simpl in Hlen; lia).
  exists (RunCV.sort boots).
  split; [rewrite sort_length; lia|]. split; [apply sort_ascending|]. split.
  - apply Forall_forall. intros b Hb. apply (proj1 (sort_In b boots)) in Hb.
    rewrite Forall_forall in Hall. apply Hall. exact Hb.
  - intros alpha w Ha0 Ha2.
    unfold RunCV.bootstrap_ci. rewrite (default_rng_seeded G seed w Hseed). cbn [fst bind].
    destruct (percentile_ranks alpha) as [Elo Ehi].
    assert (Hqlo : 0 <= 100 * (alpha / 2) <= 100) by (rewrite Elo; split; lra).
    assert (Hqhi : 0 <= 100 * (1 - alpha / 2) <= 100) by (rewrite Ehi; split; lra).
    rewrite (percentile_ok _ boots _ Hseq Hne Hqlo). cbn [bind].
    rewrite (percentile_ok _ boots _ Hseq Hne Hqhi). cbn [bind]. reflexivity.
Qed.

(** X9.  A smaller significance level gives a wider interval around the
    same resamples: for [alpha1 <= alpha2 <= 1] the interval at [alpha2]
    lies inside the interval at [alpha1]. *)
Theorem bootstrap_ci_nested (values : list Q) (n_boot : nat) (alpha1 alpha2 : Q)
        (seed : Z) (w : RunCV.World) :
  values <> [] -> (0 < n_boot)%nat -> (0 <= seed)%Z ->
  0 <= alpha1 -> alpha1 <= alpha2 -> alpha2 <= 1 ->
  exists lo1 hi1 lo2 hi2,
    fst (RunCV.bootstrap_ci G values n_boot alpha1 seed w) = Ok (lo1, hi1) /\
    fst (RunCV.bootstrap_ci G values n_boot alpha2 seed w) = Ok (lo2, hi2) /\
    lo1 <= lo2 /\ lo2 <= hi2 /\ hi2 <= hi1.
Proof.
  intros Hv Hn Hseed H0 H12 H1.
  destruct (bootstrap_ci_run values n_boot seed Hv Hn Hseed)
    as (boots & Hlen & Hasc & _ & Hrun).
  rewrite (Hrun alpha1 w) by lra. rewrite (Hrun alpha2 w) by lra.
  do 4 eexists. split; [reflexivity|]. split; [reflexivity|].
  destruct (percentile_ranks alpha1) as [Elo1 Ehi1].
  destruct (percentile_ranks alpha2) as [Elo2 Ehi2].
  repeat split; apply interpolate_mono; try assumption; lra.
Qed.

Lemma bootstrap_ci_bad_arguments (values : list Q) (n_boot : nat) (alpha : Q)
      (seed : Z) (w : RunCV.World) :
  (seed < 0)%Z \/ alpha < 0 \/ 2 < alpha ->
  fst (RunCV.bootstrap_ci G values n_boot alpha seed w) = Raise ValueError.
Proof.
  intros [Hs | Ha].
  - unfold RunCV.bootstrap_ci, RunCV.default_rng.
    apply Z.ltb_lt in Hs. rewrite Hs. reflexivity.
  - apply bootstrap_ci_alpha_rejected. exact Ha.
Qed.

(** With nothing to resample every resample is empty and its mean is
    [nan]. *)
Lemma bootstrap_ci_nothing_to_resample (n_boot : nat) (alpha : Q)
      (seed : Z) (w : RunCV.World) :
  (0 <= seed)%Z -> 0 <= alpha -> alpha <= 2 -> (0 < n_boot)%nat ->
  fst (RunCV.bootstrap_ci G [] n_boot alpha seed w) = Raise NaNResult.
Proof.
  intros Hseed Ha0 Ha2 Hn.
  unfold RunCV.bootstrap_ci. rewrite (default_rng_seeded G seed w Hseed). cbn [fst bind].
  destruct (percentile_ranks alpha) as [Elo _].
  assert (Hq0 : Np.Qltb (100 * (alpha / 2)) 0 = false) by (apply Qltb_ge; rewrite Elo; lra).
  assert (Hq1 : Np.Qltb 100 (100 * (alpha / 2)) = false)
    by (apply Qltb_ge; rewrite Elo; lra).
  unfold RunCV.percentile at 1. rewrite Hq0, Hq1. cbn [orb].
  destruct n_boot as [|n]; [lia|]. reflexivity.
Qed.

(** With no resample there is no mean to take a percentile of. *)
Lemma bootstrap_ci_no_resample (values : list Q) (alpha : Q) (seed : Z) (w : RunCV.World) :
  (0 <= seed)%Z -> 0 <= alpha -> alpha <= 2 ->
  fst (RunCV.bootstrap_ci G values 0 alpha seed w) = Raise IndexError.
Proof.
  intros Hseed Ha0 Ha2.
  unfold RunCV.bootstrap_ci. rewrite (default_rng_seeded G seed w Hseed). cbn [fst bind].
  destruct (percentile_ranks alpha) as [Elo _].
  assert (Hq0 : Np.Qltb (100 * (alpha / 2)) 0 = false) by (apply Qltb_ge; rewrite Elo; lra).
  assert (Hq1 : Np.Qltb 100 (100 * (alpha / 2)) = false)
    by (apply Qltb_ge; rewrite Elo; lra).
  unfold RunCV.percentile at 1. rewrite Hq0, Hq1. reflexivity.
Qed.

Lemma bootstrap_ci_world (values : list Q) (n_boot : nat) (alpha : Q)
      (seed : Z) (w : RunCV.World) :
  snd (RunCV.bootstrap_ci G values n_boot alpha seed w) = w.
Proof.
  unfold RunCV.bootstrap_ci, RunCV.default_rng.
  destruct (seed <? 0)%Z; reflexivity.
Qed.

(** X10.  [bootstrap_ci] returns a pair exactly when the seed is not
    negative, the level lies in [0, 2], there is a value to resample and
    at least one resample is asked for.  A negative seed or a level
    outside [0, 2] is a [ValueError]; otherwise no resample is an
    [IndexError], and resamples of no value give [nan]. *)
Theorem bootstrap_ci_returns_exactly_when (values : list Q) (n_boot : nat) (alpha : Q)
        (seed : Z) (w : RunCV.World) :
  ((exists lo hi, fst (RunCV.bootstrap_ci G values n_boot alpha seed w) = Ok (lo, hi)) <->
   (0 <= seed)%Z /\ 0 <= alpha /\ alpha <= 2 /\ values <> [] /\ (0 < n_boot)%nat) /\
  ((seed < 0)%Z \/ alpha < 0 \/ 2 < alpha ->
   fst (RunCV.bootstrap_ci G values n_boot alpha seed w) = Raise ValueError) /\
  ((0 <= seed)%Z -> 0 <= alpha -> alpha <= 2 -> n_boot = O ->
   fst (RunCV.bootstrap_ci G values n_boot alpha seed w) = Raise IndexError) /\
  ((0 <= seed)%Z -> 0 <= alpha -> alpha <= 2 -> values = [] -> (0 < n_boot)%nat ->
   fst (RunCV.bootstrap_ci G values n_boot alpha seed w) = Raise NaNResult).
Proof.
  pose proof (bootstrap_ci_bad_arguments values n_boot alpha seed w) as Hbad.
  assert (Hidx : (0 <= seed)%Z -> 0 <= alpha -> alpha <= 2 -> n_boot = O ->
            fst (RunCV.bootstrap_ci G values n_boot alpha seed w) = Raise IndexError).
  { intros Hs Ha0 Ha2 ->. apply bootstrap_ci_no_resample; assumption. }
  assert (Hnan : (0 <= seed)%Z -> 0 <= alpha -> alpha <= 2 -> values = [] ->
            (0 < n_boot)%nat ->
            fst (RunCV.bootstrap_ci G values n_boot alpha seed w) = Raise NaNResult).
  { intros Hs Ha0 Ha2 -> Hn. apply bootstrap_ci_nothing_to_resample; assumption. }
  split; [|split; [exact Hbad | split; assumption]].
  split.
  - intros (lo & hi & H).
    destruct (Z_lt_le_dec seed 0) as [Hs|Hs]; [rewrite Hbad in H by auto; discriminate|].
    destruct (Qlt_le_dec alpha 0) as [Ha|Ha]; [rewrite Hbad in H by auto; discriminate|].
    destruct (Qlt_le_dec 2 alpha) as [Hb|Hb]; [rewrite Hbad in H by auto; discriminate|].
    destruct n_boot as [|n]; [rewrite Hidx in H by auto; discriminate|].
    destruct values as [|v values];
      [rewrite Hnan in H by (auto; lia); discriminate|].
    repeat split; try assumption; [discriminate | lia].
  - intros (Hs & Ha0 & Ha2 & Hv & Hn).
    destruct (bootstrap_ci_run values n_boot seed Hv Hn Hs) as (boots & _ & _ & _ & Hrun).
    rewrite (Hrun alpha w Ha0 Ha2). do 2 eexists. reflexivity.
Qed.

End BootstrapInterval.

Lemma bootstrap_ci_nested_witness :
  exists lo1 hi1 lo2 hi2,
    fst (RunCV.bootstrap_ci Spec.lcg [0; 1] 4 (1 # 20) 42 Spec.quiet_world) = Ok (lo1, hi1) /\
    fst (RunCV.bootstrap_ci Spec.lcg [0; 1] 4 (1 # 2) 42 Spec.quiet_world) = Ok (lo2, hi2) /\
    lo1 <= lo2 /\ lo2 <= hi2 /\ hi2 <= hi1.
Proof.
  apply (bootstrap_ci_nested Spec.lcg [0; 1] 4 (1 # 20) (1 # 2) 42 Spec.quiet_world).
  - discriminate.
  - lia.
  - lia.
  - unfold Qle; simpl; lia.
  - unfold Qle; simpl; lia.
  - unfold Qle; simpl; lia.
Defined.

(** ** load_logs: the duplicates *)

Section Duplicates.

Local Open Scope nat_scope.

Lemma cell_eqb_eq (a b : LogsLoader.cell) : LogsLoader.cell_eqb a b = true <-> a = b.
Proof.
  destruct a as [t|s], b as [u|v]; simpl;
    rewrite ?Z.eqb_eq, ?String.eqb_eq; split; congruence.
Qed.

Lemma same_key_iff (a b : LogsLoader.row) :
  LogsLoader.same_key a b = true <-> Notions.key a = Notions.key b.
Proof.
  unfold LogsLoader.same_key, Notions.key.
  rewrite !andb_true_iff, cell_eqb_eq, !String.eqb_eq.
  split; [intros [[-> ->] ->]; reflexivity | intros H; injection H; auto].
Qed.

Lemma same_key_false (a b : LogsLoader.row) :
  LogsLoader.same_key a b = false <-> Notions.key a <> Notions.key b.
Proof.
  rewrite <- same_key_iff. destruct (LogsLoader.same_key a b); split; congruence.
Qed.

Lemma same_key_congr (a b x : LogsLoader.row) :
  Notions.key a = Notions.key b -> LogsLoader.same_key a x = LogsLoader.same_key b x.
Proof.
  intros H. destruct (LogsLoader.same_key b x) eqn:E.
  - apply same_key_iff. apply same_key_iff in E. congruence.
  - apply same_key_false. apply same_key_false in E. congruence.
Qed.

Lemma key_seen (r : LogsLoader.row) (earlier : list LogsLoader.row) :
  existsb (LogsLoader.same_key r) earlier = true <->
  In (Notions.key r) (map Notions.key earlier).
Proof.
  rewrite existsb_exists, in_map_iff. split.
  - intros (x & Hx & E). exists x. apply same_key_iff in E. auto.
  - intros (x & E & Hx). exists x. split; [exact Hx | apply same_key_iff; auto].
Qed.

Lemma key_unseen (r : LogsLoader.row) (earlier : list LogsLoader.row) :
  existsb (LogsLoader.same_key r) earlier = false <->
  ~ In (Notions.key r) (map Notions.key earlier).
Proof.
  rewrite <- key_seen. destruct (existsb _ earlier); split; congruence.
Qed.

(** The rows kept when [earlier] rows came before. *)
Lemma kept_step (earlier : list LogsLoader.row) (a : LogsLoader.row)
      (rest : list LogsLoader.row) :
  Np.select (map negb (LogsLoader.duplicated_from earlier (a :: rest))) (a :: rest)
  = if existsb (LogsLoader.same_key a) earlier
    then Np.select (map negb (LogsLoader.duplicated_from (a :: earlier) rest)) rest
    else a :: Np.select (map negb (LogsLoader.duplicated_from (a :: earlier) rest)) rest.
Proof.
  simpl. destruct (existsb (LogsLoader.same_key a) earlier); reflexivity.
Qed.

Lemma kept_unseen (rows earlier : list LogsLoader.row) (r : LogsLoader.row) :
  In r (Np.select (map negb (LogsLoader.duplicated_from earlier rows)) rows) ->
  ~ In (Notions.key r) (map Notions.key earlier).
Proof.
  revert earlier. induction rows as [|a rest IH]; intros earlier H; [contradiction|].
  rewrite kept_step in H.
  destruct (existsb (LogsLoader.same_key a) earlier) eqn:E.
  - specialize (IH _ H). simpl in IH. tauto.
  - destruct H as [<-|H]; [apply key_unseen; exact E|].
    specialize (IH _ H). simpl in IH. tauto.
Qed.

Lemma kept_distinct (rows earlier : list LogsLoader.row) :
  NoDup (map Notions.key
             (Np.select (map negb (LogsLoader.duplicated_from earlier rows)) rows)).
Proof.
  revert earlier. induction rows as [|a rest IH]; intros earlier; [constructor|].
  rewrite kept_step.
  destruct (existsb (LogsLoader.same_key a) earlier); [apply IH|].
  cbn [map]. constructor; [|apply IH].
  intros Hin. apply in_map_iff in Hin as (x & E & Hx).
  apply kept_unseen in Hx. apply Hx. simpl. left. congruence.
Qed.

Lemma select_sublist {X : Type} (mask : list bool) (l : list X) :
  length mask = length l -> Notions.sublist (Np.select mask l) l.
Proof.
  revert mask. induction l as [|x l IH]; intros [|b mask] H; simpl in *;
    try discriminate; [constructor|].
  destruct b; constructor; apply IH; lia.
Qed.

Lemma duplicated_from_length (rows earlier : list LogsLoader.row) :
  length (LogsLoader.duplicated_from earlier rows) = length rows.
Proof.
  revert earlier. induction rows as [|a rest IH]; intros earlier; simpl; [reflexivity|].
  rewrite IH. reflexivity.
Qed.

(** A kept row is the first row of the table with its key, and each
    first row whose key did not come earlier is kept. *)
Lemma kept_first (rows earlier : list LogsLoader.row) (r : LogsLoader.row) :
  In r (Np.select (map negb (LogsLoader.duplicated_from earlier rows)) rows) <->
  ~ In (Notions.key r) (map Notions.key earlier) /\
  find (LogsLoader.same_key r) rows = Some r.
Proof.
  revert earlier. induction rows as [|a rest IH]; intros earlier.
  - simpl. split; [contradiction | intros [_ H]; discriminate].
  - rewrite kept_step. cbn [find].
    destruct (LogsLoader.same_key r a) eqn:Era.
    + apply same_key_iff in Era.
      assert (Hnot : ~ In r (Np.select (map negb (LogsLoader.duplicated_from (a :: earlier) rest))
                                       rest)).
      { intros H. apply kept_unseen in H. apply H. simpl. left. congruence. }
      destruct (existsb (LogsLoader.same_key a) earlier) eqn:E.
      * split; [contradiction|]. intros [Hun _]. exfalso. apply Hun.
        rewrite Era. apply key_seen. exact E.
      * split.
        -- intros [<-|H]; [|contradiction].
           split; [apply key_unseen; exact E | reflexivity].
        -- intros [_ H]. injection H as <-. left. reflexivity.
    + apply same_key_false in Era.
      assert (Hne : a <> r) by (intros ->; congruence).
      pose proof (IH (a :: earlier)) as IH'. cbn [map In] in IH'.
      set (kept := Np.select (map negb (LogsLoader.duplicated_from (a :: earlier) rest))
                             rest) in *.
      assert (Hequiv : In r kept <->
                       ~ In (Notions.key r) (map Notions.key earlier) /\
                       find (LogsLoader.same_key r) rest = Some r).
      { rewrite IH'. split; intros [H1 H2]; (split; [|exact H2]).
        - intros H. apply H1. right. exact H.
        - intros [H|H]; [congruence | contradiction]. }
      destruct (existsb (LogsLoader.same_key a) earlier); [exact Hequiv|].
      rewrite <- Hequiv. simpl. split; [intros [H|H]; [contradiction | exact H] | auto].
Qed.

Lemma find_congr (a b : LogsLoader.row) (rows : list LogsLoader.row) :
  Notions.key a = Notions.key b ->
  find (LogsLoader.same_key a) rows = find (LogsLoader.same_key b) rows.
Proof.
  intros H. induction rows as [|x rows IH]; simpl; [reflexivity|].
  rewrite (same_key_congr a b x H), IH. reflexivity.
Qed.

Lemma find_first (r : LogsLoader.row) (rows : list LogsLoader.row) :
  In r rows ->
  exists r', find (LogsLoader.same_key r) rows = Some r' /\ Notions.key r' = Notions.key r.
Proof.
  intros Hin. destruct (find (LogsLoader.same_key r) rows) as [r'|] eqn:E.
  - exists r'. split; [reflexivity|].
    apply find_some in E as [_ E]. apply same_key_iff in E. congruence.
  - exfalso. pose proof (find_none _ _ E r Hin) as H.
    apply same_key_false in H. congruence.
Qed.

Lemma kept_all (rows earlier : list LogsLoader.row) :
  NoDup (map Notions.key rows) ->
  (forall r, In r rows -> ~ In (Notions.key r) (map Notions.key earlier)) ->
  Np.select (map negb (LogsLoader.duplicated_from earlier rows)) rows = rows.
Proof.
  revert earlier. induction rows as [|a rest IH]; intros earlier Hnd Hun; [reflexivity|].
  rewrite kept_step. cbn [map] in Hnd. inversion Hnd as [|? ? Ha Hrest]; subst.
  rewrite (proj2 (key_unseen a earlier) (Hun a (or_introl eq_refl))).
  f_equal. apply IH; [exact Hrest|].
  intros r Hr [E|Hin].
  - apply Ha. rewrite E. apply in_map. exact Hr.
  - apply (Hun r (or_intror Hr)). exact Hin.
Qed.

(** What [load_logs] comes to: no row, or a cell that is no date, and
    the [.dt] accessor is missing; otherwise the rows without their
    duplicates, the stamps in a time zone. *)
Lemma load_logs_outcome (file : LogsLoader.csv) :
  LogsLoader.load_logs file
  = match LogsLoader.lines file with
    | [] => Raise AttributeError
    | _ :: _ =>
        if forallb (fun r => LogsLoader.is_instant (LogsLoader.timestamp r))
                   (LogsLoader.lines file)
        then Ok {| LogsLoader.stamps :=
                     LogsLoader.Datetime (Some (match LogsLoader.offset file with
                                                | None => "UTC"%string
                                                | Some zone => zone
                                                end));
                   LogsLoader.records :=
                     LogsLoader.drop_duplicates (LogsLoader.lines file) |}
        else Raise AttributeError
    end.
Proof.
  unfold LogsLoader.load_logs, LogsLoader.clean, LogsLoader.read_csv.
  cbn [LogsLoader.stamps LogsLoader.records].
  destruct (LogsLoader.lines file) as [|r rest]; [reflexivity|].
  destruct (forallb _ (r :: rest)); [|reflexivity].
  destruct (LogsLoader.offset file); reflexivity.
Qed.

Lemma load_logs_records (file : LogsLoader.csv) (out : LogsLoader.frame) :
  LogsLoader.load_logs file = Ok out ->
  LogsLoader.lines file <> [] /\
  forallb (fun r => LogsLoader.is_instant (LogsLoader.timestamp r)) (LogsLoader.lines file)
  = true /\
  out = {| LogsLoader.stamps :=
             LogsLoader.Datetime (Some (match LogsLoader.offset file with
                                        | None => "UTC"%string
                                        | Some zone => zone
                                        end));
           LogsLoader.records := LogsLoader.drop_duplicates (LogsLoader.lines file) |}.
Proof.
  rewrite load_logs_outcome.
  destruct (LogsLoader.lines file) as [|r rest] eqn:E; [discriminate|].
  destruct (forallb _ (r :: rest)) eqn:Ef; [|discriminate].
  intros H. injection H as <-. split; [discriminate|]. split; reflexivity.
Qed.

(** X11.  When [load_logs] returns a table it has kept, of the rows that
    share a (timestamp, host, message) key, the first one: the keys of
    its rows are distinct, its rows are rows of the file in their
    original order, a row is kept exactly when it is the first of the
    file with its key, and every key of the file is still there. *)
Theorem load_logs_keeps_first_rows (file : LogsLoader.csv) (out : LogsLoader.frame) :
  LogsLoader.load_logs file = Ok out ->
  NoDup (map Notions.key (LogsLoader.records out)) /\
  Notions.sublist (LogsLoader.records out) (LogsLoader.lines file) /\
  (forall r, In r (LogsLoader.records out)
             <-> find (LogsLoader.same_key r) (LogsLoader.lines file) = Some r) /\
  (forall r, In r (LogsLoader.lines file) ->
     exists r', In r' (LogsLoader.records out) /\ Notions.key r' = Notions.key r).
Proof.
  intros H. destruct (load_logs_records file out H) as (_ & _ & ->).
  cbn [LogsLoader.records].
  unfold LogsLoader.drop_duplicates, LogsLoader.duplicated.
  assert (Hfirst : forall r,
             In r (Np.select (map negb (LogsLoader.duplicated_from [] (LogsLoader.lines file)))
                             (LogsLoader.lines file)) <->
             find (LogsLoader.same_key r) (LogsLoader.lines file) = Some r).
  { intros r. rewrite kept_first. simpl. tauto. }
  split; [apply kept_distinct|].
  split; [apply select_sublist; rewrite length_map; apply duplicated_from_length|].
  split; [exact Hfirst|].
  intros r Hr. destruct (find_first r _ Hr) as (r' & Hf & Hk).
  exists r'. split; [|exact Hk].
  apply Hfirst. rewrite (find_congr r' r _ Hk). exact Hf.
Qed.

(** X12.  [load_logs] returns a table exactly when the file has a row and
    every timestamp is a date; otherwise the [.dt] accessor is missing
    and the call raises an [AttributeError].  A returned table has a row,
    its timestamps carry a time zone (UTC when the file gave none, the
    file's own otherwise), cleaning it again leaves it as it is, and a
    file whose keys are distinct keeps all its rows. *)
Theorem load_logs_idempotent (file : LogsLoader.csv) :
  ((exists out, LogsLoader.load_logs file = Ok out) <->
   LogsLoader.lines file <> [] /\
   Forall (fun r => exists t, LogsLoader.timestamp r = LogsLoader.Instant t)
          (LogsLoader.lines file)) /\
  (forall e, LogsLoader.load_logs file = Raise e -> e = AttributeError) /\
  (forall out, LogsLoader.load_logs file = Ok out ->
     LogsLoader.records out <> [] /\
     LogsLoader.stamps out
     = LogsLoader.Datetime (Some (match LogsLoader.offset file with
                                  | None => "UTC"%string
                                  | Some zone => zone
                                  end)) /\
     LogsLoader.clean out = Ok out /\
     (NoDup (map Notions.key (LogsLoader.lines file)) ->
      LogsLoader.records out = LogsLoader.lines file)).
Proof.
  assert (Hclean : forall rows, NoDup (map Notions.key rows) ->
                                LogsLoader.drop_duplicates rows = rows).
  { intros rows H. unfold LogsLoader.drop_duplicates, LogsLoader.duplicated.
    apply kept_all; [exact H | intros r _ []]. }
  assert (Hdates : forall rows,
             forallb (fun r => LogsLoader.is_instant (LogsLoader.timestamp r)) rows = true <->
             Forall (fun r => exists t, LogsLoader.timestamp r = LogsLoader.Instant t) rows).
  { intros rows. rewrite forallb_forall, Forall_forall.
    split; intros H r Hr; specialize (H r Hr).
    - destruct (LogsLoader.timestamp r) as [t|txt]; [exists t; reflexivity | discriminate].
    - destruct H as (t & ->). reflexivity. }
  split; [|split].
  - split.
    + intros (out & H). destruct (load_logs_records file out H) as (Hne & Hf & _).
      split; [exact Hne | apply Hdates; exact Hf].
    + intros (Hne & Hf). apply Hdates in Hf. rewrite load_logs_outcome.
      destruct (LogsLoader.lines file) as [|r rest]; [congruence|].
      rewrite Hf. eexists. reflexivity.
  - intros e. rewrite load_logs_outcome.
    destruct (LogsLoader.lines file) as [|r rest]; [congruence|].
    destruct (forallb _ (r :: rest)); congruence.
  - intros out H. destruct (load_logs_records file out H) as (Hne & _ & ->).
    cbn [LogsLoader.records LogsLoader.stamps].
    split.
    { destruct (LogsLoader.lines file) as [|r rest]; [congruence|].
      unfold LogsLoader.drop_duplicates, LogsLoader.duplicated. simpl. discriminate. }
    split; [reflexivity|]. split.
    + unfold LogsLoader.clean. cbn [LogsLoader.stamps LogsLoader.records].
      rewrite Hclean; [reflexivity|].
      unfold LogsLoader.drop_duplicates, LogsLoader.duplicated. apply kept_distinct.
    + apply Hclean.
Qed.

(** On the sample file the second row goes, and with it its label; a file
    without a row, or with a timestamp that is no date, is not loaded. *)
Example load_logs_sample :
  (exists out, LogsLoader.load_logs Notions.sample_log = Ok out /\
               map LogsLoader.category (LogsLoader.records out)
               = ["Storage"; "Security"]%string /\
               LogsLoader.stamps out = LogsLoader.Datetime (Some "UTC"%string)) /\
  LogsLoader.load_logs {| LogsLoader.offset := None; LogsLoader.lines := [] |}
  = Raise AttributeError /\
  LogsLoader.load_logs
    {| LogsLoader.offset := None;
       LogsLoader.lines :=
         [ {| LogsLoader.timestamp := LogsLoader.Text "yesterday";
              LogsLoader.host := "h1"; LogsLoader.message := "disk full";
              LogsLoader.category := "Storage" |} ] |}
  = Raise AttributeError.
Proof.
  split; [eexists; split; [reflexivity | split; reflexivity]|].
  split; reflexivity.
Qed.

End Duplicates.

Lemma load_logs_keeps_first_rows_witness :
  exists out,
    LogsLoader.load_logs Notions.sample_log = Ok out /\
    NoDup (map Notions.key (LogsLoader.records out)) /\
    length (LogsLoader.records out) = 2%nat.
Proof.
  eexists. split; [reflexivity|]. split; [|reflexivity].
  apply (load_logs_keeps_first_rows Notions.sample_log). reflexivity.
Defined.

(** ** The cross-validation run *)

Section CrossValidation.

Local Open Scope Q_scope.

Context {F : Type}.
Variable G : RunCV.BitGenerator.
Variable build : CvMain.Classifier F.
Variable assign : list string -> nat -> list (list nat * list nat).

Lemma macro_f1_range (y : list string) (P : Np.ndarray2) (classes : list string)
      (res : Metrics.EvalResult) :
  Metrics.evaluate y P classes = Ok res ->
  0 <= Sk.f1_score (Sk.macro_avg (Metrics.report res)) <= 1.
Proof.
  intros H. destruct (evaluate_parts _ _ _ _ H) as (preds & _ & _ & Hr & _).
  destruct (classification_report_ok _ _ _ Hr) as (_ & _ & ->).
  cbn [Sk.macro_avg Sk.f1_score].
  apply average_range, Forall_map, Forall_forall. intros c _.
  apply (row_of_unit c y preds).
Qed.

Lemma fold_turn_macro_f1 (X : list F) (y : list string) (fold : list nat * list nat)
      (res : Metrics.EvalResult) :
  CvMain.fold_turn build X y fold = Ok res ->
  0 <= Sk.f1_score (Sk.macro_avg (Metrics.report res)) <= 1.
Proof.
  unfold CvMain.fold_turn. destruct fold as [tr te]. intros H.
  apply bind_ok in H as (X_tr & _ & H).
  apply bind_ok in H as (y_tr & _ & H).
  apply bind_ok in H as (m & _ & H).
  apply bind_ok in H as (X_te & _ & H).
  apply bind_ok in H as (probas & _ & H).
  apply bind_ok in H as (y_te & _ & H).
  eapply macro_f1_range. exact H.
Qed.

(** The loop returns one score and one report per fold, in order; a fold
    that fails makes the loop fail. *)
Lemma fold_loop_ok (X : list F) (y : list string) (folds : list (list nat * list nat))
      (scores : list Q) (reports : list Sk.report) :
  CvMain.fold_loop build X y folds = Ok (scores, reports) ->
  Forall2 (fun fold rep => exists res, CvMain.fold_turn build X y fold = Ok res /\
                                       rep = Metrics.report res) folds reports /\
  scores = map (fun rep => Sk.f1_score (Sk.macro_avg rep)) reports /\
  Forall (fun s => 0 <= s <= 1) scores.
Proof.
  revert scores reports. induction folds as [|fold rest IH]; intros scores reports H;
    simpl in H.
  - injection H as <- <-. repeat split; constructor.
  - apply bind_ok in H as (res & Hres & H).
    apply bind_ok in H as ([scores' reports'] & Hrest & H).
    injection H as <- <-. destruct (IH _ _ Hrest) as (H2 & Hs & HF).
    cbn [fst snd]. split; [|split].
    + constructor; [exists res; split; [exact Hres | reflexivity] | exact H2].
    + cbn [map]. rewrite Hs. reflexivity.
    + constructor; [eapply fold_turn_macro_f1; exact Hres | exact HF].
Qed.

(** X13.  A cross-validation run that returns a summary had at least two
    folds asked for and passed the splitter's checks; the summary holds
    one report per fold, in the order of the folds, each the report of
    [evaluate] on a model fitted for that fold; its mean is the mean of
    the folds' macro-averaged F1; and the mean and both ends of the
    confidence interval lie in [0, 1], with [lo <= hi].  The run leaves
    the world outside as it found it. *)
Theorem cv_summary_invariants (name : string) (X : list F) (y : list string)
        (n_folds : nat) (w w' : RunCV.World) (s : CvMain.Summary) :
  CvMain.run G build assign name X y n_folds w = (Ok s, w') ->
  w' = w /\
  CvMain.model s = name /\ CvMain.folds s = n_folds /\ (2 <= n_folds)%nat /\
  (exists v, RunCV.check_split y n_folds = Ok v) /\
  Forall2 (fun fold rep => exists res, CvMain.fold_turn build X y fold = Ok res /\
                                       rep = Metrics.report res)
          (assign y n_folds) (CvMain.fold_reports s) /\
  Np.mean (map (fun rep => Sk.f1_score (Sk.macro_avg rep)) (CvMain.fold_reports s))
  = Ok (CvMain.macro_f1_mean s) /\
  0 <= CvMain.macro_f1_mean s <= 1 /\
  0 <= fst (CvMain.macro_f1_ci s) /\
  fst (CvMain.macro_f1_ci s) <= snd (CvMain.macro_f1_ci s) /\
  snd (CvMain.macro_f1_ci s) <= 1.
Proof.
  unfold CvMain.run. intros H.
  destruct (RunCV.check_split y n_folds) as [v|e] eqn:Hcheck; [|discriminate].
  destruct (CvMain.fold_loop build X y (assign y n_folds)) as [[scores reports]|e] eqn:Hloop;
    [|discriminate].
  pose proof (bootstrap_ci_world G scores 2000 (1 # 20) 42 w) as Hw.
  destruct (RunCV.bootstrap_ci G scores 2000 (1 # 20) 42 w) as [ci w''] eqn:Hci.
  cbn [snd] in Hw. injection H as H <-.
  apply bind_ok in H as ([lo hi] & Hlohi & H).
  apply bind_ok in H as (mean & Hmean & H).
  injection H as <-.
  cbn [CvMain.model CvMain.folds CvMain.macro_f1_mean CvMain.macro_f1_ci
       CvMain.fold_reports fst snd].
  destruct (fold_loop_ok _ _ _ _ _ Hloop) as (H2 & Hs & HF).
  assert (Hk : (2 <= n_folds)%nat).
  { unfold RunCV.check_split in Hcheck.
    destruct (n_folds <=? 1)%nat eqn:E; [discriminate|]. apply Nat.leb_gt in E. lia. }
  assert (Hne : scores <> []) by (intros ->; discriminate).
  assert (Hseed : (0 <= 42)%Z) by lia.
  assert (Hn : (0 < 2000)%nat) by lia.
  destruct (bootstrap_ci_run G scores 2000 42 Hne Hn Hseed)
    as (boots & Hlen & Hasc & Hall & Hrun).
  assert (Ha0 : 0 <= 1 # 20) by (unfold Qle; simpl; lia).
  assert (Ha2 : 1 # 20 <= 2) by (unfold Qle; simpl; lia).
  pose proof (Hrun (1 # 20) w Ha0 Ha2) as Hval. rewrite Hci in Hval. cbn [fst] in Hval.
  rewrite Hval in Hlohi. injection Hlohi as <- <-.
  assert (HB : Forall (fun b => 0 <= b <= 1) boots).
  { eapply Forall_impl; [|exact Hall]. intros b (sample & Hsn & Hin & ->).
    apply mean_between; [exact Hsn|].
    rewrite Forall_forall in *. intros x Hx. apply HF, Hin, Hx. }
  destruct (percentile_ranks (1 # 20)) as [Elo Ehi].
  assert (Hqlo : 0 <= 100 * ((1 # 20) / 2) <= 100) by (rewrite Elo; split; lra).
  assert (Hqhi : 0 <= 100 * (1 - (1 # 20) / 2) <= 100) by (rewrite Ehi; split; lra).
  pose proof (interpolate_within 0 1 boots _ Hasc Hlen Hqlo HB) as [Hlo0 _].
  pose proof (interpolate_within 0 1 boots _ Hasc Hlen Hqhi HB) as [_ Hhi1].
  split; [exact Hw|]. split; [reflexivity|]. split; [reflexivity|]. split; [exact Hk|].
  split; [exists v; reflexivity|]. split; [exact H2|].
  split; [rewrite <- Hs; exact Hmean|].
  split; [eapply mean_range; [exact HF | exact Hmean]|].
  split; [exact Hlo0|]. split; [|exact Hhi1].
  apply interpolate_mono; [exact Hasc | exact Hlen | lra | lra | lra].
Qed.

End CrossValidation.

Lemma cv_summary_invariants_witness :
  exists s,
    CvMain.run Spec.lcg Notions.first_class_classifier Notions.two_folds "logreg"
               [0; 1; 2; 3]%nat [Spec.A; Spec.A; Spec.B; Spec.B] 2 Spec.quiet_world
    = (Ok s, Spec.quiet_world) /\
    length (CvMain.fold_reports s) = 2%nat /\
    0 <= fst (CvMain.macro_f1_ci s) /\
    fst (CvMain.macro_f1_ci s) <= snd (CvMain.macro_f1_ci s) /\
    snd (CvMain.macro_f1_ci s) <= 1.
Proof.
  eexists. split; [vm_compute; reflexivity|].
  split; [reflexivity|].
  eapply (cv_summary_invariants Spec.lcg Notions.first_class_classifier Notions.two_folds
            "logreg" [0; 1; 2; 3]%nat [Spec.A; Spec.A; Spec.B; Spec.B] 2
            Spec.quiet_world Spec.quiet_world).
  vm_compute. reflexivity.
Defined.

(** ** The report against the confusion matrix *)

Section ReportAgainstMatrix.

Local Open Scope nat_scope.

(** Counting the samples that pass [g] class by class, over distinct
    classes, counts those whose label [f] is one of the classes. *)
Lemma count_by_label {X : Type} (f : X -> string) (g : X -> string -> bool)
      (sel : X -> bool) (l : list X) (labels : list string) :
  NoDup labels ->
  (forall x q, g x q = sel x && String.eqb (f x) q) ->
  list_sum (map (fun q => length (filter (fun x => g x q) l)) labels)
  = length (filter (fun x => sel x && existsb (String.eqb (f x)) labels) l).
Proof.
  intros Hnd Hg. induction Hnd as [|c labels Hc _ IH].
  - simpl. induction l as [|x rest IHl]; simpl; [reflexivity|].
    rewrite andb_false_r. exact IHl.
  - cbn [map]. change (list_sum (?a :: ?r)) with (a + list_sum r). rewrite IH.
    symmetry. apply filter_split_length.
    + intros x. rewrite Hg. cbn [existsb].
      destruct (sel x), (String.eqb (f x) c), (existsb (String.eqb (f x)) labels);
        reflexivity.
    + intros x. rewrite Hg.
      destruct (String.eqb (f x) c) eqn:E; [|rewrite andb_false_r; reflexivity].
      apply String.eqb_eq in E.
      destruct (existsb (String.eqb (f x)) labels) eqn:E2.
      * apply existsb_exists in E2 as (z & Hz & Ez). apply String.eqb_eq in Ez.
        subst z. rewrite E in Hz. contradiction.
      * rewrite !andb_false_r. reflexivity.
Qed.

Lemma count_second {Y : Type} (t : string) (y : list Y) (p : list string) :
  length y = length p ->
  length (filter (fun tp => String.eqb (snd tp) t) (combine y p))
  = count_occ string_dec p t.
Proof.
  revert p. induction y as [|a y IH]; intros [|b p] H; simpl in *;
    try reflexivity; try discriminate.
  destruct (string_dec b t) as [->|Hne].
  - rewrite String.eqb_refl. simpl. rewrite IH by lia. reflexivity.
  - apply String.eqb_neq in Hne. rewrite Hne. apply IH. lia.
Qed.

(** A column of the matrix adds up to the samples predicted as its class,
    when every true label is one of the classes. *)
Lemma confusion_column_total (c : string) (y p labels : list string) :
  NoDup labels -> length y = length p -> Forall (fun l => In l labels) y ->
  list_sum (map (fun t => Sk.count_pair t c y p) labels) = count_occ string_dec p c.
Proof.
  intros Hnd Hlen Hin. unfold Sk.count_pair.
  rewrite (count_by_label (fun tp : string * string => fst tp)
             (fun tp t => String.eqb (fst tp) t && String.eqb (snd tp) c)
             (fun tp => String.eqb (snd tp) c) (combine y p) labels Hnd)
    by (intros x q; apply andb_comm).
  rewrite <- (count_second c y p Hlen).
  f_equal. apply filter_ext_in. intros [a b] Hab. cbn [fst snd].
  assert (Ha : existsb (String.eqb a) labels = true).
  { apply existsb_exists. exists a. split; [|apply String.eqb_refl].
    rewrite Forall_forall in Hin. apply Hin. eapply in_combine_l. exact Hab. }
  rewrite Ha, andb_true_r. reflexivity.
Qed.

(** The diagonal adds up to the samples predicted right, when every
    prediction is one of the classes. *)
Lemma confusion_trace (y p labels : list string) :
  NoDup labels -> Forall (fun q => In q labels) p ->
  list_sum (map (fun c => Sk.count_pair c c y p) labels)
  = length (filter (fun tp => String.eqb (fst tp) (snd tp)) (combine y p)).
Proof.
  intros Hnd Hin. unfold Sk.count_pair.
  rewrite (count_by_label (fun tp : string * string => snd tp)
             (fun tp c => String.eqb (fst tp) c && String.eqb (snd tp) c)
             (fun tp => String.eqb (fst tp) (snd tp)) (combine y p) labels Hnd).
  - f_equal. apply filter_ext_in. intros [a b] Hab. cbn [fst snd].
    assert (Hb : existsb (String.eqb b) labels = true).
    { apply existsb_exists. exists b. split; [|apply String.eqb_refl].
      rewrite Forall_forall in Hin. apply Hin. eapply in_combine_r. exact Hab. }
    rewrite Hb, andb_true_r. reflexivity.
  - intros [a b] q. cbn [fst snd].
    destruct (String.eqb b q) eqn:E.
    + apply String.eqb_eq in E. subst q. rewrite !andb_true_r. reflexivity.
    + rewrite !andb_false_r. reflexivity.
Qed.

Lemma confusion_entry (y p labels : list string) (i j : nat) :
  i < length labels -> j < length labels ->
  nth j (nth i (map (fun t => map (fun q => Sk.count_pair t q y p) labels) labels) []) 0
  = Sk.count_pair (nth i labels EmptyString) (nth j labels EmptyString) y p.
Proof.
  intros Hi Hj.
  rewrite (nth_map_default (fun t => map (fun q => Sk.count_pair t q y p) labels)
             labels EmptyString [] i Hi).
  apply (nth_map_default (fun q => Sk.count_pair _ q y p) labels EmptyString 0%nat j Hj).
Qed.

(** X14.  The report and the confusion matrix of one result tell the same
    story.  With distinct class names, the accuracy is the trace of the
    matrix over the number of samples; the recall of a class that has a
    row in the report is its diagonal entry over the sum of its matrix
    row; and, when every true label is one of the classes, its precision
    is the diagonal entry over the sum of its matrix column. *)
Theorem report_agrees_with_confusion_matrix (y_true : list string) (probas : Np.ndarray2)
        (classes : list string) (res : Metrics.EvalResult) :
  Metrics.evaluate y_true probas classes = Ok res ->
  NoDup classes ->
  let cm := Metrics.confusion res in
  let diag := fun i => nth i (nth i cm []) 0 in
  Sk.accuracy (Metrics.report res)
  = Sk.ratio (list_sum (map diag (seq 0 (length classes)))) (length y_true) /\
  forall i r,
    i < length classes ->
    Sk.lookup (nth i classes EmptyString) (Sk.per_label (Metrics.report res)) = Some r ->
    Sk.recall r = Sk.ratio (diag i) (list_sum (nth i cm [])) /\
    (Forall (fun l => In l classes) y_true ->
     Sk.precision r = Sk.ratio (diag i) (list_sum (map (fun row => nth i row 0) cm))).
Proof.
  intros H Hnd cm diag.
  destruct (evaluate_parts _ _ _ _ H) as (preds & _ & Htake & Hr & Hcm & _).
  destruct (classification_report_ok _ _ _ Hr) as (Hlen & _ & Hrep).
  destruct (confusion_matrix_ok _ _ _ _ Hnd Hcm) as (_ & _ & Ecm).
  pose proof (take_In _ _ _ Htake) as Hin.
  assert (Hdiag : forall i, i < length classes ->
            diag i = Sk.count_pair (nth i classes EmptyString) (nth i classes EmptyString)
                                   y_true preds).
  { intros i Hi. unfold diag, cm. rewrite Ecm. apply confusion_entry; exact Hi. }
  split.
  - rewrite Hrep. cbn [Sk.accuracy]. f_equal.
    rewrite <- (confusion_trace y_true preds classes Hnd Hin).
    rewrite <- (map_nth_seq (fun c => Sk.count_pair c c y_true preds) classes EmptyString).
    apply f_equal, map_ext_in. intros i Hi. apply in_seq in Hi. symmetry. apply Hdiag. lia.
  - intros i r Hi Hrow.
    set (c := nth i classes EmptyString) in *.
    assert (Er : r = Sk.row_of c y_true preds).
    { destruct (in_dec string_dec c (y_true ++ preds)) as [Hc|Hc].
      - apply in_app_or in Hc.
        rewrite (proj1 (report_rows y_true preds _ c Hr) Hc) in Hrow.
        injection Hrow as <-. reflexivity.
      - rewrite (proj2 (report_rows y_true preds _ c Hr)) in Hrow; [discriminate| |];
          intros Hc'; apply Hc, in_or_app; [left | right]; exact Hc'. }
    rewrite Er, (Hdiag i Hi). fold c. cbn [Sk.row_of Sk.recall Sk.precision].
    split.
    + f_equal. unfold cm. rewrite Ecm.
      rewrite (nth_map_default (fun t => map (fun q => Sk.count_pair t q y_true preds) classes)
                 classes EmptyString [] i Hi).
      fold c. symmetry. apply confusion_row_total; assumption.
    + intros Hy. f_equal. unfold cm, Sk.count_label. rewrite Ecm, map_map.
      rewrite <- (confusion_column_total c y_true preds classes Hnd Hlen Hy).
      apply f_equal, map_ext_in. intros t Ht. symmetry.
      apply (nth_map_default (fun q => Sk.count_pair t q y_true preds) classes EmptyString
               0 i Hi).
Qed.

End ReportAgainstMatrix.

Lemma report_agrees_with_confusion_matrix_witness :
  exists res,
    Metrics.evaluate [Spec.A; Spec.A; Spec.B; Spec.B] Spec.scenario_probas [Spec.A; Spec.B]
    = Ok res /\
    NoDup [Spec.A; Spec.B] /\
    Sk.accuracy (Metrics.report res)
    = Sk.ratio (list_sum (map (fun i => nth i (nth i (Metrics.confusion res) []) 0%nat)
                              (seq 0 2)))
               4.
Proof.
  assert (Hd : NoDup [Spec.A; Spec.B]).
  { constructor; [intros [H|[]]; discriminate H|]. constructor; [intros []|constructor]. }
  eexists. split; [vm_compute; reflexivity|]. split; [exact Hd|].
  match goal with
  | |- Sk.accuracy (Metrics.report ?r) = _ =>
      assert (He : Metrics.evaluate [Spec.A; Spec.A; Spec.B; Spec.B] Spec.scenario_probas
                     [Spec.A; Spec.B] = Ok r) by (vm_compute; reflexivity);
      exact (proj1 (report_agrees_with_confusion_matrix [Spec.A; Spec.A; Spec.B; Spec.B]
                      Spec.scenario_probas [Spec.A; Spec.B] r He Hd))
  end.
Defined.

(** ** When the cross-validation run fails *)

Section CrossValidationFailures.

Local Open Scope Q_scope.

Context {F : Type}.
Variable G : RunCV.BitGenerator.
Variable build : CvMain.Classifier F.
Variable assign : list string -> nat -> list (list nat * list nat).

(** The loop gets through exactly when every fold does. *)
Lemma fold_loop_returns (X : list F) (y : list string) (folds : list (list nat * list nat)) :
  Forall (fun fold => exists res, CvMain.fold_turn build X y fold = Ok res) folds ->
  exists scores reports,
    CvMain.fold_loop build X y folds = Ok (scores, reports) /\
    length scores = length folds.
Proof.
  induction 1 as [|fold rest (res & Hres) _ (scores & reports & Hloop & Hlen)].
  - exists [], []. split; reflexivity.
  - exists (Sk.f1_score (Sk.macro_avg (Metrics.report res)) :: scores),
           (Metrics.report res :: reports).
    cbn [CvMain.fold_loop]. rewrite Hres. cbn [bind]. rewrite Hloop. cbn [bind fst snd].
    split; [reflexivity | simpl; rewrite Hlen; reflexivity].
Qed.

(** The loop stops at the first fold that fails, with that fold's error. *)
Lemma fold_loop_first_failure (X : list F) (y : list string)
      (before after : list (list nat * list nat)) (fold : list nat * list nat) (e : fault) :
  Forall (fun fold => exists res, CvMain.fold_turn build X y fold = Ok res) before ->
  CvMain.fold_turn build X y fold = Raise e ->
  CvMain.fold_loop build X y (before ++ fold :: after) = Raise e.
Proof.
  intros Hb He. induction Hb as [|f rest (res & Hres) _ IH].
  - cbn [app CvMain.fold_loop]. rewrite He. reflexivity.
  - cbn [app CvMain.fold_loop]. rewrite Hres. cbn [bind]. rewrite IH. reflexivity.
Qed.

Lemma run_world (name : string) (X : list F) (y : list string) (n_folds : nat)
      (w : RunCV.World) :
  snd (CvMain.run G build assign name X y n_folds w) = w.
Proof.
  unfold CvMain.run.
  destruct (RunCV.check_split y n_folds); [|reflexivity].
  destruct (CvMain.fold_loop build X y (assign y n_folds)) as [[scores reports]|];
    [|reflexivity].
  pose proof (bootstrap_ci_world G scores 2000 (1 # 20) 42 w) as Hw.
  destruct (RunCV.bootstrap_ci G scores 2000 (1 # 20) 42 w) as [ci w']. exact Hw.
Qed.

Lemma run_outcome (name : string) (X : list F) (y : list string) (n_folds : nat)
      (w : RunCV.World) :
  fst (CvMain.run G build assign name X y n_folds w)
  = match RunCV.check_split y n_folds with
    | Raise e => Raise e
    | Ok _ =>
        match CvMain.fold_loop build X y (assign y n_folds) with
        | Raise e => Raise e
        | Ok (scores, reports) =>
            lo_hi <- fst (RunCV.bootstrap_ci G scores 2000 (1 # 20) 42 w) ;;
            mean <- Np.mean scores ;;
            Ok {| CvMain.model := name; CvMain.folds := n_folds;
                  CvMain.macro_f1_mean := mean; CvMain.macro_f1_ci := lo_hi;
                  CvMain.fold_reports := reports |}
        end
    end.
Proof.
  unfold CvMain.run.
  destruct (RunCV.check_split y n_folds); [|reflexivity].
  destruct (CvMain.fold_loop build X y (assign y n_folds)) as [[scores reports]|];
    [|reflexivity].
  destruct (RunCV.bootstrap_ci G scores 2000 (1 # 20) 42 w) as [ci w']. reflexivity.
Qed.

(** X15.  The cross-validation run returns a summary exactly when the
    splitter's checks pass, there is a fold, and every fold can be
    indexed, fitted and evaluated.  A failed check is the run's failure;
    otherwise the first fold that fails stops the run with its own error,
    so that no summary is ever built from some of the folds only.  In
    every case the state of the world is left as it was. *)
Theorem cv_run_returns_exactly_when (name : string) (X : list F) (y : list string)
        (n_folds : nat) (w : RunCV.World) :
  ((exists s, fst (CvMain.run G build assign name X y n_folds w) = Ok s) <->
   (exists v, RunCV.check_split y n_folds = Ok v) /\
   assign y n_folds <> [] /\
   Forall (fun fold => exists res, CvMain.fold_turn build X y fold = Ok res)
          (assign y n_folds)) /\
  (forall e, RunCV.check_split y n_folds = Raise e ->
             fst (CvMain.run G build assign name X y n_folds w) = Raise e) /\
  (forall v before fold after e,
     RunCV.check_split y n_folds = Ok v ->
     assign y n_folds = before ++ fold :: after ->
     Forall (fun fold => exists res, CvMain.fold_turn build X y fold = Ok res) before ->
     CvMain.fold_turn build X y fold = Raise e ->
     fst (CvMain.run G build assign name X y n_folds w) = Raise e) /\
  snd (CvMain.run G build assign name X y n_folds w) = w.
Proof.
  assert (Hseed : (0 <= 42)%Z) by lia.
  assert (Ha0 : 0 <= 1 # 20) by (unfold Qle; simpl; lia).
  assert (Ha2 : 1 # 20 <= 2) by (unfold Qle; simpl; lia).
  rewrite run_outcome.
  split; [|split; [|split]].
  - split.
    + intros (s & Hs).
      destruct (RunCV.check_split y n_folds) as [v|]; [|discriminate].
      destruct (CvMain.fold_loop build X y (assign y n_folds)) as [[scores reports]|] eqn:Hl;
        [|discriminate].
      split; [exists v; reflexivity|].
      destruct (fold_loop_ok build X y _ _ _ Hl) as (H2 & Hsc & _).
      split.
      * intros Hnil. rewrite Hnil in H2. inversion H2; subst. cbn [map] in Hs.
        rewrite (bootstrap_ci_nothing_to_resample G 2000 (1 # 20) 42 w Hseed Ha0 Ha2)
          in Hs by lia.
        discriminate.
      * clear - H2. induction H2 as [|fold rep folds reports (res & Hres & _) _ IH];
          constructor; [exists res; exact Hres | exact IH].
    + intros ((v & Hv) & Hne & Hall). rewrite Hv.
      destruct (fold_loop_returns X y _ Hall) as (scores & reports & Hl & Hlen).
      rewrite Hl.
      assert (Hsne : scores <> []).
      { intros ->. destruct (assign y n_folds); [congruence | discriminate]. }
      destruct (bootstrap_ci_run G scores 2000 42 Hsne ltac:(lia) Hseed)
        as (boots & _ & _ & _ & Hrun).
      rewrite (Hrun (1 # 20) w Ha0 Ha2), (mean_ok scores Hsne). cbn [bind].
      eexists. reflexivity.
  - intros e He. rewrite He. reflexivity.
  - intros v before fold after e Hv Hsplit Hb He. rewrite Hv, Hsplit.
    rewrite (fold_loop_first_failure X y before after fold e Hb He). reflexivity.
  - apply run_world.
Qed.

End CrossValidationFailures.

Lemma cv_run_returns_exactly_when_witness :
  (exists s, fst (CvMain.run Spec.lcg Notions.first_class_classifier Notions.two_folds
                    "logreg" [0; 1; 2; 3]%nat [Spec.A; Spec.A; Spec.B; Spec.B] 2
                    Spec.quiet_world) = Ok s) /\
  fst (CvMain.run Spec.lcg Notions.first_class_classifier Notions.two_folds
         "logreg" [0; 1; 2; 3]%nat [Spec.A; Spec.A; Spec.B; Spec.B] 1 Spec.quiet_world)
  = Raise ValueError.
Proof.
  split.
  - apply (proj1 (cv_run_returns_exactly_when Spec.lcg Notions.first_class_classifier
                    Notions.two_folds "logreg" [0; 1; 2; 3]%nat
                    [Spec.A; Spec.A; Spec.B; Spec.B] 2 Spec.quiet_world)).
    split; [eexists; vm_compute; reflexivity|].
    split; [discriminate|].
    repeat (apply Forall_cons; [eexists; vm_compute; reflexivity|]). apply Forall_nil.
  - apply (proj1 (proj2 (cv_run_returns_exactly_when Spec.lcg Notions.first_class_classifier
                           Notions.two_folds "logreg" [0; 1; 2; 3]%nat
                           [Spec.A; Spec.A; Spec.B; Spec.B] 1 Spec.quiet_world))).
    vm_compute. reflexivity.
Defined.
